(** * The graph engine of [rasa/engine/graph.py], embedded and verified

    The file follows the Python module: Python values and exceptions, the
    dictionary operations the module relies on, [SchemaNode] and
    [GraphSchema] with [as_dict], [from_dict], [target_names] and
    [minimal_graph_schema], then [GraphNode] with [_load_component],
    [_get_resource], the hooks and [__call__].  The theorems come after
    the definitions. *)

From Stdlib Require Import ZArith.
From stdpp Require Import base tactics option list strings gmap relations.

Set Warnings "-register-all".
Local Open Scope string_scope.
Local Open Scope list_scope.

(** ** Python values *)

(** A class object.  Two class objects are the same class when they are the
    same object ([cls_id]); [__module__] and [__name__] are the attributes
    [as_dict] reads. *)
Record ClassObj := {
  cls_id : nat;
  __module__ : string;
  __name__ : string
}.

(** [rasa.engine.storage.resource.Resource].

    Modelled from the spec: the class is imported by [graph.py] and is not
    part of the sources at hand; the spec describes it as "a lightweight
    named handle (string name)", a dataclass whose flat form has the field
    [name]. *)
Record Resource := { name : string }.

(** The values that travel through the module untyped ([Any]): JSON data,
    class objects, [Resource] objects and opaque objects (a model storage,
    an execution context, a component instance's data). *)
Inductive pyval :=
| VNone
| VBool (b : bool)
| VInt (z : Z)
| VStr (s : string)
| VList (l : list pyval)
| VDict (d : list (string * pyval))
| VClass (c : ClassObj)
| VResource (r : Resource)
| VObj (tag : string) (data : list pyval).

(** A Python [dict] with string keys: the association list of its items in
    insertion order.  A list is a dictionary when its keys are distinct. *)
Abbreviation dict V := (list (string * V)).

(** ** Exceptions and results *)

Inductive exn :=
| KeyError (key : string)
| TypeError (msg : string)
| AttributeError (attr : string)
| ImportError (path : string)
| RecursionError
| PyException (cls : string) (arg : string)
| GraphSchemaException (msg : string) (cause : exn)
| GraphComponentException (msg : string) (cause : exn)
| SystemExit
| OutsideModel (what : string).

(** [isinstance(e, Exception)]: what [except Exception] catches.
    [SystemExit] derives from [BaseException] only.  [OutsideModel] is not a
    Python exception: it marks a value that does not inhabit the type the
    source annotates (Python would carry on with it, the typed embedding
    stops there), and nothing catches it. *)
Definition is_Exception (e : exn) : bool :=
  match e with
  | SystemExit | OutsideModel _ => false
  | _ => true
  end.

Inductive result (A : Type) :=
| Ok (a : A)
| Raise (e : exn).
Arguments Ok {A} a.
Arguments Raise {A} e.

#[global] Instance result_ret : MRet result := fun A a => Ok a.
#[global] Instance result_bind : MBind result := fun A B k r =>
  match r with
  | Ok a => k a
  | Raise e => Raise e
  end.

(** [for x in xs: acc = body(x, acc)], stopping at the first exception. *)
Fixpoint for_each {A B} (xs : list A) (acc : B) (body : A -> B -> result B)
  : result B :=
  match xs with
  | [] => Ok acc
  | x :: xs' => acc' ← body x acc; for_each xs' acc' body
  end.

(** [k in l] for a list of strings. *)
Definition str_in (k : string) (l : list string) : bool :=
  existsb (String.eqb k) l.

(** ** Dictionary operations *)

Module Dict.
Section ops.
Context {V : Type}.

Definition keys (d : dict V) : list string := d.*1.
Definition values (d : dict V) : list V := d.*2.

(** [d.get(k)] *)
Fixpoint get (d : dict V) (k : string) : option V :=
match d with
| [] => None
| (k', v) :: d' => if String.eqb k' k then Some v else get d' k
end.

(** [k in d] *)
Definition contains (d : dict V) (k : string) : bool :=
match get d k with Some _ => true | None => false end.

(** [d[k]] *)
Definition getitem (d : dict V) (k : string) : result V :=
match get d k with
| Some v => Ok v
| None => Raise (KeyError k)
end.

(** [d[k] = v]: an existing key keeps its place, a new key goes last. *)
Fixpoint set (d : dict V) (k : string) (v : V) : dict V :=
match d with
| [] => [(k, v)]
| (k', v') :: d' =>
    if String.eqb k' k then (k, v) :: d' else (k', v') :: set d' k v
end.

(** [del d[k]] *)
Definition remove (d : dict V) (k : string) : dict V :=
filter (fun kv => String.eqb kv.1 k = false) d.

(** [dict(pairs)] and [{**d, **pairs}]: later items win. *)
Definition update (d : dict V) (pairs : list (string * V)) : dict V :=
foldl (fun acc kv => set acc kv.1 kv.2) d pairs.

Definition of_pairs (pairs : list (string * V)) : dict V := update [] pairs.

(** [{k: v for k, v in d.items() if p(k)}] *)
Definition filter_keys (p : string -> bool) (d : dict V) : dict V :=
filter (fun kv => p kv.1 = true) d.
End ops.
End Dict.

(** ** A state and exception monad

    [M S A]: a computation over a mutable object of type [S] that returns an
    [A] or raises.  The state that comes out is the state at the moment the
    computation returned or raised. *)
Definition M (S A : Type) : Type := S -> S * result A.

#[global] Instance M_ret {S} : MRet (M S) := fun A a s => (s, Ok a).
#[global] Instance M_bind {S} : MBind (M S) := fun A B k m s =>
  match m s with
  | (s', Ok a) => k a s'
  | (s', Raise e) => (s', Raise e)
  end.

Definition get_state {S} : M S S := fun s => (s, Ok s).
Definition lift {S A} (r : result A) : M S A := fun s => (s, r).
Definition raise {S A} (e : exn) : M S A := lift (Raise e).

(** [try: body  except <guard> as e: raise wrap(e) from e]; the handler runs
    in the state the body left behind. *)
Definition try_except {S A} (body : M S A) (guard : exn -> bool)
    (handler : exn -> M S A) : M S A := fun s =>
  match body s with
  | (s', Raise e) => if guard e then handler e s' else (s', Raise e)
  | done => done
  end.

(** [for x in xs: acc = body(x, acc)] in the monad. *)
Fixpoint for_eachM {S A B} (xs : list A) (acc : B) (body : A -> B -> M S B)
  : M S B :=
  match xs with
  | [] => mret acc
  | x :: xs' => acc' ← body x acc; for_eachM xs' acc' body
  end.

(** ** Truthiness and [dataclasses.asdict] *)

(** [bool(v)], as the [if resource:] of [from_dict] evaluates it. *)
Definition truthy (v : pyval) : bool :=
  match v with
  | VNone => false
  | VBool b => b
  | VInt z => negb (Z.eqb z 0)
  | VStr s => negb (String.eqb s "")
  | VList l => match l with [] => false | _ => true end
  | VDict d => match d with [] => false | _ => true end
  | VClass _ | VResource _ | VObj _ _ => true
  end.

(** [dataclasses._asdict_inner]: dataclass instances become dictionaries of
    their fields, lists and dictionaries are rebuilt, everything else goes
    through [copy.deepcopy].  The deep copy of [None], a number, a string
    or a class object is that value.  The deep copy of an opaque object is
    another object (or the copy fails); the values here have no identity to
    tell the copy from the original, so the embedding stops there. *)
Fixpoint asdict_inner (v : pyval) : result pyval :=
  match v with
  | VList l =>
      l' ← (fix items (l : list pyval) : result (list pyval) :=
              match l with
              | [] => Ok []
              | x :: l => x' ← asdict_inner x; l' ← items l; Ok (x' :: l')
              end) l;
      Ok (VList l')
  | VDict d =>
      d' ← (fix items (d : list (string * pyval))
              : result (list (string * pyval)) :=
              match d with
              | [] => Ok []
              | (k, x) :: d => x' ← asdict_inner x; d' ← items d; Ok ((k, x') :: d')
              end) d;
      Ok (VDict d')
  | VResource r => Ok (VDict [("name", VStr (name r))])
  | VObj _ _ => Raise (OutsideModel "copy.deepcopy of an opaque object")
  | VNone | VBool _ | VInt _ | VStr _ | VClass _ => Ok v
  end.

(** JSON data: no class object, no [Resource], no opaque object inside. *)
Fixpoint json_safe (v : pyval) : bool :=
  match v with
  | VNone | VBool _ | VInt _ | VStr _ => true
  | VList l => forallb json_safe l
  | VDict d => forallb (fun kv => let '(_, x) := kv in json_safe x) d
  | VClass _ | VResource _ | VObj _ _ => false
  end.

(** ** [SchemaNode] and [GraphSchema] *)

Record SchemaNode := {
  needs : dict string;
  uses : ClassObj;
  constructor_name : string;
  fn : string;
  config : dict pyval;
  eager : bool;
  is_target : bool;
  is_input : bool;
  resource : option Resource
}.

Record GraphSchema := { nodes : dict SchemaNode }.

(** [dataclasses.asdict(node)]: the fields in declaration order. *)
Definition asdict (node : SchemaNode) : result (dict pyval) :=
  needs_ ← asdict_inner (VDict (prod_map id VStr <$> needs node));
  uses_ ← asdict_inner (VClass (uses node));
  constructor_name_ ← asdict_inner (VStr (constructor_name node));
  fn_ ← asdict_inner (VStr (fn node));
  config_ ← asdict_inner (VDict (config node));
  eager_ ← asdict_inner (VBool (eager node));
  is_target_ ← asdict_inner (VBool (is_target node));
  is_input_ ← asdict_inner (VBool (is_input node));
  resource_ ← match resource node with
              | Some r => asdict_inner (VResource r)
              | None => asdict_inner VNone
              end;
  Ok [ ("needs", needs_); ("uses", uses_);
       ("constructor_name", constructor_name_); ("fn", fn_);
       ("config", config_); ("eager", eager_); ("is_target", is_target_);
       ("is_input", is_input_); ("resource", resource_) ].

(** [f"{node.uses.__module__}.{node.uses.__name__}"] *)
Definition dotted_path (c : ClassObj) : string :=
  __module__ c +:+ "." +:+ __name__ c.

(** [GraphSchema.as_dict] *)
Definition as_dict (self : GraphSchema) : result (dict pyval) :=
  for_each (nodes self) [] (fun '(node_name, node) serializable_graph_schema =>
    serializable ← asdict node;
    let serializable :=
      Dict.set serializable "uses" (VStr (dotted_path (uses node))) in
    Ok (Dict.set serializable_graph_schema node_name (VDict serializable))).

(** *** The dataclass constructors, called with [**kwargs] *)

Definition outside {A} (what : string) : result A := Raise (OutsideModel what).

(** The checks every dataclass [__init__] makes on keyword arguments:
    no unknown keyword, no required field missing. *)
Definition check_kwargs {V} (cls : string) (fields required : list string)
    (kw : dict V) : result unit :=
  if forallb (fun k => str_in k fields) (Dict.keys kw) then
    if forallb (fun k => str_in k (Dict.keys kw)) required then Ok tt
    else Raise (TypeError (cls +:+ ".__init__() missing required arguments"))
  else Raise (TypeError (cls +:+ ".__init__() got an unexpected keyword argument")).

Definition as_str (v : pyval) : result string :=
  match v with VStr s => Ok s | _ => outside "not a str" end.

Definition as_bool (v : pyval) : result bool :=
  match v with VBool b => Ok b | _ => outside "not a bool" end.

Definition as_class (v : pyval) : result ClassObj :=
  match v with VClass c => Ok c | _ => outside "not a class" end.

Definition as_dict_of_any (v : pyval) : result (dict pyval) :=
  match v with VDict d => Ok d | _ => outside "not a dict" end.

Definition as_dict_of_str (v : pyval) : result (dict string) :=
  match v with
  | VDict d => for_each d [] (fun kv acc => s ← as_str kv.2; Ok (acc ++ [(kv.1, s)]))
  | _ => outside "not a dict"
  end.

Definition as_optional_resource (v : pyval) : result (option Resource) :=
  match v with
  | VNone => Ok None
  | VResource r => Ok (Some r)
  | _ => outside "not an Optional[Resource]"
  end.

(** A field given by keyword, or its default. *)
Definition field {A} (kw : dict pyval) (k : string) (decode : pyval -> result A)
    (default : A) : result A :=
  match Dict.get kw k with
  | Some v => decode v
  | None => Ok default
  end.

(** [Resource] called on the unpacked mapping [kw]: a mapping is required,
    then the dataclass checks. *)
Definition Resource_init (kw : pyval) : result Resource :=
  match kw with
  | VDict kw =>
      check_kwargs "Resource" ["name"] ["name"] kw;;
      n ← (v ← Dict.getitem kw "name"; as_str v);
      Ok {| name := n |}
  | _ => Raise (TypeError "argument after ** must be a mapping")
  end.

Definition SchemaNode_fields : list string :=
  ["needs"; "uses"; "constructor_name"; "fn"; "config";
   "eager"; "is_target"; "is_input"; "resource"].

(** [SchemaNode] called on the unpacked dictionary [kw]. *)
Definition SchemaNode_init (kw : dict pyval) : result SchemaNode :=
  check_kwargs "SchemaNode" SchemaNode_fields
    ["needs"; "uses"; "constructor_name"; "fn"; "config"] kw;;
  needs ← (v ← Dict.getitem kw "needs"; as_dict_of_str v);
  uses ← (v ← Dict.getitem kw "uses"; as_class v);
  constructor_name ← (v ← Dict.getitem kw "constructor_name"; as_str v);
  fn ← (v ← Dict.getitem kw "fn"; as_str v);
  config ← (v ← Dict.getitem kw "config"; as_dict_of_any v);
  eager ← field kw "eager" as_bool false;
  is_target ← field kw "is_target" as_bool false;
  is_input ← field kw "is_input" as_bool false;
  resource ← field kw "resource" as_optional_resource None;
  Ok {| needs := needs; uses := uses; constructor_name := constructor_name;
        fn := fn; config := config; eager := eager; is_target := is_target;
        is_input := is_input; resource := resource |}.

(** *** [from_dict], [target_names], [minimal_graph_schema] *)

Section Schema.

(** [rasa.shared.utils.common.class_from_module_path], which is not part
    of the sources at hand: the import system, as a partial map from
    dotted paths to class objects.  [None] stands for the [ImportError]
    it raises "when the class cannot be imported/found". *)
Variable class_from_module_path : string -> option ClassObj.

(** [str(v)] for a value that is not a string, as an f-string formats it
    (the builtin is not modelled). *)
Variable py_str : pyval -> string.

Definition format_value (v : pyval) : string :=
  match v with
  | VStr s => s
  | _ => py_str v
  end.

(** The call [class_from_module_path(v)] on an untyped value; the helper
    is declared on [Text]. *)
Definition import_class (v : pyval) : result ClassObj :=
  match v with
  | VStr path =>
      match class_from_module_path path with
      | Some c => Ok c
      | None => Raise (ImportError path)
      end
  | _ => outside "class_from_module_path on a value that is not a str"
  end.

Definition getitemM (k : string) : M (dict pyval) pyval :=
  fun d => (d, Dict.getitem d k).
Definition setitemM (k : string) (v : pyval) : M (dict pyval) unit :=
  fun d => (Dict.set d k v, Ok tt).

Definition is_ImportError (e : exn) : bool :=
  match e with ImportError _ => true | _ => false end.

Definition deserializing_error (shown : string) : string :=
  "Error deserializing graph schema. Can't find class for graph component type '"
    +:+ shown +:+ "'.".

(** The body of the loop of [from_dict] for one [serialized_node], which
    it changes in place. *)
Definition from_dict_node : M (dict pyval) SchemaNode :=
  try_except
    (u ← getitemM "uses";
     c ← lift (import_class u);
     setitemM "uses" (VClass c);;
     resource ← getitemM "resource";
     if truthy resource then
       r ← lift (Resource_init resource);
       setitemM "resource" (VResource r)
     else mret tt)
    is_ImportError
    (fun e =>
       u ← getitemM "uses";
       raise (GraphSchemaException (deserializing_error (format_value u)) e));;
  serialized_node ← get_state;
  lift (SchemaNode_init serialized_node).

(** The loop of [from_dict] over the items of [serialized_graph_schema].
    The first component is the list of items as the loop leaves them: the
    node dictionaries are the caller's objects. *)
Fixpoint from_dict_items (items : dict pyval) (nodes : dict SchemaNode)
  : dict pyval * result (dict SchemaNode) :=
  match items with
  | [] => ([], Ok nodes)
  | (node_name, VDict serialized_node) :: rest =>
      match from_dict_node serialized_node with
      | (serialized_node', Ok node) =>
          let '(rest', r) :=
            from_dict_items rest (Dict.set nodes node_name node) in
          ((node_name, VDict serialized_node') :: rest', r)
      | (serialized_node', Raise e) =>
          ((node_name, VDict serialized_node') :: rest, Raise e)
      end
  | (node_name, _) :: rest =>
      (items, Raise (TypeError "serialized node is not subscriptable by str"))
  end.

(** [GraphSchema.from_dict] *)
Definition from_dict : M (dict pyval) GraphSchema :=
  fun serialized_graph_schema =>
    match from_dict_items serialized_graph_schema [] with
    | (after, Ok nodes) => (after, Ok {| nodes := nodes |})
    | (after, Raise e) => (after, Raise e)
    end.

(** [GraphSchema.target_names] *)
Definition target_names (self : GraphSchema) : list string :=
  (filter (fun item => is_target item.2 = true) (nodes self)).*1.

(** [GraphSchema._all_dependencies_schema].  The recursion of the source
    is bounded by the interpreter's recursion limit only; [limit] is that
    limit, and running into it raises [RecursionError]. *)
Fixpoint _all_dependencies_schema (limit : nat) (self : GraphSchema)
    (targets : list string) : result (list string) :=
  match limit with
  | 0 => Raise RecursionError
  | S limit' =>
      for_each targets [] (fun target required =>
        let required := required ++ [target] in
        node ← Dict.getitem (nodes self) target;
        let target_dependencies := Dict.values (needs node) in
        for_each target_dependencies required (fun dependency required =>
          deps ← _all_dependencies_schema limit' self [dependency];
          Ok (required ++ deps)))
  end.

(** [GraphSchema.minimal_graph_schema] *)
Definition minimal_graph_schema (limit : nat) (self : GraphSchema)
  : result GraphSchema :=
  dependencies ← _all_dependencies_schema limit self (target_names self);
  Ok {| nodes := Dict.filter_keys
                   (fun node_name => str_in node_name dependencies)
                   (nodes self) |}.

End Schema.

(** ** [GraphNode] *)

(** A callable attribute of a component class.  [params] is what its
    signature declares; [call args kwargs] is the result of calling it with
    positional arguments [args] and keyword arguments [kwargs].  Component
    code is opaque to the engine: a call is known by its arguments and its
    result. *)
Record Callable := {
  params : list string;
  call : list pyval -> dict pyval -> result pyval
}.

(** [rasa.shared.utils.common.minimal_kwargs].

    Modelled from the spec: the helper is not part of the sources at hand;
    the spec describes its result as "the subset of received inputs whose
    names match the constructor's accepted parameters". *)
Definition minimal_kwargs (kwargs : dict pyval) (func : Callable) : dict pyval :=
  Dict.filter_keys (fun k => str_in k (params func)) kwargs.

(** [GraphNodeHook]: the two callbacks, with their keyword arguments in the
    order of the source. *)
Record GraphNodeHook := {
  on_before_node :
    string -> pyval -> dict pyval -> dict pyval -> result pyval;
  on_after_node :
    string -> pyval -> dict pyval -> pyval -> pyval -> result unit
}.

(** A component instance: the object the constructor returned, with the
    identity it got when it was created. *)
Record Instance := { obj_id : nat; obj_val : pyval }.

Record GraphNode := {
  _node_name : string;
  _component_class : ClassObj;
  _constructor_name : string;
  _constructor_fn : Callable;
  _component_config : dict pyval;
  _fn_name : string;
  _fn : Callable;
  _inputs : dict string;
  _eager : bool;
  _model_storage : pyval;
  _existing_resource : option Resource;
  _execution_context : pyval;
  _hooks : list GraphNodeHook;
  _component : option Instance
}.

Definition set_component (self : GraphNode) (c : option Instance) : GraphNode :=
  {| _node_name := _node_name self;
     _component_class := _component_class self;
     _constructor_name := _constructor_name self;
     _constructor_fn := _constructor_fn self;
     _component_config := _component_config self;
     _fn_name := _fn_name self;
     _fn := _fn self;
     _inputs := _inputs self;
     _eager := _eager self;
     _model_storage := _model_storage self;
     _existing_resource := _existing_resource self;
     _execution_context := _execution_context self;
     _hooks := _hooks self;
     _component := c |}.

(** What the engine makes component and hook code do, in order. *)
Inductive event :=
| CallConstructor (node_name constructor_name : string) (kwargs : dict pyval)
| CallFn (node_name fn_name : string) (self : pyval) (kwargs : dict pyval)
| CallBeforeHook (node_name : string) (received_inputs : dict pyval)
| CallAfterHook (node_name : string) (output input_hook_data : pyval).

(** The world outside a node: the calls made so far and the next free
    object identity. *)
Record World := { trace : list event; next_id : nat }.

(** The state a method of [GraphNode] works on: the node itself and the
    world. *)
Record State := { node : GraphNode; world : World }.

Definition log (e : event) : M State unit := fun st =>
  ({| node := node st;
      world := {| trace := trace (world st) ++ [e];
                  next_id := next_id (world st) |} |}, Ok tt).

(** The object a constructor has just returned gets a fresh identity and
    is stored in [self._component]. *)
Definition store_component (v : pyval) : M State unit := fun st =>
  ({| node := set_component (node st)
                (Some {| obj_id := next_id (world st); obj_val := v |});
      world := {| trace := trace (world st);
                  next_id := S (next_id (world st)) |} |}, Ok tt).

Definition is_constructor_call (e : event) : bool :=
  match e with CallConstructor _ _ _ => true | _ => false end.

(** How many times a constructor has been called. *)
Definition instantiations (w : World) : nat :=
  length (filter (fun e => is_constructor_call e = true) (trace w)).

Section Node.

(** The attributes of the component classes ([getattr] on a class) and
    their [get_default_config()]; the classes themselves are external. *)
Variable class_attrs : ClassObj -> dict Callable.
Variable get_default_config : ClassObj -> dict pyval.

Definition getattr (c : ClassObj) (attr : string) : result Callable :=
  match Dict.get (class_attrs c) attr with
  | Some f => Ok f
  | None => Raise (AttributeError attr)
  end.

Definition popM (k : string) : M (dict pyval) pyval := fun d =>
  match Dict.get d k with
  | Some v => (Dict.remove d k, Ok v)
  | None => (d, Raise (KeyError k))
  end.

(** [GraphNode._get_resource]; the state is the [kwargs] dictionary. *)
Definition _get_resource (self : GraphNode) : M (dict pyval) pyval :=
  kwargs ← get_state;
  if Dict.contains kwargs "resource" then
    popM "resource"
  else
    match _existing_resource self with
    | Some r => mret (VResource r)
    | None => mret (VResource {| name := _node_name self |})
    end.

Definition initializing_error (node_name : string) : string :=
  "Error initializing graph component for node " +:+ node_name +:+ ".".
Definition running_error (node_name : string) : string :=
  "Error running graph component for node " +:+ node_name +:+ ".".
Definition before_hook_error (node_name : string) : string :=
  "Error running before hook for node " +:+ node_name +:+ ".".
Definition after_hook_error (node_name : string) : string :=
  "Error running after hook for node " +:+ node_name +:+ ".".

(** A call [f(k1=v1, ..., **kwargs)]: a key of [kwargs] that repeats an
    explicit keyword is a [TypeError] at the call site; otherwise the
    callee gets all of them. *)
Definition keyword_arguments (explicit kwargs : dict pyval)
  : result (dict pyval) :=
  if existsb (fun k => str_in k (Dict.keys explicit)) (Dict.keys kwargs)
  then Raise (TypeError "got multiple values for keyword argument")
  else Ok (explicit ++ kwargs).

(** [GraphNode._load_component] *)
Definition _load_component (kwargs : dict pyval) : M State unit :=
  st ← get_state;
  let self := node st in
  constructor ← lift (getattr (_component_class self) (_constructor_name self));
  try_except
    (let '(kwargs, resource) := _get_resource self kwargs in
     resource ← lift resource;
     arguments ← lift (keyword_arguments
                         [ ("config", VDict (_component_config self));
                           ("model_storage", _model_storage self);
                           ("resource", resource);
                           ("execution_context", _execution_context self) ]
                         kwargs);
     log (CallConstructor (_node_name self) (_constructor_name self) arguments);;
     component ← lift (call constructor [] arguments);
     store_component component)
    is_Exception
    (fun e => raise (GraphComponentException
                       (initializing_error (_node_name self)) e)).

(** [GraphNode.__init__] *)
Definition __init__ (node_name : string) (component_class : ClassObj)
    (constructor_name : string) (component_config : dict pyval)
    (fn_name : string) (inputs : dict string) (eager : bool)
    (model_storage : pyval) (resource : option Resource)
    (execution_context : pyval) (hooks : option (list GraphNodeHook))
  : M World GraphNode := fun w =>
  match getattr component_class constructor_name with
  | Raise e => (w, Raise e)
  | Ok constructor_fn =>
    match getattr component_class fn_name with
    | Raise e => (w, Raise e)
    | Ok fn =>
      let self :=
        {| _node_name := node_name;
           _component_class := component_class;
           _constructor_name := constructor_name;
           _constructor_fn := constructor_fn;
           _component_config :=
             Dict.update (get_default_config component_class) component_config;
           _fn_name := fn_name;
           _fn := fn;
           _inputs := inputs;
           _eager := eager;
           _model_storage := model_storage;
           _existing_resource := resource;
           _execution_context := execution_context;
           _hooks := default [] hooks;
           _component := None |} in
      if eager then
        match _load_component [] {| node := self; world := w |} with
        | (st, Ok _) => (world st, Ok (node st))
        | (st, Raise e) => (world st, Raise e)
        end
      else (w, Ok self)
    end
  end.

(** [GraphNode.parent_node_names] *)
Definition parent_node_names (self : GraphNode) : list string :=
  Dict.values (_inputs self).

(** [GraphNode._run_before_hooks] *)
Definition _run_before_hooks (received_inputs : dict pyval)
  : M State (list pyval) :=
  st ← get_state;
  let self := node st in
  for_eachM (_hooks self) [] (fun hook input_hook_outputs =>
    hook_output ←
      try_except
        (log (CallBeforeHook (_node_name self) received_inputs);;
         lift (on_before_node hook (_node_name self)
                 (_execution_context self) (_component_config self)
                 received_inputs))
        is_Exception
        (fun e => raise (GraphComponentException
                           (before_hook_error (_node_name self)) e));
    mret (input_hook_outputs ++ [hook_output])).

(** [GraphNode._run_after_hooks] *)
Definition _run_after_hooks (input_hook_outputs : list pyval) (output : pyval)
  : M State unit :=
  st ← get_state;
  let self := node st in
  for_eachM (zip (_hooks self) input_hook_outputs) tt (fun '(hook, hook_data) _ =>
    try_except
      (log (CallAfterHook (_node_name self) output hook_data);;
       lift (on_after_node hook (_node_name self) (_execution_context self)
               (_component_config self) output hook_data))
      is_Exception
      (fun e => raise (GraphComponentException
                         (after_hook_error (_node_name self)) e))).

(** The first loop of [__call__]: the outputs of the parent nodes, under
    the names this node gives them. *)
Definition project_inputs (inputs : dict string) (received_inputs : dict pyval)
  : result (dict pyval) :=
  for_each inputs [] (fun '(input_name, input_node) kwargs =>
    v ← Dict.getitem received_inputs input_node;
    Ok (Dict.set kwargs input_name v)).

(** [self._fn(self._component, **run_kwargs)] *)
Definition component_value (self : GraphNode) : pyval :=
  match _component self with
  | Some c => obj_val c
  | None => VNone
  end.

(** [GraphNode.__call__] *)
Definition __call__ (inputs_from_previous_nodes : list (string * pyval))
  : M State (string * pyval) :=
  st ← get_state;
  let received_inputs := Dict.of_pairs inputs_from_previous_nodes in
  kwargs ← lift (project_inputs (_inputs (node st)) received_inputs);
  input_hook_outputs ← _run_before_hooks kwargs;
  run_kwargs ←
    (if negb (_eager (node st)) then
       let constructor_kwargs :=
         minimal_kwargs kwargs (_constructor_fn (node st)) in
       _load_component constructor_kwargs;;
       mret (Dict.filter_keys
               (fun k => negb (Dict.contains constructor_kwargs k)) kwargs)
     else mret kwargs);
  st ← get_state;
  let self := node st in
  output ←
    try_except
      (log (CallFn (_node_name self) (_fn_name self)
              (component_value self) run_kwargs);;
       lift (call (_fn self) [component_value self] run_kwargs))
      is_Exception
      (fun e => raise (GraphComponentException
                         (running_error (_node_name self)) e));
  _run_after_hooks input_hook_outputs output;;
  mret (_node_name self, output).

(** [GraphNode.from_schema_node] *)
Definition from_schema_node (node_name : string) (schema_node : SchemaNode)
    (model_storage execution_context : pyval)
    (hooks : option (list GraphNodeHook)) : M World GraphNode :=
  __init__ node_name (uses schema_node) (constructor_name schema_node)
    (config schema_node) (fn schema_node) (needs schema_node)
    (eager schema_node) model_storage (resource schema_node)
    execution_context hooks.

End Node.

(** ** Specification vocabulary: dependencies, reachability, cycles *)

(** [d] is one of the values of the [needs] of node [n]. *)
Definition depends_on (s : GraphSchema) (n d : string) : Prop :=
  exists node, Dict.get (nodes s) n = Some node /\ d ∈ Dict.values (needs node).

(** [t] is a target: a node of the schema that is marked [is_target]. *)
Definition is_target_node (s : GraphSchema) (t : string) : Prop :=
  exists node, (t, node) ∈ nodes s /\ is_target node = true.

(** [n] is reached from a target by following [needs] values. *)
Definition reachable (s : GraphSchema) (n : string) : Prop :=
  exists t, is_target_node s t /\ rtc (depends_on s) t n.

(** Every [needs] value names a node of the schema. *)
Definition needs_exist (s : GraphSchema) : Prop :=
  forall n node d,
    (n, node) ∈ nodes s -> d ∈ Dict.values (needs node) ->
    d ∈ Dict.keys (nodes s).

(** No node reachable from a target needs itself, directly or not. *)
Definition acyclic_from_targets (s : GraphSchema) : Prop :=
  forall n, reachable s n -> ~ tc (depends_on s) n n.

(** Plain data: [None], booleans, integers, strings, class objects, and
    lists and dictionaries of these.  No dataclass instance, which
    [dataclasses.asdict] turns into a dictionary, and no other object, which
    it copies into another object. *)
Fixpoint plain_data (v : pyval) : bool :=
  match v with
  | VList l => forallb plain_data l
  | VDict d => forallb (fun kv => let '(_, x) := kv in plain_data x) d
  | VResource _ | VObj _ _ => false
  | VNone | VBool _ | VInt _ | VStr _ | VClass _ => true
  end.

(** The serialized form of one node, as [as_dict] stores it when the
    config of the node is plain data. *)
Definition serialized (node : SchemaNode) : dict pyval :=
  [ ("needs", VDict (prod_map id VStr <$> needs node));
    ("uses", VStr (dotted_path (uses node)));
    ("constructor_name", VStr (constructor_name node));
    ("fn", VStr (fn node));
    ("config", VDict (config node));
    ("eager", VBool (eager node));
    ("is_target", VBool (is_target node));
    ("is_input", VBool (is_input node));
    ("resource", match resource node with
                 | Some r => VDict [("name", VStr (name r))]
                 | None => VNone
                 end) ].

(** The serialized form of a schema. *)
Definition serialized_schema (s : GraphSchema) : dict pyval :=
  (fun item => (item.1, VDict (serialized item.2))) <$> nodes s.

(** The same dictionary after [from_dict] has gone over it. *)
Definition deserialized (node : SchemaNode) : dict pyval :=
  let d := Dict.set (serialized node) "uses" (VClass (uses node)) in
  match resource node with
  | Some r => Dict.set d "resource" (VResource r)
  | None => d
  end.

(** What [from_dict] has done to a node dictionary [before] once it is
    through with it: [after] holds the class object under ["uses"], a
    [Resource] object under ["resource"] when the value there was truthy,
    and is otherwise as it was. *)
Definition node_mutated (class_from_module_path : string -> option ClassObj)
    (before after : dict pyval) : Prop :=
  exists path c rv,
    Dict.get before "uses" = Some (VStr path)
    /\ class_from_module_path path = Some c
    /\ Dict.get before "resource" = Some rv
    /\ Dict.get after "uses" = Some (VClass c)
    /\ (if truthy rv
        then exists r, Resource_init rv = Ok r
                       /\ Dict.get after "resource" = Some (VResource r)
        else Dict.get after "resource" = Some rv)
    /\ (forall k, k <> "uses" -> k <> "resource" ->
          Dict.get after k = Dict.get before k).

(** The loop of [from_dict] gets through this item without raising. *)
Definition deserializes (class_from_module_path : string -> option ClassObj)
    (py_str : pyval -> string) (item : string * pyval) : Prop :=
  exists sn sn' node,
    item.2 = VDict sn
    /\ from_dict_node class_from_module_path py_str sn = (sn', Ok node).

(** An item of the argument of [from_dict] before and after the call. *)
Definition item_mutated (class_from_module_path : string -> option ClassObj)
    (before after : string * pyval) : Prop :=
  after.1 = before.1
  /\ exists sn sn',
       before.2 = VDict sn /\ after.2 = VDict sn'
       /\ node_mutated class_from_module_path sn sn'.

(** C1 as the specification words it: every valid (acyclic) schema whose
    classes can be imported under their dotted paths comes back from
    [from_dict] applied to [as_dict]. *)
Definition round_trip_lossless
    (class_from_module_path : string -> option ClassObj)
    (py_str : pyval -> string) : Prop :=
  forall s,
    NoDup (Dict.keys (nodes s)) ->
    needs_exist s ->
    (forall n, ~ tc (depends_on s) n n) ->
    (forall n node, (n, node) ∈ nodes s ->
       class_from_module_path (dotted_path (uses node)) = Some (uses node)) ->
    exists serialized_graph_schema,
      as_dict s = Ok serialized_graph_schema
      /\ (from_dict class_from_module_path py_str serialized_graph_schema).2
         = Ok s.

(** ** Specification vocabulary for [GraphNode] *)

Definition is_hook_call (e : event) : bool :=
  match e with
  | CallBeforeHook _ _ | CallAfterHook _ _ _ => true
  | _ => false
  end.

(** From [st] to [st'] nothing happened but calls of hooks. *)
Definition hooks_only (st st' : State) : Prop :=
  node st' = node st
  /\ next_id (world st') = next_id (world st)
  /\ exists calls,
       trace (world st') = trace (world st) ++ calls
       /\ Forall (fun e => is_hook_call e = true) calls.

(** The resource [_load_component] hands to the constructor when it is
    called with [kwargs]: the ["resource"] among them, else the resource of
    the schema node, else a resource named after the node. *)
Definition resolved_resource (self : GraphNode) (kwargs : dict pyval) : pyval :=
  match Dict.get kwargs "resource" with
  | Some r => r
  | None =>
      match _existing_resource self with
      | Some r => VResource r
      | None => VResource {| name := _node_name self |}
      end
  end.

(** The keyword arguments of the constructor call that do not come from
    the inputs. *)
Definition explicit_keywords : list string :=
  ["config"; "model_storage"; "resource"; "execution_context"].

(** The state after the constructor, called with [arguments], has returned
    [v] in state [st]. *)
Definition instantiated (st : State) (arguments : dict pyval) (v : pyval) : State :=
  {| node := set_component (node st)
               (Some {| obj_id := next_id (world st); obj_val := v |});
     world := {| trace := trace (world st)
                            ++ [CallConstructor (_node_name (node st))
                                  (_constructor_name (node st)) arguments];
                 next_id := S (next_id (world st)) |} |}.

(** A call of the node in state [st] on [inputs] gets as far as the run
    function: the inputs are projected to [kwargs], the before hooks return
    [hook_outputs], a lazy node has loaded its component, and the state is
    then [st2]. *)
Definition reaches_fn (class_attrs : ClassObj -> dict Callable)
    (st : State) (inputs : list (string * pyval))
    (kwargs : dict pyval) (hook_outputs : list pyval) (st2 : State) : Prop :=
  exists st1,
    project_inputs (_inputs (node st)) (Dict.of_pairs inputs) = Ok kwargs
    /\ _run_before_hooks kwargs st = (st1, Ok hook_outputs)
    /\ (if _eager (node st) then st2 = st1
        else _load_component class_attrs
               (minimal_kwargs kwargs (_constructor_fn (node st))) st1
             = (st2, Ok tt)).

(** The keyword arguments the run function gets out of [kwargs]. *)
Definition run_kwargs_of (self : GraphNode) (kwargs : dict pyval) : dict pyval :=
  if _eager self then kwargs
  else Dict.filter_keys
         (fun k => negb (Dict.contains
                           (minimal_kwargs kwargs (_constructor_fn self)) k))
         kwargs.

(** Two checks that compute: every [needs] value is a node name, and
    [rank] goes down along every [needs] edge. *)
Definition needs_exist_check (s : GraphSchema) : bool :=
  forallb (fun item =>
             forallb (fun d => str_in d (Dict.keys (nodes s)))
               (Dict.values (needs item.2)))
    (nodes s).

Definition ranked (rank : string -> nat) (s : GraphSchema) : bool :=
  forallb (fun item =>
             forallb (fun d => Nat.ltb (rank d) (rank item.1))
               (Dict.values (needs item.2)))
    (nodes s).

(** C3 as the specification words it for calls: once a node holds a component
    instance, a call leaves it the instance it holds and instantiates
    nothing. *)
Definition persists_once_created (class_attrs : ClassObj -> dict Callable)
  : Prop :=
  forall st inputs st' r,
    __call__ class_attrs inputs st = (st', r) ->
    is_Some (_component (node st)) ->
    _component (node st') = _component (node st)
    /\ instantiations (world st') = instantiations (world st).

(** ** Specification vocabulary for the further properties *)

(** The errors of the dataclass constructors and of the dictionary
    lookups: never an [ImportError], never a [GraphSchemaException]. *)
Definition is_plain_error (e : exn) : bool :=
  match e with
  | KeyError _ | TypeError _ | OutsideModel _ => true
  | _ => false
  end.

(** The state [st] after the calls [calls] have been made. *)
Definition add_events (st : State) (calls : list event) : State :=
  {| node := node st;
     world := {| trace := trace (world st) ++ calls;
                 next_id := next_id (world st) |} |}.

(** The keyword arguments of the constructor call that [_load_component]
    makes when it is given [kwargs]. *)
Definition constructor_arguments (self : GraphNode) (kwargs : dict pyval)
  : dict pyval :=
  [ ("config", VDict (_component_config self));
    ("model_storage", _model_storage self);
    ("resource", resolved_resource self kwargs);
    ("execution_context", _execution_context self) ]
  ++ (if Dict.contains kwargs "resource" then Dict.remove kwargs "resource"
      else kwargs).

(** The keywords of the constructor call that the inputs must not use. *)
Definition reserved_keywords : list string :=
  ["config"; "model_storage"; "execution_context"].

(** The calls of the before hooks and of the after hooks of a node. *)
Definition before_hook_call (self : GraphNode) (kwargs : dict pyval) : event :=
  CallBeforeHook (_node_name self) kwargs.

Definition after_hook_call (self : GraphNode) (output : pyval) (data : pyval)
  : event :=
  CallAfterHook (_node_name self) output data.

(** What the hooks of a node answer. *)
Definition before_hook_returns (self : GraphNode) (kwargs : dict pyval)
    (hook : GraphNodeHook) (r : result pyval) : Prop :=
  on_before_node hook (_node_name self) (_execution_context self)
    (_component_config self) kwargs = r.

Definition after_hook_returns (self : GraphNode) (output : pyval)
    (hook : GraphNodeHook) (data : pyval) (r : result unit) : Prop :=
  on_after_node hook (_node_name self) (_execution_context self)
    (_component_config self) output data = r.

(** The bodies of the loops of [_run_before_hooks] and
    [_run_after_hooks]. *)
Definition before_hook_body (self : GraphNode) (received_inputs : dict pyval)
    (hook : GraphNodeHook) (input_hook_outputs : list pyval)
  : M State (list pyval) :=
  hook_output ←
    try_except
      (log (CallBeforeHook (_node_name self) received_inputs);;
       lift (on_before_node hook (_node_name self)
               (_execution_context self) (_component_config self)
               received_inputs))
      is_Exception
      (fun e => raise (GraphComponentException
                         (before_hook_error (_node_name self)) e));
  mret (input_hook_outputs ++ [hook_output]).

Definition after_hook_body (self : GraphNode) (output : pyval)
  : GraphNodeHook * pyval -> unit -> M State unit :=
  fun '(hook, hook_data) _ =>
  try_except
    (log (CallAfterHook (_node_name self) output hook_data);;
     lift (on_after_node hook (_node_name self) (_execution_context self)
             (_component_config self) output hook_data))
    is_Exception
    (fun e => raise (GraphComponentException
                       (after_hook_error (_node_name self)) e)).

(** ** [rasa/nlu/components.py]: validating a pipeline *)

(** What the functions below use of a component.  The class [Component]
    comes from [rasa.nlu._components] and [Tokenizer] from
    [rasa.nlu.tokenizers.tokenizer]; neither is part of the sources at
    hand, so a component is any type with these operations:
    [component.name], [cls.name] of a component class,
    [isinstance(component, cls)], [component.required_components()], the
    class [Tokenizer], and [str()] of a list of names as an f-string
    formats it. *)
Class Components (Component : Type) := {
  component_name : Component -> string;
  class_name : ClassObj -> string;
  isinstance : Component -> ClassObj -> bool;
  required_components : Component -> list ClassObj;
  Tokenizer : ClassObj;
  str_of_names : list string -> string
}.

Definition InvalidConfigException (msg : string) : exn :=
  PyException "InvalidConfigException" msg.

(** [sep.join(strings)] *)
Definition join (sep : string) (strings : list string) : string :=
  String.concat sep strings.

(** [enumerate(l)] *)
Definition enumerate {A} (l : list A) : list (nat * A) := imap pair l.

Section Pipeline.
Context `{Components Component}.

(** [validate_empty_pipeline] *)
Definition validate_empty_pipeline (pipeline : list Component) : result unit :=
  if Nat.eqb (length pipeline) 0 then
    Raise (InvalidConfigException
             ("Can not train an empty pipeline. "
                +:+ "Make sure to specify a proper pipeline in "
                +:+ "the configuration using the 'pipeline' key."))
  else Ok tt.

(** [validate_only_one_tokenizer_is_used] *)
Definition validate_only_one_tokenizer_is_used (pipeline : list Component)
  : result unit :=
  let tokenizer_names :=
    foldl (fun tokenizer_names component =>
             if isinstance component Tokenizer
             then tokenizer_names ++ [component_name component]
             else tokenizer_names)
      [] pipeline in
  if Nat.ltb 1 (length tokenizer_names) then
    Raise (InvalidConfigException
             ("The pipeline configuration contains more than one tokenizer, "
                +:+ "which is not possible at this time. You can only use one tokenizer. "
                +:+ "The pipeline contains the following tokenizers: "
                +:+ str_of_names tokenizer_names +:+ ". "))
  else Ok tt.

(** [_required_component_in_pipeline] *)
Fixpoint _required_component_in_pipeline (required_component : ClassObj)
    (pipeline : list Component) : bool :=
  match pipeline with
  | [] => false
  | previous_component :: rest =>
      if isinstance previous_component required_component then true
      else _required_component_in_pipeline required_component rest
  end.

(** The list [validate_required_components] builds for the component at
    position [i]. *)
Definition missing_components (pipeline : list Component) (i : nat)
    (component : Component) : list string :=
  foldl (fun missing_components required_component =>
           if negb (_required_component_in_pipeline required_component
                      (take i pipeline))
           then missing_components ++ [class_name required_component]
           else missing_components)
    [] (required_components component).

(** [validate_required_components] *)
Definition validate_required_components (pipeline : list Component)
  : result unit :=
  for_each (enumerate pipeline) tt (fun '(i, component) _ =>
    let missing_components := missing_components pipeline i component in
    let missing_components_str :=
      join ", " ((fun c => "'" +:+ c +:+ "'") <$> missing_components) in
    match missing_components with
    | [] => Ok tt
    | _ =>
        Raise (InvalidConfigException
                 ("The pipeline configuration contains errors. The component '"
                    +:+ component_name component +:+ "' requires "
                    +:+ missing_components_str +:+ " to be "
                    +:+ "placed before it in the pipeline. Please "
                    +:+ "add the required components to the pipeline."))
    end).

(** [validate_pipeline] *)
Definition validate_pipeline (pipeline : list Component) : result unit :=
  validate_empty_pipeline pipeline;;
  validate_only_one_tokenizer_is_used pipeline;;
  validate_required_components pipeline.

(** [find_components_in_pipeline] *)
Definition find_components_in_pipeline (components : list string)
    (pipeline : list Component) : gset string :=
  let pipeline_component_names : gset string :=
    list_to_set (component_name <$> pipeline) in
  pipeline_component_names ∩ list_to_set components.

(** [any_components_in_pipeline] *)
Definition any_components_in_pipeline (components : list string)
    (pipeline : list Component) : bool :=
  Nat.ltb 0 (size (find_components_in_pipeline components pipeline)).

End Pipeline.

(** ** [ComponentBuilder] *)

(** What [ComponentBuilder] asks of [rasa.nlu.registry], of a component
    class and of [rasa.nlu.model.Metadata], none of which is part of the
    sources at hand: [registry.get_component_class(name)],
    [component_class.cache_key(component_meta, model_metadata)],
    [registry.create_component_by_config(component_config, cfg)] (which
    may hand out another object each time it is asked, so it is given the
    number of components created so far), [Metadata(cfg.as_dict())], and
    [str()] of a value as an f-string formats it.  A component, a model
    configuration and a model metadata are opaque values. *)
Class Registry := {
  get_component_class : pyval -> result ClassObj;
  cache_key : ClassObj -> dict pyval -> pyval -> result (option string);
  create_component_by_config : nat -> dict pyval -> pyval -> result pyval;
  Metadata : pyval -> result pyval;
  str_of_value : pyval -> string
}.

(** [MissingArgumentError(message)]; [str()] of it is the message. *)
Definition MissingArgumentError (message : string) : exn :=
  PyException "MissingArgumentError" message.

(** [except MissingArgumentError] *)
Definition is_MissingArgumentError (e : exn) : bool :=
  match e with
  | PyException cls _ => String.eqb cls "MissingArgumentError"
  | _ => false
  end.

(** [str(e)] of a caught [MissingArgumentError]. *)
Definition MissingArgumentError_str (e : exn) : string :=
  match e with
  | PyException _ message => message
  | _ => ""
  end.

Definition RasaException (msg : string) : exn := PyException "RasaException" msg.

Record ComponentBuilder := {
  use_cache : bool;
  component_cache : dict pyval
}.

(** A builder at work: the object, and how many components the registry
    has created. *)
Record Building := {
  builder : ComponentBuilder;
  created : nat
}.

(** [ComponentBuilder.__init__] *)
Definition ComponentBuilder_init (use_cache : bool) : ComponentBuilder :=
  {| use_cache := use_cache; component_cache := [] |}.

Section ComponentBuilder.
Context `{Registry}.

(** [ComponentBuilder.__get_cached_component]: the default of [get] is
    evaluated before the call, so [component_meta["name"]] is looked up
    whether or not there is a ["class"]. *)
Definition __get_cached_component (self : ComponentBuilder)
    (component_meta : dict pyval) (model_metadata : pyval)
  : result (pyval * option string) :=
  name ← Dict.getitem component_meta "name";
  let component_name := default name (Dict.get component_meta "class") in
  component_class ← get_component_class component_name;
  cache_key ← cache_key component_class component_meta model_metadata;
  match cache_key with
  | Some key =>
      if use_cache self && Dict.contains (component_cache self) key then
        component ← Dict.getitem (component_cache self) key;
        Ok (component, cache_key)
      else Ok (VNone, cache_key)
  | None => Ok (VNone, cache_key)
  end.

(** [ComponentBuilder.__add_to_cache] (the log line is left out). *)
Definition __add_to_cache (component : pyval) (cache_key : option string)
  : M Building unit := fun st =>
  match cache_key with
  | Some key =>
      if use_cache (builder st) then
        ({| builder :=
              {| use_cache := use_cache (builder st);
                 component_cache :=
                   Dict.set (component_cache (builder st)) key component |};
            created := created st |}, Ok tt)
      else (st, Ok tt)
  | None => (st, Ok tt)
  end.

(** The call [registry.create_component_by_config(component_config, cfg)]. *)
Definition registry_create (component_config : dict pyval) (cfg : pyval)
  : M Building pyval := fun st =>
  ({| builder := builder st; created := S (created st) |},
   create_component_by_config (created st) component_config cfg).

(** [ComponentBuilder.create_component] *)
Definition create_component (component_config : dict pyval) (cfg : pyval)
  : M Building pyval :=
  try_except
    (model_metadata ← lift (Metadata cfg);
     st ← get_state;
     cached ← lift (__get_cached_component (builder st) component_config
                      model_metadata);
     let '(component, cache_key) := cached in
     match component with
     | VNone =>
         component ← registry_create component_config cfg;
         __add_to_cache component cache_key;;
         mret component
     | _ => mret component
     end)
    is_MissingArgumentError
    (fun e =>
       name ← lift (Dict.getitem component_config "name");
       raise (RasaException
                ("Failed to create component '" +:+ str_of_value name
                   +:+ "'. Error: " +:+ MissingArgumentError_str e))).

End ComponentBuilder.

Section ComponentBuilder_vocabulary.
Context `{Registry}.

(** The cache key [create_component] works with for a component
    configuration: [component_class.cache_key(...)] of the class the
    registry finds for it. *)
Definition component_cache_key (component_config : dict pyval) (cfg : pyval)
  : result (option string) :=
  model_metadata ← Metadata cfg;
  name ← Dict.getitem component_config "name";
  component_class ←
    get_component_class (default name (Dict.get component_config "class"));
  cache_key component_class component_config model_metadata.

(** The state after the registry has created one more component. *)
Definition one_more_created (st : Building) : Building :=
  {| builder := builder st; created := S (created st) |}.

End ComponentBuilder_vocabulary.

(** ** [rasa/nlu/classifiers/keyword_intent_classifier.py] *)

(** A [KeywordIntentClassifier]: [case_sensitive] is whatever the
    configuration holds under that key, and [intent_keyword_map] maps a
    keyword to its intent. *)
Record KeywordIntentClassifier := {
  case_sensitive : pyval;
  intent_keyword_map : dict string
}.

(** A classifier in training: the object, and the messages handed to
    [rasa.shared.utils.io.raise_warning] so far (debug log lines are left
    out). *)
Record Training := {
  classifier : KeywordIntentClassifier;
  warnings : list string
}.

Definition newline : string := String (Ascii.ascii_of_nat 10) "".

Definition duplicate_warning (text known intent : string) : string :=
  "Keyword '" +:+ text +:+ "' is a keyword to trigger intent '" +:+ known
    +:+ "' and also intent '" +:+ intent +:+ "', it will be removed "
    +:+ "from the list of keywords for both of them. "
    +:+ "Remove (one of) the duplicates from the training data.".

Definition ambiguous_warning (keyword1 intent1 keyword2 intent2 : string)
  : string :=
  "Keyword '" +:+ keyword1 +:+ "' is a keyword of intent '" +:+ intent1 +:+ "', "
    +:+ "but also a substring of '" +:+ keyword2 +:+ "', which is a "
    +:+ "keyword of intent '" +:+ intent2 +:+ "."
    +:+ " '" +:+ keyword1 +:+ "' will be removed from the list of keywords."
    +:+ newline
    +:+ "Remove (one of) the conflicting keywords from the"
    +:+ " training data.".

(** [r"\b" + keyword + r"\b"] *)
Definition word_pattern (keyword : string) : string :=
  "\b" +:+ keyword +:+ "\b".

(** [rasa.shared.utils.io.raise_warning(message, docs=...)] *)
Definition raise_warning (message : string) : M Training unit := fun st =>
  ({| classifier := classifier st; warnings := warnings st ++ [message] |},
   Ok tt).

(** [self.intent_keyword_map[keyword] = intent] *)
Definition set_keyword (keyword intent : string) : M Training unit := fun st =>
  ({| classifier :=
        {| case_sensitive := case_sensitive (classifier st);
           intent_keyword_map :=
             Dict.set (intent_keyword_map (classifier st)) keyword intent |};
      warnings := warnings st |}, Ok tt).

(** [self.intent_keyword_map.pop(keyword)] *)
Definition pop_keyword (keyword : string) : M Training unit := fun st =>
  if Dict.contains (intent_keyword_map (classifier st)) keyword then
    ({| classifier :=
          {| case_sensitive := case_sensitive (classifier st);
             intent_keyword_map :=
               Dict.remove (intent_keyword_map (classifier st)) keyword |};
        warnings := warnings st |}, Ok tt)
  else (st, Raise (KeyError keyword)).

Section KeywordIntentClassifier.

(** [re.search(pattern, string, flags=re_flag)] found a match; the flag
    says whether [re_flag] is [re.IGNORECASE].  It raises for a pattern
    that is no regular expression. *)
Variable re_search : string -> string -> bool -> result bool.

(** [re_flag = 0 if self.case_sensitive else re.IGNORECASE] *)
Definition re_flag (self : KeywordIntentClassifier) : bool :=
  negb (truthy (case_sensitive self)).

(** The two loops of [_validate_keyword_map] over the items of the map. *)
Definition ambiguous_mappings (self : KeywordIntentClassifier)
  : M Training (list (string * string)) :=
  let items := intent_keyword_map self in
  for_eachM items [] (fun '(keyword1, intent1) ambiguous_mappings =>
    for_eachM items ambiguous_mappings
      (fun '(keyword2, intent2) ambiguous_mappings =>
         found ← lift (re_search (word_pattern keyword1) keyword2 (re_flag self));
         if found && negb (String.eqb intent1 intent2) then
           raise_warning (ambiguous_warning keyword1 intent1 keyword2 intent2);;
           mret (ambiguous_mappings ++ [(intent1, keyword1)])
         else mret ambiguous_mappings)).

(** [KeywordIntentClassifier._validate_keyword_map] *)
Definition _validate_keyword_map : M Training unit :=
  st ← get_state;
  ambiguous_mappings ← ambiguous_mappings (classifier st);
  for_eachM ambiguous_mappings tt (fun '(intent, keyword) _ =>
    pop_keyword keyword).

(** [KeywordIntentClassifier.train], given the text and the intent of
    each of [training_data.intent_examples].  The set of duplicates is
    walked in the order [elements] lists it. *)
Definition train (intent_examples : list (string * string)) : M Training unit :=
  duplicate_examples ←
    for_eachM intent_examples (∅ : gset string)
      (fun '(text, intent) duplicate_examples =>
         st ← get_state;
         match Dict.get (intent_keyword_map (classifier st)) text with
         | Some known =>
             if negb (String.eqb intent known) then
               raise_warning (duplicate_warning text known intent);;
               mret ({[text]} ∪ duplicate_examples)
             else set_keyword text intent;; mret duplicate_examples
         | None => set_keyword text intent;; mret duplicate_examples
         end);
  for_eachM (elements duplicate_examples) tt (fun keyword _ =>
    pop_keyword keyword);;
  _validate_keyword_map.

(** [KeywordIntentClassifier._map_keyword_to_intent]: the loop over the
    items of the map. *)
Fixpoint first_keyword (items : dict string) (text : string) (flag : bool)
  : result (option string) :=
  match items with
  | [] => Ok None
  | (keyword, intent) :: rest =>
      found ← (re_search (word_pattern keyword) text flag : result bool);
      if found : bool then Ok (Some intent) else first_keyword rest text flag
  end.

Definition _map_keyword_to_intent (self : KeywordIntentClassifier)
    (text : string) : result (option string) :=
  first_keyword (intent_keyword_map self) text (re_flag self).

End KeywordIntentClassifier.

(** A keyword is ambiguous in a map when it is found inside a keyword of
    another intent. *)
Definition ambiguous (found : string -> string -> bool) (items : dict string)
    (keyword1 intent1 : string) : Prop :=
  exists keyword2 intent2,
    (keyword2, intent2) ∈ items /\ found keyword1 keyword2 = true
    /\ intent1 <> intent2.

(** What the two loops of [_validate_keyword_map] collect when the
    searches answer [found]. *)
Definition ambiguous_pairs (found : string -> string -> bool)
    (items : dict string) : list (string * string) :=
  flat_map (fun '(keyword1, intent1) =>
    flat_map (fun '(keyword2, intent2) =>
      if found keyword1 keyword2 && negb (String.eqb intent1 intent2)
      then [(intent1, keyword1)] else []) items) items.

(** The state with more warnings. *)
Definition add_warnings (st : Training) (messages : list string) : Training :=
  {| classifier := classifier st; warnings := warnings st ++ messages |}.

(** The keywords of a state. *)
Definition keywords (st : Training) : dict string :=
  intent_keyword_map (classifier st).

(** Nothing has been added to the keywords, and none has changed its
    intent. *)
Definition keywords_shrink (st st' : Training) : Prop :=
  forall k i, Dict.get (keywords st') k = Some i ->
              Dict.get (keywords st) k = Some i.

(** ** A small graph to run the definitions on *)

Module Example.

Definition Trainer : ClassObj :=
  {| cls_id := 1; __module__ := "tests.engine.components";
     __name__ := "Trainer" |}.

Definition Predictor : ClassObj :=
  {| cls_id := 2; __module__ := "tests.engine.components";
     __name__ := "Predictor" |}.

(** What can be imported. *)
Definition class_from_module_path (path : string) : option ClassObj :=
  if String.eqb path "tests.engine.components.Trainer" then Some Trainer
  else if String.eqb path "tests.engine.components.Predictor"
  then Some Predictor
  else None.

Definition py_str (v : pyval) : string := "<object>".

(** [create(cls, config, model_storage, resource, execution_context)] *)
Definition create : Callable :=
  {| params := ["config"; "model_storage"; "resource"; "execution_context"];
     call := fun _ kwargs =>
       match Dict.get kwargs "resource" with
       | Some r => Ok (VObj "component" [r])
       | None => Raise (TypeError "create() missing argument 'resource'")
       end |}.

(** [load(cls, config, model_storage, resource, execution_context,
    vocabulary)] *)
Definition load : Callable :=
  {| params := ["config"; "model_storage"; "resource"; "execution_context";
                "vocabulary"];
     call := fun _ kwargs =>
       match Dict.get kwargs "resource", Dict.get kwargs "vocabulary" with
       | Some r, Some v => Ok (VObj "component" [r; v])
       | _, _ => Raise (TypeError "load() missing arguments")
       end |}.

(** [run(self, x)] returns [x]. *)
Definition run : Callable :=
  {| params := ["self"; "x"];
     call := fun _ kwargs =>
       match Dict.get kwargs "x" with
       | Some x => Ok x
       | None => Raise (TypeError "run() missing argument 'x'")
       end |}.

(** [boom(self)] raises [ValueError("boom")]. *)
Definition boom : Callable :=
  {| params := ["self"];
     call := fun _ _ => Raise (PyException "ValueError" "boom") |}.

Definition class_attrs (c : ClassObj) : dict Callable :=
  [("create", create); ("load", load); ("run", run); ("boom", boom)].

Definition get_default_config (c : ClassObj) : dict pyval :=
  [("epochs", VInt 1); ("lr", VInt 3)].

Definition schema_node (needs : dict string) (uses : ClassObj)
    (is_target : bool) (resource : option Resource) : SchemaNode :=
  {| needs := needs; uses := uses; constructor_name := "create"; fn := "run";
     config := [("epochs", VInt 5); ("tags", VList [VStr "a"; VNone])];
     eager := false; is_target := is_target; is_input := false;
     resource := resource |}.

(** Target [T] needs [A] and [B], both need [C]; nothing needs [D]. *)
Definition diamond : GraphSchema :=
  {| nodes :=
       [ ("T", schema_node [("a", "A"); ("b", "B")] Predictor true
                 (Some {| name := "trained" |}));
         ("A", schema_node [("c", "C")] Trainer false None);
         ("B", schema_node [("c", "C")] Trainer false None);
         ("C", schema_node [] Trainer false None);
         ("D", schema_node [("c", "C")] Trainer false None) ] |}.

Definition pruned : GraphSchema :=
  {| nodes := take 4 (nodes diamond) |}.

(** [T] needs itself: the walk never ends. *)
Definition cyclic : GraphSchema :=
  {| nodes := [("T", schema_node [("t", "T")] Trainer true None)] |}.

(** A schema of one node whose config holds a [Resource]. *)
Definition resource_in_config : GraphSchema :=
  {| nodes :=
       [ ("T", {| needs := []; uses := Trainer; constructor_name := "create";
                  fn := "run";
                  config := [("store", VResource {| name := "shared" |})];
                  eager := false; is_target := true; is_input := false;
                  resource := None |}) ] |}.

Definition rank (n : string) : nat :=
  if String.eqb n "T" then 2
  else if String.eqb n "C" then 0
  else 1.

(** A serialized schema whose second node cannot be imported. *)
Definition unimportable : dict pyval :=
  [ ("T", VDict (serialized (schema_node [] Predictor true None)));
    ("F", VDict [("needs", VDict []); ("uses", VStr "not.a.real.module.Foo");
                 ("constructor_name", VStr "create"); ("fn", VStr "run");
                 ("config", VDict []); ("resource", VNone)]) ].

(** A serialized schema whose second node has no ["resource"] key. *)
Definition without_resource : dict pyval :=
  [ ("T", VDict (serialized (schema_node [] Predictor true None)));
    ("A", VDict [("needs", VDict []);
                 ("uses", VStr "tests.engine.components.Trainer");
                 ("constructor_name", VStr "create"); ("fn", VStr "run");
                 ("config", VDict [])]) ].

Definition storage : pyval := VObj "model_storage" [].
Definition context : pyval := VObj "execution_context" [].
Definition world0 : World := {| trace := []; next_id := 0 |}.

Definition observer : GraphNodeHook :=
  {| on_before_node := fun _ _ _ received_inputs => Ok (VDict received_inputs);
     on_after_node := fun _ _ _ _ _ => Ok tt |}.

(** The state [__init__] leaves behind, when it returns. *)
Definition built (r : World * result GraphNode) : option State :=
  match r with
  | (w, Ok self) => Some {| node := self; world := w |}
  | _ => None
  end.

Definition make (constructor_name fn_name : string) (inputs : dict string)
    (eager : bool) (resource : option Resource) : option State :=
  built (__init__ class_attrs get_default_config "n" Trainer constructor_name
           [("epochs", VInt 5)] fn_name inputs eager storage resource context
           (Some [observer]) world0).

Definition the (st : option State) : State :=
  default {| node := {| _node_name := ""; _component_class := Trainer;
                        _constructor_name := ""; _constructor_fn := create;
                        _component_config := []; _fn_name := ""; _fn := run;
                        _inputs := []; _eager := true;
                        _model_storage := VNone; _existing_resource := None;
                        _execution_context := VNone; _hooks := [];
                        _component := None |};
             world := world0 |} st.

(** An eager node that runs [run] on the output of [parent]. *)
Definition eager_node : State := the (make "create" "run" [("x", "parent")] true None).

(** A lazy node whose constructor takes [resource] and [vocabulary] from
    its parents. *)
Definition lazy_node : State :=
  the (make "load" "run"
         [("x", "parent"); ("vocabulary", "vocab"); ("resource", "trainer")]
         false (Some {| name := "static" |})).

Definition lazy_inputs : list (string * pyval) :=
  [ ("parent", VInt 5); ("vocab", VList [VStr "hi"]);
    ("trainer", VResource {| name := "runtime" |}) ].

(** A lazy node that gives the output of its parent the name [config],
    which the constructor takes. *)
Definition config_taking_node : State :=
  the (make "create" "run" [("config", "parent")] false None).

(** A lazy node whose run function raises. *)
Definition failing_node : State := the (make "create" "boom" [] false None).

Definition runtime : pyval := VResource {| name := "runtime" |}.

(** The keyword arguments [_load_component] gives the constructor. *)
Definition load_arguments (resource : pyval) (rest : dict pyval) : dict pyval :=
  [ ("config", VDict [("epochs", VInt 5); ("lr", VInt 3)]);
    ("model_storage", storage); ("resource", resource);
    ("execution_context", context) ] ++ rest.

(** The lazy node of the example, its inputs projected and its component
    loaded. *)
Definition lazy_kwargs : dict pyval :=
  [("x", VInt 5); ("vocabulary", VList [VStr "hi"]); ("resource", runtime)].
Definition lazy_before : State := (_run_before_hooks lazy_kwargs lazy_node).1.
Definition lazy_loaded : State :=
  (_load_component class_attrs
     (minimal_kwargs lazy_kwargs (_constructor_fn (node lazy_node)))
     lazy_before).1.

(** The eager node after its before hooks. *)
Definition eager_before : State :=
  (_run_before_hooks [("x", VInt 5)] eager_node).1.

(** The failing node after its before hooks, and with its component
    loaded. *)
Definition failing_before : State := (_run_before_hooks [] failing_node).1.
Definition failing_loaded : State :=
  (_load_component class_attrs
     (minimal_kwargs [] (_constructor_fn (node failing_node)))
     failing_before).1.

End Example.

(** ** More examples: schemas, nodes with hooks, a pipeline, a registry
    and a keyword classifier *)

Module MoreExamples.
Import Example.

(** The diamond with a dead node [D] that needs [Z], which is no node. *)
Definition dead_dangling : GraphSchema :=
  {| nodes := take 4 (nodes diamond)
              ++ [("D", schema_node [("z", "Z")] Trainer false None)] |}.

(** A target that needs [A], which is no node. *)
Definition dangling : GraphSchema :=
  {| nodes := [("T", schema_node [("a", "A")] Predictor true None)] |}.

(** A hook whose [on_before_node] raises, and one whose
    [on_after_node] raises. *)
Definition grumpy : GraphNodeHook :=
  {| on_before_node := fun _ _ _ _ => Raise (PyException "RuntimeError" "before");
     on_after_node := fun _ _ _ _ _ => Ok tt |}.

Definition sulky : GraphNodeHook :=
  {| on_before_node := fun _ _ _ _ => Ok VNone;
     on_after_node := fun _ _ _ _ _ => Raise (PyException "RuntimeError" "after") |}.

Definition make_with (hooks : list GraphNodeHook) (constructor_name : string)
    (eager : bool) : option State :=
  built (__init__ class_attrs get_default_config "n" Trainer constructor_name
           [("epochs", VInt 5)] "run" [("x", "parent")] eager storage None
           context (Some hooks) world0).

(** An eager node whose second hook fails before the run, one whose
    second hook fails after it, and a lazy node whose constructor
    raises. *)
Definition grumpy_node : State :=
  the (make_with [observer; grumpy; observer] "create" true).
Definition sulky_node : State :=
  the (make_with [observer; sulky; observer] "create" true).
Definition exploding_node : State := the (make_with [observer] "boom" false).

Definition sulky_before : State :=
  (_run_before_hooks [("x", VInt 5)] sulky_node).1.

(** *** A pipeline *)

Definition AnyTokenizer : ClassObj :=
  {| cls_id := 10; __module__ := "rasa.nlu.tokenizers.tokenizer";
     __name__ := "Tokenizer" |}.
Definition WhitespaceTokenizer : ClassObj :=
  {| cls_id := 11; __module__ := "rasa.nlu.tokenizers.whitespace_tokenizer";
     __name__ := "WhitespaceTokenizer" |}.
Definition Featurizer : ClassObj :=
  {| cls_id := 12; __module__ := "rasa.nlu.featurizers.featurizer";
     __name__ := "Featurizer" |}.
Definition CountVectorsFeaturizer : ClassObj :=
  {| cls_id := 13; __module__ := "rasa.nlu.featurizers.sparse_featurizer";
     __name__ := "CountVectorsFeaturizer" |}.
Definition DIETClassifier : ClassObj :=
  {| cls_id := 14; __module__ := "rasa.nlu.classifiers.diet_classifier";
     __name__ := "DIETClassifier" |}.

(** A component: its class, the other classes it is an instance of, and
    what it requires. *)
Record component := {
  component_type : ClassObj;
  component_bases : list ClassObj;
  component_requires : list ClassObj
}.

Definition same_class (c d : ClassObj) : bool := Nat.eqb (cls_id c) (cls_id d).

#[export] Instance components : Components component :=
  {| component_name c := __name__ (component_type c);
     class_name := __name__;
     isinstance c cls :=
       existsb (same_class cls) (component_type c :: component_bases c);
     required_components := component_requires;
     Tokenizer := AnyTokenizer;
     str_of_names names :=
       "[" +:+ join ", " ((fun n => "'" +:+ n +:+ "'") <$> names) +:+ "]" |}.

Definition tokenizer : component :=
  {| component_type := WhitespaceTokenizer; component_bases := [AnyTokenizer];
     component_requires := [] |}.
Definition featurizer : component :=
  {| component_type := CountVectorsFeaturizer; component_bases := [Featurizer];
     component_requires := [AnyTokenizer] |}.
Definition diet : component :=
  {| component_type := DIETClassifier; component_bases := [];
     component_requires := [Featurizer; AnyTokenizer] |}.

(** *** A registry *)

Definition SpacyNLP : ClassObj :=
  {| cls_id := 20; __module__ := "rasa.nlu.utils.spacy_utils";
     __name__ := "SpacyNLP" |}.
Definition Broken : ClassObj :=
  {| cls_id := 21; __module__ := "tests.nlu"; __name__ := "Broken" |}.

(** [SpacyNLP] has a cache key, [Broken] has none and cannot be
    created; every component the registry creates is a new object. *)
#[export] Instance registry : Registry :=
  {| get_component_class name :=
       match name with
       | VStr "SpacyNLP" => Ok SpacyNLP
       | VStr "Broken" => Ok Broken
       | _ => Raise (PyException "ComponentNotFoundException" "unknown")
       end;
     cache_key cls component_meta model_metadata :=
       Ok (if same_class cls SpacyNLP then Some "SpacyNLP-en" else None);
     create_component_by_config n component_config cfg :=
       match Dict.get component_config "name" with
       | Some (VStr "Broken") =>
           Raise (MissingArgumentError "Cannot find 'model'.")
       | _ => Ok (VObj "component" [VInt (Z.of_nat n)])
       end;
     Metadata cfg := Ok (VObj "Metadata" [cfg]);
     str_of_value v := match v with VStr s => s | _ => "<object>" end |}.

Definition caching : Building :=
  {| builder := ComponentBuilder_init true; created := 0 |}.
Definition not_caching : Building :=
  {| builder := ComponentBuilder_init false; created := 0 |}.

Definition spacy_config : dict pyval := [("name", VStr "SpacyNLP")].
Definition spacy_config_en : dict pyval :=
  [("name", VStr "SpacyNLP"); ("model", VStr "en")].

(** *** A keyword classifier *)

(** A search that looks for the keyword as it stands, anywhere in the
    text and whatever the flag: enough to run the classifier on. *)
Definition found (keyword text : string) : bool :=
  match String.index 0 keyword text with
  | Some _ => true
  | None => false
  end.

Definition re_search (pattern text : string) (ignore_case : bool)
  : result bool :=
  Ok (found (String.substring 2 (String.length pattern - 4) pattern) text).

Definition untrained : Training :=
  {| classifier := {| case_sensitive := VBool true; intent_keyword_map := [] |};
     warnings := [] |}.

Definition with_keywords (items : dict string) : Training :=
  {| classifier := {| case_sensitive := VBool true;
                      intent_keyword_map := items |};
     warnings := [] |}.

(** [hello] is found in [hello there], which has another intent. *)
Definition greetings : dict string :=
  [("hello", "greet"); ("hello there", "chitchat"); ("bye", "goodbye")].

(** [a] is found in two keywords of other intents. *)
Definition twice_ambiguous : dict string :=
  [("a", "x"); ("a b", "y"); ("a c", "z")].

(** [hi] has two intents in the data. *)
Definition intent_examples : list (string * string) :=
  [("hi", "greet"); ("bye", "goodbye"); ("hi", "chitchat")].

End MoreExamples.

(** * Theorems *)

(** ** Dictionaries and loops *)

Lemma str_in_spec k l : str_in k l = true <-> k ∈ l.
Proof.
  unfold str_in. rewrite existsb_exists. split.
  - intros (x & Hx & ->%String.eqb_eq). by apply list_elem_of_In.
  - intros Hk. exists k. split; [by apply list_elem_of_In | apply String.eqb_refl].
Qed.

Example dict_set_get :
  Dict.get (Dict.set [("a", 1); ("b", 2)] "a" 3) "a" = Some 3.
Proof. reflexivity. Qed.

Section dict_facts.
Context {V : Type}.
Implicit Types (d : dict V) (k : string).

Lemma get_Some_elem d k v : Dict.get d k = Some v -> (k, v) ∈ d.
Proof.
  induction d as [|[k' v'] d IH]; simpl; [done|].
  destruct (String.eqb_spec k' k); intros Hg.
  - simplify_eq. left.
  - right. auto.
Qed.

Lemma get_is_Some d k : is_Some (Dict.get d k) <-> k ∈ Dict.keys d.
Proof.
  unfold Dict.keys. induction d as [|[k' v'] d IH]; simpl.
  - split; [intros [? ?]; done | intros Hin; inversion Hin].
  - destruct (String.eqb_spec k' k); subst.
    + split; [left | eauto].
    + rewrite IH. split; [right; done|].
      intros H'. inversion H'; simplify_eq. done.
Qed.

Lemma get_None d k : Dict.get d k = None <-> k ∉ Dict.keys d.
Proof. rewrite <- get_is_Some, eq_None_not_Some. done. Qed.

Lemma get_filter_keys (p : string -> bool) d k :
  Dict.get (Dict.filter_keys p d) k = if p k then Dict.get d k else None.
Proof.
  unfold Dict.filter_keys. induction d as [|[k' v'] d IH]; simpl.
  - by destruct (p k).
  - rewrite filter_cons. simpl. destruct (decide (p k' = true)) as [Hp | Hp].
    + simpl. destruct (String.eqb_spec k' k); subst; [by rewrite Hp | done].
    + destruct (String.eqb_spec k' k); subst; [|done].
      rewrite IH. apply not_true_is_false in Hp. by rewrite Hp.
Qed.

Lemma keys_filter_keys (p : string -> bool) d k :
  k ∈ Dict.keys (Dict.filter_keys p d) <-> k ∈ Dict.keys d /\ p k = true.
Proof.
  rewrite <- !get_is_Some, get_filter_keys.
  destruct (p k); split; try tauto.
  - intros [? ?]; done.
  - intros [_ ?]; done.
Qed.

Lemma NoDup_keys_filter_keys (p : string -> bool) d :
  NoDup (Dict.keys d) -> NoDup (Dict.keys (Dict.filter_keys p d)).
Proof.
  unfold Dict.keys, Dict.filter_keys. intros H.
  apply (sublist_NoDup _ (d.*1)); [exact H | apply fmap_sublist, sublist_filter].
Qed.

Lemma filter_keys_twice (p q : string -> bool) d :
  (forall k, k ∈ Dict.keys d -> p k = true -> q k = true) ->
  Dict.filter_keys q (Dict.filter_keys p d) = Dict.filter_keys p d.
Proof.
  unfold Dict.keys, Dict.filter_keys. induction d as [|[k v] d IH]; intros H; [done|].
  rewrite !filter_cons. simpl. destruct (decide (p k = true)) as [Hp|Hp].
  - rewrite filter_cons. simpl. rewrite decide_True by (apply H; [left | done]).
    f_equal. apply IH. intros k' Hk'. apply H. by right.
  - apply IH. intros k' Hk'. apply H. by right.
Qed.
End dict_facts.

Section loop_facts.
Context {A B : Type}.
Implicit Types (xs : list A) (body : A -> B -> result B).

Lemma for_each_ext xs acc body1 body2 :
  (forall x a, x ∈ xs -> body1 x a = body2 x a) ->
  for_each xs acc body1 = for_each xs acc body2.
Proof.
  revert acc. induction xs as [|x xs IH]; intros acc H; simpl; [done|].
  rewrite H by left. destruct (body2 x acc); simpl; [|done].
  apply IH. intros. apply H. by right.
Qed.

Lemma for_each_total xs acc body :
  (forall x a, x ∈ xs -> exists a', body x a = Ok a') ->
  exists r, for_each xs acc body = Ok r.
Proof.
  revert acc. induction xs as [|x xs IH]; intros acc H; simpl; [eauto|].
  destruct (H x acc) as [a' Ha']; [left|]. rewrite Ha'. simpl.
  apply IH. intros. apply H. by right.
Qed.

End loop_facts.

(** ** [minimal_graph_schema] *)

Section dependencies.
Variable s : GraphSchema.

Let dep := depends_on s.

Lemma depends_on_get n node d :
  Dict.get (nodes s) n = Some node ->
  depends_on s n d <-> d ∈ Dict.values (needs node).
Proof.
  intros Hn. split; [|by exists node].
  intros (node' & Hn' & Hd). by simplify_eq.
Qed.

(** The result of the inner loop: what was there, and everything below
    the dependencies. *)
Lemma all_dependencies_elem limit : forall targets required x,
  _all_dependencies_schema limit s targets = Ok required ->
  x ∈ required <-> exists t, t ∈ targets /\ rtc (depends_on s) t x.
Proof.
  induction limit as [|limit IH]; intros targets required x; simpl; [done|].
  set (inner := fun (dependency : string) (required : list string) =>
                  deps ← _all_dependencies_schema limit s [dependency];
                  Ok (required ++ deps)).
  set (outer := fun (target : string) (required : list string) =>
                  node ← Dict.getitem (nodes s) target;
                  for_each (Dict.values (needs node)) (required ++ [target]) inner).
  assert (forall ds acc r, for_each ds acc inner = Ok r ->
            forall y, y ∈ r <-> y ∈ acc \/ exists d, d ∈ ds /\ rtc (depends_on s) d y)
    as Hinner.
  { induction ds as [|d ds IHds]; intros acc r; simpl.
    - intros [= <-] y. split; [intros ?; by left|]. intros [?|(d & Hd & _)]; [done|].
      inversion Hd.
    - unfold inner.
      destruct (_all_dependencies_schema limit s [d]) as [deps|] eqn:Hdeps;
        simpl; [|done].
      intros Hr y. rewrite (IHds _ _ Hr), elem_of_app, (IH _ _ y Hdeps).
      split.
      + intros [[?|(t & Ht & Hy)]|(d' & Hd' & Hy)]; [by left| |].
        * apply list_elem_of_singleton in Ht as ->.
          right. exists d. split; [left | done].
        * right. exists d'. split; [by right | done].
      + intros [?|(d' & Hd' & Hy)]; [by left; left|].
        apply elem_of_cons in Hd' as [->|Hd'].
        * left; right. exists d. split; [by apply list_elem_of_singleton | done].
        * right. eauto. }
  assert (forall ts acc r, for_each ts acc outer = Ok r ->
            forall y, y ∈ r <-> y ∈ acc \/ exists t, t ∈ ts /\ rtc (depends_on s) t y)
    as Houter.
  { induction ts as [|t ts IHts]; intros acc r; simpl.
    - intros [= <-] y. split; [intros ?; by left|]. intros [?|(d & Hd & _)]; [done|].
      inversion Hd.
    - unfold outer, Dict.getitem.
      destruct (Dict.get (nodes s) t) as [node|] eqn:Hnode; simpl; [|done].
      destruct (for_each (Dict.values (needs node)) (acc ++ [t]) inner)
        as [acc'|] eqn:Hacc'; simpl; [|done].
      intros Hr y.
      rewrite (IHts _ _ Hr), (Hinner _ _ _ Hacc' y), elem_of_app,
        list_elem_of_singleton.
      split.
      + intros [[[?| ->]|(d & Hd & Hy)]|(t' & Ht' & Hy)].
        * by left.
        * right. exists t. split; [left | done].
        * right. exists t. split; [left|].
          eapply rtc_l; [|done]. by exists node.
        * right. exists t'. split; [by right | done].
      + intros [?|(t' & Ht' & Hy)]; [by left; left; left|].
        apply elem_of_cons in Ht' as [->|Ht']; [|right; eauto].
        left. apply rtc_inv in Hy as [->|(d & Htd & Hy)]; [by left; right|].
        right. exists d. split; [|done].
        by apply (depends_on_get _ _ _ Hnode). }
  intros Hr. rewrite (Houter _ _ _ Hr).
  split; [intros [Hx|?]; [inversion Hx | done] | auto].
Qed.

(** Looking up in the pruned schema. *)
Lemma all_dependencies_pruned (kept : list string) limit :
  (forall n d, n ∈ kept -> depends_on s n d -> d ∈ kept) ->
  forall targets,
    (forall t, t ∈ targets -> t ∈ kept) ->
    _all_dependencies_schema limit
      {| nodes := Dict.filter_keys (fun n => str_in n kept) (nodes s) |}
      targets
    = _all_dependencies_schema limit s targets.
Proof.
  intros Hclosed. induction limit as [|limit IH]; intros targets Hts; simpl; [done|].
  apply for_each_ext. intros t acc Ht.
  unfold Dict.getitem. rewrite get_filter_keys.
  rewrite (proj2 (str_in_spec _ _)) by auto.
  destruct (Dict.get (nodes s) t) as [node|] eqn:Hnode; simpl; [|done].
  apply for_each_ext. intros d acc' Hd.
  rewrite IH; [done|].
  intros d' ->%list_elem_of_singleton.
  apply (Hclosed t); [auto|]. by exists node.
Qed.

Hypothesis needs_ok : needs_exist s.

Lemma depends_on_exists n d : depends_on s n d -> is_Some (Dict.get (nodes s) d).
Proof.
  intros (node & Hn & Hd). apply get_is_Some.
  eapply needs_ok; [|done]. by apply get_Some_elem.
Qed.

(** Enough depth: a chain of dependencies without a repeated node is no
    longer than the schema has nodes. *)
Lemma all_dependencies_total limit : forall (above : gset string) targets,
  (forall t, t ∈ targets ->
     is_Some (Dict.get (nodes s) t)
     /\ (forall x, rtc (depends_on s) t x -> ~ tc (depends_on s) x x)
     /\ (forall v, v ∈ above -> tc (depends_on s) v t)) ->
  above ⊆ list_to_set (Dict.keys (nodes s)) ->
  size (list_to_set (Dict.keys (nodes s)) : gset string) < size above + limit ->
  exists required, _all_dependencies_schema limit s targets = Ok required.
Proof.
  induction limit as [|limit IH]; intros above targets Hts Hsub Hsize.
  - destruct targets as [|t ?].
    + apply subseteq_size in Hsub. lia.
    + exfalso. destruct (Hts t) as (Ht & Hgood & Habove); [left|].
      assert (t ∉ above) as Hnot.
      { intros Hin. by apply (Hgood t), Habove. }
      assert (size ({[t]} ∪ above)
              <= size (list_to_set (Dict.keys (nodes s)) : gset string)) as Hle.
      { apply subseteq_size. apply union_subseteq. split; [|done].
        apply singleton_subseteq_l, elem_of_list_to_set, get_is_Some, Ht. }
      rewrite size_union, size_singleton in Hle
        by (by apply disjoint_singleton_l).
      lia.
  - simpl. apply for_each_total. intros t acc Hin.
    destruct (Hts t Hin) as ([node Hnode] & Hgood & Habove).
    unfold Dict.getitem. rewrite Hnode. simpl.
    assert (t ∉ above) as Hnot.
    { intros Hv. by apply (Hgood t), Habove. }
    apply for_each_total. intros d acc' Hd.
    assert (depends_on s t d) as Htd by (by exists node).
    destruct (IH ({[t]} ∪ above) [d]) as [deps Hdeps].
    + intros d' ->%list_elem_of_singleton. split_and!.
      * by eapply depends_on_exists.
      * intros x Hx. apply Hgood. by eapply rtc_l.
      * intros v [->%elem_of_singleton|Hv]%elem_of_union; [by apply tc_once|].
        eapply tc_r; [|done]. by apply Habove.
    + apply union_subseteq. split; [|done].
      apply singleton_subseteq_l, elem_of_list_to_set, get_is_Some. eauto.
    + rewrite size_union, size_singleton by (by apply disjoint_singleton_l).
      lia.
    + rewrite Hdeps. simpl. eauto.
Qed.
End dependencies.

Lemma filter_filter_implied {A} (P Q : A -> Prop)
    `{!forall x, Decision (P x)} `{!forall x, Decision (Q x)} (l : list A) :
  (forall x, x ∈ l -> P x -> Q x) -> filter P (filter Q l) = filter P l.
Proof.
  induction l as [|x l IH]; intros Himp; [done|].
  rewrite !filter_cons. destruct (decide (Q x)) as [HQ|HQ].
  - rewrite filter_cons. destruct (decide (P x)).
    + f_equal. apply IH. intros. apply Himp; [by right | done].
    + apply IH. intros. apply Himp; [by right | done].
  - rewrite decide_False.
    + apply IH. intros. apply Himp; [by right | done].
    + intros HP. apply HQ, Himp; [left | done].
Qed.

Lemma target_names_elem s t :
  t ∈ target_names s <-> exists node, (t, node) ∈ nodes s /\ is_target node = true.
Proof.
  unfold target_names. rewrite list_elem_of_fmap. split.
  - intros ([t' node] & -> & [Ht Hin]%list_elem_of_filter). eauto.
  - intros (node & Hin & Ht). exists (t, node). split; [done|].
    by apply list_elem_of_filter.
Qed.

Lemma target_names_key s t : t ∈ target_names s -> is_Some (Dict.get (nodes s) t).
Proof.
  intros (node & Hin & _)%target_names_elem. apply get_is_Some.
  unfold Dict.keys. apply list_elem_of_fmap. by exists (t, node).
Qed.

(** The targets are the names [target_names] lists. *)
Lemma is_target_node_target_names s t :
  is_target_node s t <-> t ∈ target_names s.
Proof. symmetry. apply target_names_elem. Qed.

Lemma reachable_target_names s n :
  reachable s n <-> exists t, t ∈ target_names s /\ rtc (depends_on s) t n.
Proof.
  unfold reachable. by setoid_rewrite is_target_node_target_names.
Qed.

Lemma reachable_key s n :
  needs_exist s -> reachable s n -> n ∈ Dict.keys (nodes s).
Proof.
  intros Hneeds (t & Ht & Htn)%reachable_target_names. apply get_is_Some.
  apply rtc_inv_r in Htn as [->|(m & _ & Hmn)].
  - by apply target_names_key.
  - by eapply depends_on_exists.
Qed.

Lemma reachable_depends_on s n d :
  reachable s n -> depends_on s n d -> reachable s d.
Proof. intros (t & Ht & Htn) Hnd. exists t. split; [done|]. by eapply rtc_r. Qed.

(** C2. On a schema whose [needs] values all name existing nodes and whose
    [needs] graph has no cycle among the nodes reachable from the targets,
    [minimal_graph_schema] returns (any recursion limit above the number of
    nodes is enough) a schema whose node names are exactly the names
    reachable, by following [needs] values, from the nodes marked
    [is_target], each once and with the node it had; pruning that schema
    again returns it unchanged. *)
Theorem minimal_graph_schema_reachable (s : GraphSchema) (limit : nat) :
  NoDup (Dict.keys (nodes s)) ->
  needs_exist s ->
  acyclic_from_targets s ->
  length (nodes s) < limit ->
  exists s',
    minimal_graph_schema limit s = Ok s'
    /\ (forall n, n ∈ Dict.keys (nodes s') <-> reachable s n)
    /\ NoDup (Dict.keys (nodes s'))
    /\ (forall n, reachable s n -> Dict.get (nodes s') n = Dict.get (nodes s) n)
    /\ minimal_graph_schema limit s' = Ok s'.
Proof.
  intros Hnodup Hneeds Hacyclic Hlimit.
  destruct (all_dependencies_total s Hneeds limit ∅ (target_names s))
    as [required Hrequired].
  { intros t Ht. split_and!.
    - by apply target_names_key.
    - intros x Hx. apply Hacyclic, reachable_target_names. by exists t.
    - intros v Hv. by apply not_elem_of_empty in Hv. }
  { apply empty_subseteq. }
  { rewrite size_empty, size_list_to_set by done.
    unfold Dict.keys. rewrite length_fmap. lia. }
  assert (forall n, n ∈ required <-> reachable s n) as Helem.
  { intros n. rewrite reachable_target_names.
    apply (all_dependencies_elem s limit _ _ n Hrequired). }
  set (s' := {| nodes := Dict.filter_keys
                           (fun n => str_in n required) (nodes s) |}).
  assert (minimal_graph_schema limit s = Ok s') as Hmin.
  { unfold minimal_graph_schema. by rewrite Hrequired. }
  exists s'. split_and!; [done| | | |].
  - intros n. simpl. rewrite keys_filter_keys, str_in_spec, Helem.
    split; [tauto|]. intros Hn. split; [|done]. by apply reachable_key.
  - by apply NoDup_keys_filter_keys.
  - intros n Hn. simpl. rewrite get_filter_keys.
    by rewrite (proj2 (str_in_spec _ _)) by (by apply Helem).
  - assert (target_names s' = target_names s) as Htargets.
    { unfold target_names, s'. simpl. unfold Dict.filter_keys. f_equal.
      apply filter_filter_implied. intros [t node] Hin Ht. simpl in *.
      apply str_in_spec, Helem. exists t. split; [|done]. by exists node. }
    unfold minimal_graph_schema. rewrite Htargets. subst s'.
    rewrite all_dependencies_pruned.
    + rewrite Hrequired. simpl. do 2 f_equal.
      by apply filter_keys_twice.
    + intros n d Hn Hnd. apply Helem. apply Helem in Hn.
      by eapply reachable_depends_on.
    + intros t Ht. apply Helem, reachable_target_names. by exists t.
Qed.

(** ** [as_dict] and [from_dict] *)

Lemma asdict_inner_plain_data : forall v,
  plain_data v = true -> asdict_inner v = Ok v.
Proof.
  fix IH 1. intros [ | | | |l|d| | | ]; simpl; try done.
  - intros Hl.
    assert ((fix items (l : list pyval) : result (list pyval) :=
               match l with
               | [] => Ok []
               | x :: l => x' ← asdict_inner x; l' ← items l; Ok (x' :: l')
               end) l = Ok l) as ->; [|done].
    induction l as [|x l IHl]; simpl in *; [done|].
    apply andb_prop in Hl as [Hx Hl]. by rewrite (IH x Hx), (IHl Hl).
  - intros Hd.
    assert ((fix items (d : list (string * pyval))
               : result (list (string * pyval)) :=
               match d with
               | [] => Ok []
               | (k, x) :: d =>
                   x' ← asdict_inner x; d' ← items d; Ok ((k, x') :: d')
               end) d = Ok d) as ->; [|done].
    induction d as [|[k x] d IHd]; simpl in *; [done|].
    apply andb_prop in Hd as [Hx Hd]. by rewrite (IH x Hx), (IHd Hd).
Qed.

Lemma plain_data_needs (needs : dict string) :
  plain_data (VDict (prod_map id VStr <$> needs)) = true.
Proof. simpl. by induction needs as [|[k v] needs IH]. Qed.

(** What [asdict] and the assignment to ["uses"] make of a node whose
    config is plain data. *)
Lemma asdict_serialized node :
  plain_data (VDict (config node)) = true ->
  (serializable ← asdict node;
   Ok (Dict.set serializable "uses" (VStr (dotted_path (uses node)))))
  = Ok (serialized node).
Proof.
  intros Hconfig. unfold asdict, serialized.
  rewrite (asdict_inner_plain_data _ (plain_data_needs (needs node))),
    (asdict_inner_plain_data _ Hconfig).
  by destruct (resource node).
Qed.

Lemma as_dict_of_str_needs (needs : dict string) :
  as_dict_of_str (VDict (prod_map id VStr <$> needs)) = Ok needs.
Proof.
  unfold as_dict_of_str.
  assert (forall acc, for_each (prod_map id VStr <$> needs) acc
            (fun kv acc => s ← as_str kv.2; Ok (acc ++ [(kv.1, s)]))
          = Ok (acc ++ needs)) as H.
  { induction needs as [|[k v] needs IH]; intros acc; simpl.
    - by rewrite app_nil_r.
    - rewrite IH. by rewrite <- app_assoc. }
  apply (H []).
Qed.

Lemma set_fresh {V} (d : dict V) k v :
  k ∉ Dict.keys d -> Dict.set d k v = d ++ [(k, v)].
Proof.
  unfold Dict.keys. induction d as [|[k' v'] d IH]; simpl; intros Hk; [done|].
  apply not_elem_of_cons in Hk as [Hne Hk].
  destruct (String.eqb_spec k' k); [done|]. f_equal. by apply IH.
Qed.

Lemma foldl_set_fresh {V W} (f : string * V -> W) (l : dict V) : forall acc,
  NoDup (Dict.keys acc ++ Dict.keys l) ->
  foldl (fun acc item => Dict.set acc item.1 (f item)) acc l
  = acc ++ ((fun item => (item.1, f item)) <$> l).
Proof.
  unfold Dict.keys. induction l as [|[k v] l IH]; intros acc Hnd; simpl.
  - by rewrite app_nil_r.
  - apply NoDup_app in Hnd as (Hacc & Hdisj & Hl).
    apply NoDup_cons in Hl as [Hk Hl].
    rewrite set_fresh by (intros Hin; apply (Hdisj _ Hin); left).
    rewrite IH, <- app_assoc; [done|].
    rewrite fmap_app. simpl. apply NoDup_app. split_and!.
    + apply NoDup_app. split_and!; [done| |apply NoDup_singleton].
      intros x Hx ->%list_elem_of_singleton. apply (Hdisj _ Hx). left.
    + intros x [Hx| ->%list_elem_of_singleton]%elem_of_app Hin; [|done].
      apply (Hdisj _ Hx). by right.
    + done.
Qed.

Section round_trip.
Variable class_from_module_path : string -> option ClassObj.
Variable py_str : pyval -> string.

Lemma as_dict_items s :
  NoDup (Dict.keys (nodes s)) ->
  (forall n node, (n, node) ∈ nodes s ->
     plain_data (VDict (config node)) = true) ->
  as_dict s = Ok (serialized_schema s).
Proof.
  intros Hnd Hplain. unfold as_dict, serialized_schema.
  assert (forall l acc,
            NoDup (Dict.keys acc ++ Dict.keys l) ->
            (forall n node, (n, node) ∈ l ->
               plain_data (VDict (config node)) = true) ->
            for_each l acc (fun '(node_name, node) serializable_graph_schema =>
              serializable ← asdict node;
              let serializable :=
                Dict.set serializable "uses" (VStr (dotted_path (uses node))) in
              Ok (Dict.set serializable_graph_schema node_name
                    (VDict serializable)))
            = Ok (acc ++ ((fun item => (item.1, VDict (serialized item.2)))
                            <$> l))) as Hloop.
  { unfold Dict.keys. induction l as [|[k node] l IH]; intros acc Hacc Hl; simpl.
    - by rewrite app_nil_r.
    - pose proof (asdict_serialized node (Hl k node (list_elem_of_here _ _)))
        as Hnode.
      destruct (asdict node) as [d|e]; simpl in Hnode; [|done].
      injection Hnode as Hnode. simpl. rewrite Hnode.
      apply NoDup_app in Hacc as (Hacc & Hdisj & Hkl).
      apply NoDup_cons in Hkl as [Hk Hkl].
      rewrite set_fresh by (intros Hin; apply (Hdisj _ Hin); left).
      rewrite IH, <- app_assoc; [done| |].
      + rewrite fmap_app. simpl. apply NoDup_app. split_and!.
        * apply NoDup_app. split_and!; [done| |apply NoDup_singleton].
          intros x Hx ->%list_elem_of_singleton. apply (Hdisj _ Hx). left.
        * intros x [Hx| ->%list_elem_of_singleton]%elem_of_app Hin; [|done].
          apply (Hdisj _ Hx). by right.
        * done.
      + intros n node' Hin. apply (Hl n). by right. }
  apply (Hloop (nodes s) []); done.
Qed.

Lemma from_dict_node_serialized node :
  class_from_module_path (dotted_path (uses node)) = Some (uses node) ->
  from_dict_node class_from_module_path py_str (serialized node)
  = (deserialized node, Ok node).
Proof.
  intros Hclass. destruct node as [nd us cn f cfg e t i r].
  unfold serialized, deserialized. simpl uses in *.
  cbn [needs constructor_name fn eager is_target is_input resource config].
  unfold from_dict_node, try_except, mbind, M_bind, getitemM, setitemM, lift,
    get_state, mret, M_ret.
  destruct r as [[rn]|]; cbn -[dotted_path as_dict_of_str]; rewrite Hclass;
    cbn -[dotted_path as_dict_of_str]; rewrite as_dict_of_str_needs;
    done.
Qed.

Lemma from_dict_items_serialized (l : dict SchemaNode) : forall acc,
  NoDup (Dict.keys acc ++ Dict.keys l) ->
  (forall n node, (n, node) ∈ l ->
     class_from_module_path (dotted_path (uses node)) = Some (uses node)) ->
  from_dict_items class_from_module_path py_str
    ((fun item => (item.1, VDict (serialized item.2))) <$> l) acc
  = ((fun item => (item.1, VDict (deserialized item.2))) <$> l, Ok (acc ++ l)).
Proof.
  induction l as [|[k node] l IH]; intros acc Hnd Hok; simpl.
  - by rewrite app_nil_r.
  - rewrite from_dict_node_serialized by (apply (Hok k); left).
    unfold Dict.keys in Hnd. simpl in Hnd.
    apply NoDup_app in Hnd as (Hacc & Hdisj & Hl).
    apply NoDup_cons in Hl as [Hk Hl].
    rewrite set_fresh by (intros Hin; apply (Hdisj _ Hin); left).
    rewrite IH.
    + by rewrite <- app_assoc.
    + unfold Dict.keys. rewrite fmap_app. simpl. apply NoDup_app. split_and!.
      * apply NoDup_app. split_and!; [done| |apply NoDup_singleton].
        intros x Hx ->%list_elem_of_singleton. apply (Hdisj _ Hx). left.
      * intros x [Hx| ->%list_elem_of_singleton]%elem_of_app Hin; [|done].
        apply (Hdisj _ Hx). by right.
      * done.
    + intros n node' Hin. apply (Hok n). by right.
Qed.

(** C1, as the code has it.  For a schema with distinct node names whose
    classes are found again under [module.name] and whose configs are
    plain data (no [Resource] or other dataclass instance, which
    [as_dict] would flatten to a dictionary, and no other object, which
    it would copy), [as_dict] returns and [from_dict] applied to what it
    returns gives back the schema itself: the same names in the same
    order and, for each, the same needs, class, constructor_name, fn,
    config, eager, is_target, is_input and resource.  Cycles do not
    matter. *)
Theorem from_dict_as_dict (s : GraphSchema) :
  NoDup (Dict.keys (nodes s)) ->
  (forall n node, (n, node) ∈ nodes s ->
     class_from_module_path (dotted_path (uses node)) = Some (uses node)
     /\ plain_data (VDict (config node)) = true) ->
  exists serialized_graph_schema,
    as_dict s = Ok serialized_graph_schema
    /\ (from_dict class_from_module_path py_str serialized_graph_schema).2
       = Ok s.
Proof.
  intros Hnd Hok. exists (serialized_schema s). split.
  - apply as_dict_items; [done|]. intros n node Hin. by apply (Hok n).
  - unfold from_dict, serialized_schema.
    rewrite from_dict_items_serialized; [|done|].
    + simpl. by destruct s.
    + intros n node Hin. by apply (Hok n).
Qed.
End round_trip.

(** ** [from_dict]: errors and what it does to its argument *)

Section dict_set_facts.
Context {V : Type}.
Implicit Types (d : dict V) (k : string).

Lemma get_set_eq d k v : Dict.get (Dict.set d k v) k = Some v.
Proof.
  induction d as [|[k' v'] d IH]; simpl.
  - by rewrite String.eqb_refl.
  - destruct (String.eqb_spec k' k); simpl.
    + by rewrite String.eqb_refl.
    + by destruct (String.eqb_spec k' k).
Qed.

Lemma get_set_ne d k k' v :
  k <> k' -> Dict.get (Dict.set d k v) k' = Dict.get d k'.
Proof.
  intros Hne. induction d as [|[k0 v0] d IH]; simpl.
  - by destruct (String.eqb_spec k k').
  - destruct (String.eqb_spec k0 k); simpl; subst.
    + destruct (String.eqb_spec k k'); [done|].
      by destruct (String.eqb_spec k k').
    + by destruct (String.eqb_spec k0 k').
Qed.

End dict_set_facts.

Lemma json_safe_entry (d : dict pyval) k v :
  Dict.get d k = Some v -> json_safe v = false -> json_safe (VDict d) = false.
Proof.
  intros Hget Hv. simpl. induction d as [|[k' v'] d IH]; simpl in *; [done|].
  destruct (String.eqb_spec k' k).
  - simplify_eq. by rewrite Hv.
  - rewrite IH by done. apply andb_false_r.
Qed.

Section from_dict_facts.
Variable class_from_module_path : string -> option ClassObj.
Variable py_str : pyval -> string.

Local Abbreviation from_dict_node' :=
  (from_dict_node class_from_module_path py_str).

Lemma from_dict_node_import_error sn path :
  Dict.get sn "uses" = Some (VStr path) ->
  class_from_module_path path = None ->
  from_dict_node' sn
  = (sn, Raise (GraphSchemaException (deserializing_error path)
                  (ImportError path))).
Proof.
  intros Huses Hclass.
  unfold from_dict_node, try_except, mbind, M_bind,
    getitemM, setitemM, lift, raise, lift, Dict.getitem.
  rewrite Huses. simpl. rewrite Hclass. simpl. by rewrite Huses.
Qed.

Lemma from_dict_node_no_resource sn path c :
  Dict.get sn "uses" = Some (VStr path) ->
  class_from_module_path path = Some c ->
  Dict.get sn "resource" = None ->
  from_dict_node' sn
  = (Dict.set sn "uses" (VClass c), Raise (KeyError "resource")).
Proof.
  intros Huses Hclass Hres.
  unfold from_dict_node, try_except, mbind, M_bind,
    getitemM, setitemM, lift, raise, lift, Dict.getitem.
  rewrite Huses. simpl. rewrite Hclass. simpl.
  rewrite get_set_ne by done. by rewrite Hres.
Qed.

(** What a successful pass over one node has done to it. *)
Lemma from_dict_node_Ok sn sn' node :
  from_dict_node' sn = (sn', Ok node) ->
  node_mutated class_from_module_path sn sn'.
Proof.
  unfold from_dict_node, try_except, mbind, M_bind,
    getitemM, setitemM, lift, raise, lift, get_state, mret, M_ret, Dict.getitem.
  destruct (Dict.get sn "uses") as [u|] eqn:Huses; simpl; [|done].
  destruct u as [ | | |path| | | | | ]; simpl; try done.
  destruct (class_from_module_path path) as [c|] eqn:Hclass; simpl;
    [|by rewrite Huses].
  rewrite get_set_ne by done.
  destruct (Dict.get sn "resource") as [rv|] eqn:Hres; simpl; [|done].
  destruct (truthy rv) eqn:Htruthy; simpl.
  - destruct (Resource_init rv) as [r|e] eqn:Hr; simpl.
    + destruct (SchemaNode_init _); simpl; [|done].
      intros [= <- _]. exists path, c, rv. split_and!; try done.
      * rewrite get_set_ne by done. apply get_set_eq.
      * rewrite Htruthy. exists r. split; [done|]. apply get_set_eq.
      * intros k Hk1 Hk2. by rewrite !get_set_ne by done.
    + destruct e; simpl; try done. by rewrite get_set_eq.
  - destruct (SchemaNode_init _); simpl; [|done].
    intros [= <- _]. exists path, c, rv. split_and!; try done.
    + apply get_set_eq.
    + rewrite Htruthy. by rewrite get_set_ne.
    + intros k Hk1 Hk2. by rewrite get_set_ne.
Qed.
End from_dict_facts.

Section from_dict_theorems.
Variable class_from_module_path : string -> option ClassObj.
Variable py_str : pyval -> string.

Local Abbreviation from_dict_items' :=
  (from_dict_items class_from_module_path py_str).
Local Abbreviation from_dict' :=
  (from_dict class_from_module_path py_str).

(** The loop gets through a prefix of good items and goes on with the
    rest. *)
Lemma from_dict_items_prefix pre : forall acc,
  Forall (deserializes class_from_module_path py_str) pre ->
  exists pre' acc',
    forall rest,
      from_dict_items' (pre ++ rest) acc
      = ((pre' ++ (from_dict_items' rest acc').1),
         (from_dict_items' rest acc').2).
Proof.
  induction pre as [|[k v] pre IH]; intros acc Hpre.
  - exists [], acc. intros rest. simpl. by destruct (from_dict_items' rest acc).
  - apply Forall_cons in Hpre as [(sn & sn' & node & Hv & Hnode) Hpre].
    simpl in Hv. subst v.
    destruct (IH (Dict.set acc k node) Hpre) as (pre' & acc' & Hrest).
    exists ((k, VDict sn') :: pre'), acc'. intros rest. simpl.
    rewrite Hnode, Hrest. done.
Qed.

(** C8. When the loop of [from_dict] comes to a node whose [uses] path
    cannot be imported, [from_dict] raises [GraphSchemaException] with the
    message that quotes this path and the [ImportError] as its cause; it
    returns no schema, and the failing node and the nodes after it are
    left as they were. *)
Theorem from_dict_unimportable pre node_name sn path post :
  Forall (deserializes class_from_module_path py_str) pre ->
  Dict.get sn "uses" = Some (VStr path) ->
  class_from_module_path path = None ->
  exists pre',
    from_dict' (pre ++ (node_name, VDict sn) :: post)
    = (pre' ++ (node_name, VDict sn) :: post,
       Raise (GraphSchemaException
                ("Error deserializing graph schema. Can't find class for graph component type '"
                   +:+ path +:+ "'.")
                (ImportError path))).
Proof.
  intros Hpre Huses Hclass.
  destruct (from_dict_items_prefix pre [] Hpre) as (pre' & acc' & Hrest).
  exists pre'. unfold from_dict. rewrite Hrest. simpl.
  by rewrite (from_dict_node_import_error _ _ _ _ Huses Hclass).
Qed.

(** C10. When the loop of [from_dict] comes to a node whose class is
    found but which has no ["resource"] key, [from_dict] raises
    [KeyError('resource')] as it is: no [GraphSchemaException] wraps
    it. *)
Theorem from_dict_missing_resource pre node_name sn path c post :
  Forall (deserializes class_from_module_path py_str) pre ->
  Dict.get sn "uses" = Some (VStr path) ->
  class_from_module_path path = Some c ->
  Dict.get sn "resource" = None ->
  (from_dict' (pre ++ (node_name, VDict sn) :: post)).2
  = Raise (KeyError "resource").
Proof.
  intros Hpre Huses Hclass Hres.
  destruct (from_dict_items_prefix pre [] Hpre) as (pre' & acc' & Hrest).
  unfold from_dict. rewrite Hrest. simpl.
  by rewrite (from_dict_node_no_resource _ _ _ _ _ Huses Hclass Hres).
Qed.

Lemma from_dict_items_mutated items : forall acc items' nodes,
  from_dict_items' items acc = (items', Ok nodes) ->
  Forall2 (item_mutated class_from_module_path) items items'.
Proof.
  induction items as [|[k v] items IH]; intros acc items' nodes; simpl.
  - intros [= <- _]. constructor.
  - destruct v as [ | | | | |sn| | | ]; try done.
    destruct (from_dict_node class_from_module_path py_str sn)
      as [sn' [node|e]] eqn:Hnode; [|done].
    destruct (from_dict_items' items (Dict.set acc k node))
      as [rest' r] eqn:Hrest.
    intros [= <- ->]. constructor; [|by eapply IH].
    split; [done|]. exists sn, sn'. split_and!; [done..|].
    by eapply from_dict_node_Ok.
Qed.

(** C9. A call of [from_dict] that returns has changed its argument:
    every node dictionary now holds the class object under ["uses"] and,
    where the ["resource"] value was truthy, the [Resource] built from it;
    unless the argument was empty it is no longer JSON data. *)
Theorem from_dict_mutates_argument serialized_graph_schema after schema :
  from_dict' serialized_graph_schema = (after, Ok schema) ->
  Forall2 (item_mutated class_from_module_path) serialized_graph_schema after
  /\ (serialized_graph_schema <> [] -> json_safe (VDict after) = false).
Proof.
  unfold from_dict.
  destruct (from_dict_items' serialized_graph_schema [])
    as [after' [nodes|e]] eqn:Hitems; [|done].
  intros [= <- _]. apply from_dict_items_mutated in Hitems.
  split; [done|]. intros Hne.
  destruct Hitems as [|[k v] [k' v'] items items' Hitem _]; [done|].
  destruct Hitem as (_ & sn & sn' & _ & Hv' & Hmut). simpl in Hv'. subst v'.
  destruct Hmut as (path & c & rv & _ & _ & _ & Huses & _).
  assert (json_safe (VDict sn') = false) as Hsn'
    by (by eapply json_safe_entry).
  simpl in *. by rewrite Hsn'.
Qed.
End from_dict_theorems.

(** ** [GraphNode]: loading the component *)

Ltac unfold_M :=
  unfold mbind, M_bind, mret, M_ret, raise, get_state,
    try_except, log, store_component in *;
  unfold lift in *.

Lemma hook_calls_no_instantiation calls :
  Forall (fun e => is_hook_call e = true) calls ->
  filter (fun e => is_constructor_call e = true) calls = [].
Proof.
  induction 1 as [|e calls He _ IH]; [done|].
  rewrite filter_cons, decide_False; [done|]. by destruct e.
Qed.

#[global] Instance hooks_only_refl : Reflexive hooks_only.
Proof.
  intros st. split_and!; [done..|]. exists []. by rewrite app_nil_r.
Qed.

#[global] Instance hooks_only_trans : Transitive hooks_only.
Proof.
  intros st1 st2 st3 (Hn & Hi & c & Ht & Hc) (Hn' & Hi' & c' & Ht' & Hc').
  split_and!; [congruence..|]. exists (c ++ c').
  split; [by rewrite Ht', Ht, app_assoc | by apply Forall_app].
Qed.

Lemma hooks_only_instantiations st st' :
  hooks_only st st' -> instantiations (world st') = instantiations (world st).
Proof.
  intros (_ & _ & calls & Ht & Hcalls). unfold instantiations. rewrite Ht.
  rewrite filter_app, length_app, (hook_calls_no_instantiation calls) by done.
  simpl. lia.
Qed.

Lemma for_eachM_frame {S A B} (R : relation S) `{!Reflexive R, !Transitive R}
    (xs : list A) (body : A -> B -> M S B) :
  (forall x acc s s' r, body x acc s = (s', r) -> R s s') ->
  forall acc s s' r, for_eachM xs acc body s = (s', r) -> R s s'.
Proof.
  intros Hbody. induction xs as [|x xs IH]; intros acc s s' r; simpl.
  - unfold_M. intros [= <- _]. reflexivity.
  - unfold mbind, M_bind. destruct (body x acc s) as [s1 [acc'|e]] eqn:Hx.
    + intros Hrest. etrans; [by eapply Hbody | by eapply IH].
    + intros [= <- _]. by eapply Hbody.
Qed.

Lemma get_remove_ne {V} (d : dict V) k k' :
  k <> k' -> Dict.get (Dict.remove d k) k' = Dict.get d k'.
Proof.
  intros Hne. unfold Dict.remove. induction d as [|[k0 v0] d IH]; [done|].
  rewrite filter_cons. simpl. destruct (String.eqb_spec k0 k); subst.
  - rewrite decide_False by done. simpl.
    by destruct (String.eqb_spec k k').
  - rewrite decide_True by done. simpl. by rewrite IH.
Qed.

Section node_facts.
Variable class_attrs : ClassObj -> dict Callable.

Local Abbreviation _load_component' := (_load_component class_attrs).
Local Abbreviation __call__' := (__call__ class_attrs).

Lemma run_before_hooks_frame kwargs st st' r :
  _run_before_hooks kwargs st = (st', r) -> hooks_only st st'.
Proof.
  unfold _run_before_hooks. unfold mbind at 1, M_bind at 1, get_state.
  apply for_eachM_frame; [apply _..|].
  intros hook acc s s' r'. unfold_M. simpl.
  destruct (on_before_node _ _ _ _ _) as [out|e]; simpl.
  - intros [= <- _]. split_and!; [done..|]. eexists. split; [done|].
    by repeat constructor.
  - destruct (is_Exception e); intros [= <- _];
      (split_and!; [done..|]; eexists; split; [done|]; by repeat constructor).
Qed.

Lemma run_after_hooks_frame outs output st st' r :
  _run_after_hooks outs output st = (st', r) -> hooks_only st st'.
Proof.
  unfold _run_after_hooks. unfold mbind at 1, M_bind at 1, get_state.
  apply for_eachM_frame; [apply _..|].
  intros [hook data] [] s s' r'. unfold_M. simpl.
  destruct (on_after_node _ _ _ _ _ _) as [out|e]; simpl.
  - intros [= <- _]. split_and!; [done..|]. eexists. split; [done|].
    by repeat constructor.
  - destruct (is_Exception e); intros [= <- _];
      (split_and!; [done..|]; eexists; split; [done|]; by repeat constructor).
Qed.

Lemma get_resource_spec self kwargs :
  _get_resource self kwargs
  = (if Dict.contains kwargs "resource" then Dict.remove kwargs "resource"
     else kwargs,
     Ok (resolved_resource self kwargs)).
Proof.
  unfold _get_resource, resolved_resource, popM, Dict.contains. unfold_M.
  destruct (Dict.get kwargs "resource") eqn:Hr; simpl; [by rewrite Hr|].
  by destruct (_existing_resource self).
Qed.

(** Every way [_load_component] can go. *)
Lemma load_component_cases kwargs st st' r :
  _load_component' kwargs st = (st', r) ->
  (st' = st /\ exists e, r = Raise e)
  \/ exists arguments,
       Dict.get arguments "resource"
         = Some (resolved_resource (node st) kwargs)
       /\ (forall k, k ∉ explicit_keywords ->
             Dict.get arguments k = Dict.get kwargs k)
       /\ (forall k, k ∈ explicit_keywords -> k <> "resource" ->
             Dict.get kwargs k = None)
       /\ ((exists v constructor,
              getattr class_attrs (_component_class (node st))
                (_constructor_name (node st)) = Ok constructor
              /\ call constructor [] arguments = Ok v
              /\ st' = instantiated st arguments v /\ r = Ok tt)
           \/ (exists e,
                 r = Raise e /\ node st' = node st
                 /\ trace (world st')
                    = trace (world st)
                        ++ [CallConstructor (_node_name (node st))
                              (_constructor_name (node st)) arguments])).
Proof.
  unfold _load_component. unfold_M.
  destruct (getattr _ _ _) as [constructor|e] eqn:Hattr; simpl;
    [|intros [= <- <-]; left; eauto].
  rewrite get_resource_spec. simpl.
  set (kwargs' := if Dict.contains kwargs "resource"
                  then Dict.remove kwargs "resource" else kwargs).
  unfold keyword_arguments.
  destruct (existsb _ _) eqn:Hdup; simpl; [intros [= <- <-]; left; eauto|].
  set (arguments := _ :: _ :: _ :: _ :: kwargs').
  intros Hcall. right. exists arguments. split_and!.
  - done.
  - intros k Hk. unfold arguments, kwargs', explicit_keywords in *.
    cbn [Dict.get].
    rewrite !not_elem_of_cons in Hk. destruct Hk as (? & ? & ? & ? & _).
    repeat match goal with
           | |- context [String.eqb ?a k] =>
               destruct (String.eqb_spec a k) as [Heq|_]; [congruence|]
           end.
    destruct (Dict.contains kwargs "resource"); [|done].
    by rewrite get_remove_ne.
  - intros k Hk Hne. apply str_in_spec in Hk.
    destruct (Dict.get kwargs k) as [v|] eqn:Hget; [|done]. exfalso.
    assert (k ∈ Dict.keys kwargs') as Hin.
    { apply get_is_Some. unfold kwargs'.
      destruct (Dict.contains kwargs "resource");
        [rewrite get_remove_ne by done|]; by rewrite Hget. }
    apply list_elem_of_In in Hin.
    match type of Hdup with
    | ?t = false => assert (t = true) as Hex; [|congruence]
    end.
    apply existsb_exists. exists k. split; [done | exact Hk].
  - destruct (call constructor [] arguments) as [v|e] eqn:Hv; simpl in Hcall.
    + left. exists v, constructor. simplify_eq. by split_and!.
    + right. exists (if is_Exception e
                     then GraphComponentException
                            (initializing_error (_node_name (node st))) e
                     else e).
      destruct (is_Exception e); simplify_eq; by split_and!.
Qed.

(** What a call does once it has got as far as the run function. *)
Lemma call_from_fn st inputs kwargs outs st2 :
  reaches_fn class_attrs st inputs kwargs outs st2 ->
  let self := node st2 in
  let run_kwargs := run_kwargs_of (node st) kwargs in
  let st3 :=
    {| node := self;
       world := {| trace := trace (world st2)
                              ++ [CallFn (_node_name self) (_fn_name self)
                                    (component_value self) run_kwargs];
                   next_id := next_id (world st2) |} |} in
  __call__' inputs st
  = match call (_fn self) [component_value self] run_kwargs with
    | Ok output =>
        match _run_after_hooks outs output st3 with
        | (st4, Ok _) => (st4, Ok (_node_name self, output))
        | (st4, Raise e) => (st4, Raise e)
        end
    | Raise e =>
        (st3, Raise (if is_Exception e
                     then GraphComponentException
                            (running_error (_node_name self)) e
                     else e))
    end.
Proof.
  intros (st1 & Hkwargs & Hbefore & Hload). simpl.
  unfold __call__, run_kwargs_of. unfold_M. simpl.
  rewrite Hkwargs, Hbefore.
  destruct (_eager (node st)); simpl.
  - subst st2. destruct (call _ _ _) as [output|e]; simpl.
    + by destruct (_run_after_hooks _ _ _) as [st4 [[]|e]].
    + by destruct (is_Exception e).
  - rewrite Hload. destruct (call _ _ _) as [output|e]; simpl.
    + by destruct (_run_after_hooks _ _ _) as [st4 [[]|e]].
    + by destruct (is_Exception e).
Qed.

(** How far a call gets. *)
Lemma call_cases st inputs st' r :
  __call__' inputs st = (st', r) ->
  (st' = st /\ exists e, r = Raise e)
  \/ (hooks_only st st' /\ exists e, r = Raise e)
  \/ (exists kwargs st1 e,
        _eager (node st) = false /\ hooks_only st st1
        /\ _load_component' (minimal_kwargs kwargs
                               (_constructor_fn (node st))) st1
           = (st', Raise e)
        /\ r = Raise e)
  \/ (exists kwargs outs st2, reaches_fn class_attrs st inputs kwargs outs st2).
Proof.
  unfold __call__. unfold_M. simpl.
  destruct (project_inputs _ _) as [kwargs|e] eqn:Hkwargs;
    [|intros [= <- <-]; left; eauto].
  destruct (_run_before_hooks kwargs st) as [st1 [outs|e]] eqn:Hbefore;
    [|intros [= <- <-]; right; left; split; [|by eauto];
      by eapply run_before_hooks_frame].
  destruct (_eager (node st)) eqn:Heager; simpl.
  - intros _. right; right; right. exists kwargs, outs, st1, st1.
    by rewrite Heager.
  - destruct (_load_component' _ st1) as [st2 [[]|e]] eqn:Hload.
    + intros _. right; right; right. exists kwargs, outs, st2, st1.
      by rewrite Heager.
    + intros [= <- <-]. right; right; left. exists kwargs, st1, e.
      split_and!; try done. by eapply run_before_hooks_frame.
Qed.
End node_facts.
(** ** [_load_component], forwards *)

Section node_forward.
Variable class_attrs : ClassObj -> dict Callable.

Local Abbreviation _load_component' := (_load_component class_attrs).

(** [_load_component] when the constructor is found and no input uses a
    reserved keyword: the constructor is called, once. *)
Lemma load_component_forward kwargs st constructor :
  getattr class_attrs (_component_class (node st))
    (_constructor_name (node st)) = Ok constructor ->
  (forall k, k ∈ reserved_keywords -> Dict.get kwargs k = None) ->
  _load_component' kwargs st
  = match call constructor [] (constructor_arguments (node st) kwargs) with
    | Ok v => (instantiated st (constructor_arguments (node st) kwargs) v,
               Ok tt)
    | Raise e =>
        (add_events st [CallConstructor (_node_name (node st))
                          (_constructor_name (node st))
                          (constructor_arguments (node st) kwargs)],
         Raise (if is_Exception e
                then GraphComponentException
                       (initializing_error (_node_name (node st))) e
                else e))
    end.
Proof.
  intros Hattr Hreserved. unfold _load_component. unfold_M.
  rewrite Hattr. simpl. rewrite get_resource_spec. simpl.
  unfold keyword_arguments.
  set (kwargs' := if Dict.contains kwargs "resource"
                  then Dict.remove kwargs "resource" else kwargs).
  assert (existsb (fun k => str_in k
                     (Dict.keys
                        [("config", VDict (_component_config (node st)));
                         ("model_storage", _model_storage (node st));
                         ("resource", resolved_resource (node st) kwargs);
                         ("execution_context", _execution_context (node st))]))
            (Dict.keys kwargs') = false) as ->.
  { apply not_true_is_false. intros (k & Hk & Hin)%existsb_exists.
    apply list_elem_of_In, get_is_Some in Hk as [v Hv].
    apply str_in_spec in Hin. simpl in Hin.
    assert (k <> "resource") as Hne.
    { intros ->. unfold kwargs', Dict.contains in Hv.
      destruct (Dict.get kwargs "resource") eqn:Hres; [|congruence].
      assert ("resource" ∉ Dict.keys (Dict.remove kwargs "resource")) as Hnot.
      { unfold Dict.keys, Dict.remove. intros ([k' v'] & Hk' & Hin')%list_elem_of_fmap.
        apply list_elem_of_filter in Hin' as [Hf _]. simpl in *. subst.
        by rewrite String.eqb_refl in Hf. }
      apply Hnot, get_is_Some. eauto. }
    assert (Dict.get kwargs k = Some v) as Hget.
    { unfold kwargs' in Hv. destruct (Dict.contains kwargs "resource");
        [by rewrite get_remove_ne in Hv | done]. }
    rewrite Hreserved in Hget; [done|]. unfold reserved_keywords.
    repeat (apply elem_of_cons in Hin as [->|Hin]; [set_solver|]).
    inversion Hin. }
  simpl. fold kwargs'.
  change (_ :: _ :: _ :: _ :: kwargs') with (constructor_arguments (node st) kwargs).
  destruct (call constructor [] _) as [v|e]; simpl; [done|].
  by destruct (is_Exception e).
Qed.

(** [_load_component] when an input uses a reserved keyword: the call of
    the constructor fails before the constructor runs. *)
Lemma load_component_reserved kwargs st constructor k :
  getattr class_attrs (_component_class (node st))
    (_constructor_name (node st)) = Ok constructor ->
  k ∈ reserved_keywords ->
  is_Some (Dict.get kwargs k) ->
  exists msg,
    _load_component' kwargs st
    = (st, Raise (GraphComponentException
                    (initializing_error (_node_name (node st)))
                    (TypeError msg))).
Proof.
  intros Hctor Hk Hget. unfold _load_component. unfold_M.
  rewrite Hctor. simpl. rewrite get_resource_spec. simpl.
  unfold keyword_arguments.
  set (kwargs' := if Dict.contains kwargs "resource"
                  then Dict.remove kwargs "resource" else kwargs).
  assert (k <> "resource") as Hne.
  { intros ->. unfold reserved_keywords in Hk.
    repeat (apply elem_of_cons in Hk as [[=]|Hk]). inversion Hk. }
  match goal with
  | |- context [existsb ?f ?l] => assert (existsb f l = true) as ->
  end.
  { apply existsb_exists. exists k. split.
    - apply list_elem_of_In, get_is_Some. unfold kwargs'.
      destruct (Dict.contains kwargs "resource");
        [by rewrite get_remove_ne|done].
    - apply str_in_spec. simpl. unfold reserved_keywords in Hk.
      repeat (apply elem_of_cons in Hk as [->|Hk]; [set_solver|]).
      inversion Hk. }
  simpl. eauto.
Qed.

(** A call of a lazy node ends where [_load_component] raises. *)
Lemma call_load_error st inputs kwargs outs st1 st2 e :
  _eager (node st) = false ->
  project_inputs (_inputs (node st)) (Dict.of_pairs inputs) = Ok kwargs ->
  _run_before_hooks kwargs st = (st1, Ok outs) ->
  _load_component' (minimal_kwargs kwargs (_constructor_fn (node st))) st1
  = (st2, Raise e) ->
  __call__ class_attrs inputs st = (st2, Raise e).
Proof.
  intros Hlazy Hkwargs Hbefore Hload. unfold __call__. unfold_M. simpl.
  rewrite Hkwargs, Hbefore, Hlazy. simpl. by rewrite Hload.
Qed.

End node_forward.


(** ** [GraphNode]: instantiation, inputs, resource, errors *)

Lemma set_component_same self : set_component self (_component self) = self.
Proof. by destruct self. Qed.

Lemma app_singleton_neq {A} (l : list A) x : l <> l ++ [x].
Proof.
  intros H. apply (f_equal length) in H. rewrite length_app in H. simpl in H.
  lia.
Qed.

Lemma get_minimal_kwargs kwargs func k :
  Dict.get (minimal_kwargs kwargs func) k
  = if str_in k (params func) then Dict.get kwargs k else None.
Proof. apply get_filter_keys. Qed.

Lemma get_run_kwargs_of self kwargs k :
  _eager self = false ->
  Dict.get (run_kwargs_of self kwargs) k
  = if str_in k (params (_constructor_fn self)) then None else Dict.get kwargs k.
Proof.
  intros Heager. unfold run_kwargs_of. rewrite Heager, get_filter_keys.
  unfold Dict.contains. rewrite get_minimal_kwargs.
  destruct (str_in k _); [|done]. by destruct (Dict.get kwargs k).
Qed.

Section node_theorems.
Variable class_attrs : ClassObj -> dict Callable.
Variable get_default_config : ClassObj -> dict pyval.

Local Abbreviation _load_component' := (_load_component class_attrs).
Local Abbreviation __call__' := (__call__ class_attrs).
Local Abbreviation __init__' := (__init__ class_attrs get_default_config).

(** A call that gets as far as the run function has left the node as it
    was, but for the component of a lazy node. *)
Lemma reaches_fn_node st inputs kwargs outs st2 :
  reaches_fn class_attrs st inputs kwargs outs st2 ->
  exists c, node st2 = set_component (node st) c.
Proof.
  intros (st1 & _ & Hbefore & Hload).
  apply run_before_hooks_frame in Hbefore as (Hnode & _).
  destruct (_eager (node st)).
  - subst st2. exists (_component (node st)).
    by rewrite Hnode, set_component_same.
  - apply load_component_cases in Hload
      as [[_ [e [=]]]|(arguments & _ & _ & _ & Hcases)].
    destruct Hcases as [(v & ctor & _ & _ & -> & _)|(e & [=] & _)].
    simpl. rewrite Hnode. eauto.
Qed.

(** The run function is called, and the call is on record. *)
Lemma call_logs_fn st inputs kwargs outs st2 :
  reaches_fn class_attrs st inputs kwargs outs st2 ->
  exists calls,
    trace (world (__call__' inputs st).1)
    = trace (world st2)
        ++ [CallFn (_node_name (node st2)) (_fn_name (node st2))
              (component_value (node st2)) (run_kwargs_of (node st) kwargs)]
        ++ calls
    /\ Forall (fun e => is_hook_call e = true) calls
    /\ node (__call__' inputs st).1 = node st2
    /\ next_id (world (__call__' inputs st).1) = next_id (world st2).
Proof.
  intros Hreach. rewrite (call_from_fn _ _ _ _ _ _ Hreach).
  destruct (call _ _ _) as [output|e]; simpl.
  - destruct (_run_after_hooks _ _ _) as [st4 r] eqn:Hafter.
    apply run_after_hooks_frame in Hafter as (Hn & Hi & calls & Ht & Hcalls).
    simpl in *. exists calls.
    destruct r as [[]|e]; simpl; rewrite Ht, <- app_assoc; done.
  - exists []. by split_and!.
Qed.

(** C6. [_load_component] calls the constructor (when the class has it
    and no input takes the name of [config], [model_storage] or
    [execution_context]), and the resource among the arguments of that
    call is the ["resource"] of the keyword arguments it was given if
    there is one; else the resource the node was built with if there is
    one; else a resource named after the node. *)
Theorem constructor_resource_precedence kwargs st constructor :
  getattr class_attrs (_component_class (node st))
    (_constructor_name (node st)) = Ok constructor ->
  (forall k, k ∈ reserved_keywords -> Dict.get kwargs k = None) ->
  exists arguments,
    _load_component' kwargs st
    = match call constructor [] arguments with
      | Ok v => (instantiated st arguments v, Ok tt)
      | Raise e =>
          (add_events st [CallConstructor (_node_name (node st))
                            (_constructor_name (node st)) arguments],
           Raise (if is_Exception e
                  then GraphComponentException
                         (initializing_error (_node_name (node st))) e
                  else e))
      end
    /\ trace (world (_load_component' kwargs st).1)
       = trace (world st)
           ++ [CallConstructor (_node_name (node st))
                 (_constructor_name (node st)) arguments]
    /\ (forall supplied, Dict.get kwargs "resource" = Some supplied ->
          Dict.get arguments "resource" = Some supplied)
    /\ (forall existing,
          Dict.get kwargs "resource" = None ->
          _existing_resource (node st) = Some existing ->
          Dict.get arguments "resource" = Some (VResource existing))
    /\ (Dict.get kwargs "resource" = None ->
        _existing_resource (node st) = None ->
        Dict.get arguments "resource"
        = Some (VResource {| name := _node_name (node st) |})).
Proof.
  intros Hctor Hreserved.
  exists (constructor_arguments (node st) kwargs).
  rewrite (load_component_forward _ _ _ constructor Hctor Hreserved).
  split; [done|]. split; [by destruct (call constructor [] _)|].
  unfold constructor_arguments, resolved_resource. cbn [Dict.get app].
  cbn [String.eqb Ascii.eqb Bool.eqb].
  split_and!.
  - by intros supplied ->.
  - by intros existing -> ->.
  - by intros -> ->.
Qed.

(** C7. If the run function raises an exception [e] (an instance of
    [Exception]), the call of the node raises [GraphComponentException]
    with the message that names the node and with [e] as its cause. *)
Theorem call_wraps_run_error st inputs kwargs outs st2 e :
  reaches_fn class_attrs st inputs kwargs outs st2 ->
  call (_fn (node st2)) [component_value (node st2)]
    (run_kwargs_of (node st) kwargs) = Raise e ->
  is_Exception e = true ->
  (__call__' inputs st).2
  = Raise (GraphComponentException
             ("Error running graph component for node "
                +:+ _node_name (node st) +:+ ".") e).
Proof.
  intros Hreach Hcall He.
  rewrite (call_from_fn _ _ _ _ _ _ Hreach), Hcall, He. simpl.
  destruct (reaches_fn_node _ _ _ _ _ Hreach) as [c ->]. done.
Qed.

(** *** Projecting the inputs *)

Lemma get_app {V} (d1 d2 : dict V) k :
  Dict.get (d1 ++ d2) k
  = match Dict.get d1 k with Some v => Some v | None => Dict.get d2 k end.
Proof.
  induction d1 as [|[k' v'] d1 IH]; simpl; [done|].
  by destruct (String.eqb_spec k' k).
Qed.

Lemma project_inputs_loop (received : dict pyval) (inputs : dict string) :
  forall (acc kwargs : dict pyval),
  NoDup (Dict.keys acc ++ Dict.keys inputs) ->
  for_each inputs acc (fun '(input_name, input_node) kwargs =>
      v ← Dict.getitem received input_node;
      Ok (Dict.set kwargs input_name v)) = Ok kwargs ->
  Dict.keys kwargs = Dict.keys acc ++ Dict.keys inputs
  /\ (forall k, k ∈ Dict.keys acc -> Dict.get kwargs k = Dict.get acc k)
  /\ (forall input_name input_node,
        (input_name, input_node) ∈ inputs ->
        is_Some (Dict.get received input_node)
        /\ Dict.get kwargs input_name = Dict.get received input_node).
Proof.
  induction inputs as [|[k p] inputs IH]; intros acc kwargs Hnd; simpl.
  - intros [= <-]. split_and!; [by rewrite app_nil_r | done |].
    intros ? ? Hin. inversion Hin.
  - unfold Dict.getitem.
    destruct (Dict.get received p) as [v|] eqn:Hp; simpl; [|done].
    assert (k ∉ Dict.keys acc) as Hk.
    { apply NoDup_app in Hnd as (_ & Hdisj & _). intros Hin.
      apply (Hdisj _ Hin). left. }
    rewrite set_fresh by done. intros Hloop.
    destruct (IH (acc ++ [(k, v)]) kwargs) as (Hkeys & Hacc & Hin); [|done|].
    { unfold Dict.keys in *. rewrite fmap_app, <- app_assoc. done. }
    unfold Dict.keys in *. rewrite fmap_app, <- app_assoc in Hkeys.
    split_and!; [done| |].
    + intros k' Hk'.
      rewrite Hacc by (rewrite fmap_app; apply elem_of_app; by left).
      rewrite get_app. destruct (Dict.get acc k') eqn:Hget; [done|].
      apply get_None in Hget. done.
    + intros k' p' [[= -> ->]|Hin']%elem_of_cons; [|by apply Hin].
      split; [by rewrite Hp|].
      rewrite Hacc by (rewrite fmap_app; apply elem_of_app; right; left).
      rewrite get_app, (proj2 (get_None acc k)) by done. simpl.
      by rewrite String.eqb_refl.
Qed.

Lemma project_inputs_missing (received : dict pyval) (inputs : dict string) :
  forall (acc : dict pyval) parent,
  parent ∈ Dict.values inputs ->
  Dict.get received parent = None ->
  exists missing,
    missing ∈ Dict.values inputs
    /\ Dict.get received missing = None
    /\ for_each inputs acc (fun '(input_name, input_node) kwargs =>
         v ← Dict.getitem received input_node;
         Ok (Dict.set kwargs input_name v)) = Raise (KeyError missing).
Proof.
  unfold Dict.values.
  induction inputs as [|[k p] inputs IH]; intros acc parent Hin Hnone; simpl.
  - inversion Hin.
  - unfold Dict.getitem.
    destruct (Dict.get received p) as [v|] eqn:Hp; simpl.
    + apply elem_of_cons in Hin as [->|Hin]; [simpl in *; congruence|].
      destruct (IH (Dict.set acc k v) parent Hin Hnone)
        as (missing & Hm & Hmn & Hloop).
      exists missing. split_and!; [by right | done | done].
    + exists p. split_and!; [left | done | done].
Qed.

(** C5. The outputs of the parent nodes are passed by name: for each
    entry [local -> parent] of the node's [needs], the keyword [local]
    carries what [parent] put out, and these are all the keywords; the
    run function of an eager node is called with exactly these keyword
    arguments.  When a parent named in [needs] has put out nothing, the
    call raises [KeyError] and nothing has been called. *)
Theorem call_projects_inputs_by_name st inputs :
  let needs := _inputs (node st) in
  let received := Dict.of_pairs inputs in
  NoDup (Dict.keys needs) ->
  (forall kwargs outs st2,
     reaches_fn class_attrs st inputs kwargs outs st2 ->
     Dict.keys kwargs = Dict.keys needs
     /\ (forall local parent,
           (local, parent) ∈ needs ->
           is_Some (Dict.get received parent)
           /\ Dict.get kwargs local = Dict.get received parent)
     /\ (_eager (node st) = true ->
         CallFn (_node_name (node st)) (_fn_name (node st))
           (component_value (node st)) kwargs
         ∈ trace (world (__call__' inputs st).1)))
  /\ (forall parent,
        parent ∈ Dict.values needs ->
        Dict.get received parent = None ->
        exists missing,
          missing ∈ Dict.values needs
          /\ Dict.get received missing = None
          /\ __call__' inputs st = (st, Raise (KeyError missing))).
Proof.
  intros needs received Hnd. split.
  - intros kwargs outs st2 Hreach.
    pose proof Hreach as (st1 & Hkwargs & Hbefore & Hload).
    apply project_inputs_loop in Hkwargs as (Hkeys & _ & Hin); [|done].
    split_and!; [done | done |]. intros Heager.
    destruct (call_logs_fn _ _ _ _ _ Hreach) as (calls & Htrace & _).
    rewrite Htrace. unfold run_kwargs_of. rewrite Heager in *. subst st2.
    apply run_before_hooks_frame in Hbefore as (-> & _).
    apply elem_of_app. right. left.
  - intros parent Hin Hnone.
    destruct (project_inputs_missing received needs [] parent Hin Hnone)
      as (missing & Hm & Hmn & Hloop).
    exists missing. split_and!; [done..|].
    change (project_inputs needs received = Raise (KeyError missing)) in Hloop.
    unfold __call__. unfold_M. simpl. fold needs received. by rewrite Hloop.
Qed.

(** C4. In a call that gets as far as the run function, the run function
    is called with [run_kwargs]: all projected inputs for an eager node;
    for a lazy node the constructor has just been called with the
    projected inputs whose names are parameters of the constructor (each
    under its name, and no other input), and [run_kwargs] is the rest. *)
Theorem call_splits_inputs st inputs kwargs outs st2 :
  reaches_fn class_attrs st inputs kwargs outs st2 ->
  let constructor_params := params (_constructor_fn (node st)) in
  let run_kwargs := run_kwargs_of (node st) kwargs in
  (exists calls,
     trace (world (__call__' inputs st).1)
     = trace (world st2)
         ++ [CallFn (_node_name (node st)) (_fn_name (node st))
               (component_value (node st2)) run_kwargs]
         ++ calls
     /\ Forall (fun e => is_hook_call e = true) calls)
  /\ (if _eager (node st) then
        run_kwargs = kwargs
        /\ exists calls,
             trace (world st2) = trace (world st) ++ calls
             /\ Forall (fun e => is_hook_call e = true) calls
      else
        exists calls arguments,
          trace (world st2)
          = trace (world st) ++ calls
              ++ [CallConstructor (_node_name (node st))
                    (_constructor_name (node st)) arguments]
          /\ Forall (fun e => is_hook_call e = true) calls
          /\ (forall k v,
                Dict.get kwargs k = Some v ->
                str_in k constructor_params = true ->
                Dict.get arguments k = Some v)
          /\ (forall k,
                k ∉ explicit_keywords ->
                is_Some (Dict.get arguments k) ->
                str_in k constructor_params = true
                /\ Dict.get arguments k = Dict.get kwargs k)
          /\ (forall k,
                Dict.get run_kwargs k
                = if str_in k constructor_params then None
                  else Dict.get kwargs k)).
Proof.
  intros Hreach constructor_params run_kwargs. split.
  - destruct (call_logs_fn _ _ _ _ _ Hreach) as (calls & Htrace & Hcalls & _).
    exists calls. split; [|done]. rewrite Htrace.
    by destruct (reaches_fn_node _ _ _ _ _ Hreach) as [c ->].
  - destruct Hreach as (st1 & Hkwargs & Hbefore & Hload).
    apply run_before_hooks_frame in Hbefore as (Hnode & _ & calls & Ht & Hcalls).
    destruct (_eager (node st)) eqn:Heager.
    + subst st2. split; [|by eauto].
      unfold run_kwargs, run_kwargs_of. by rewrite Heager.
    + apply load_component_cases in Hload
        as [[_ [e [=]]]|(arguments & Hres & Hother & Hexplicit & Hcases)].
      destruct Hcases as [(v & ctor & _ & _ & -> & _)|(e & [=] & _)].
      exists calls, arguments. simpl. rewrite Hnode, Ht, <- app_assoc.
      split_and!; [done | done | | |].
      * intros k x Hk Hp.
        assert (Dict.get (minimal_kwargs kwargs (_constructor_fn (node st))) k
                = Some x) as Hmin
          by (rewrite get_minimal_kwargs; fold constructor_params;
              by rewrite Hp).
        destruct (decide (k = "resource")) as [->|Hne].
        { rewrite Hres. unfold resolved_resource. by rewrite Hmin. }
        destruct (decide (k ∈ explicit_keywords)) as [Hin|Hnin].
        { rewrite (Hexplicit k Hin Hne) in Hmin. done. }
        by rewrite Hother.
      * intros k Hk. rewrite (Hother k Hk), get_minimal_kwargs.
        fold constructor_params.
        destruct (str_in k constructor_params); [done|]. by intros [? ?].
      * intros k. by apply get_run_kwargs_of.
Qed.

(** *** When the component is instantiated *)

Lemma instantiations_trace w w' evs :
  trace w' = trace w ++ evs ->
  instantiations w'
  = instantiations w
    + length (filter (fun e => is_constructor_call e = true) evs).
Proof.
  intros Ht. unfold instantiations. by rewrite Ht, filter_app, length_app.
Qed.

(** C3, as the code has it.  [__init__] instantiates the component of an
    eager node, once, and leaves a lazy node without a component.  A call
    of an eager node never instantiates: the node keeps the instance it
    has.  A call of a lazy node that returns has called the constructor
    once, and the node now holds the instance made in that call.  Every
    call of a lazy node whose inputs project and whose before hooks
    return goes on to [_load_component] with the inputs that match the
    constructor: when one of them is named [config], [model_storage] or
    [execution_context] the call raises and no constructor is called;
    otherwise the constructor is called once in that call, with these
    inputs, whether the call then returns or not. *)
Theorem component_instantiation :
  (forall node_name component_class constructor_name component_config
          fn_name inputs eager model_storage resource execution_context
          hooks w w' self,
     __init__' node_name component_class constructor_name component_config
       fn_name inputs eager model_storage resource execution_context hooks w
     = (w', Ok self) ->
     _eager self = eager
     /\ if eager then
          instantiations w' = S (instantiations w)
          /\ exists v, _component self
                       = Some {| obj_id := next_id w; obj_val := v |}
        else w' = w /\ _component self = None)
  /\ (forall st inputs st' r,
        __call__' inputs st = (st', r) ->
        _eager (node st) = true ->
        node st' = node st
        /\ instantiations (world st') = instantiations (world st))
  /\ (forall st inputs st' out,
        __call__' inputs st = (st', Ok out) ->
        _eager (node st) = false ->
        instantiations (world st') = S (instantiations (world st))
        /\ exists v, _component (node st')
                     = Some {| obj_id := next_id (world st); obj_val := v |})
  /\ (forall st inputs kwargs outs st1 constructor,
        _eager (node st) = false ->
        getattr class_attrs (_component_class (node st))
          (_constructor_name (node st)) = Ok constructor ->
        project_inputs (_inputs (node st)) (Dict.of_pairs inputs) = Ok kwargs ->
        _run_before_hooks kwargs st = (st1, Ok outs) ->
        let constructor_kwargs :=
          minimal_kwargs kwargs (_constructor_fn (node st)) in
        let st' := (__call__' inputs st).1 in
        if existsb (Dict.contains constructor_kwargs) reserved_keywords then
          st' = st1
          /\ instantiations (world st') = instantiations (world st)
          /\ exists msg,
               (__call__' inputs st).2
               = Raise (GraphComponentException
                          (initializing_error (_node_name (node st)))
                          (TypeError msg))
        else
          instantiations (world st') = S (instantiations (world st))
          /\ exists calls,
               trace (world st')
               = trace (world st1)
                   ++ [CallConstructor (_node_name (node st))
                         (_constructor_name (node st))
                         (constructor_arguments (node st) constructor_kwargs)]
                   ++ calls
               /\ filter (fun e => is_constructor_call e = true) calls = []).
Proof.
  split_and!.
  - intros node_name component_class constructor_name component_config
      fn_name inputs eager model_storage resource execution_context hooks
      w w' self. unfold __init__.
    destruct (getattr _ _ constructor_name) as [ctor|e]; [|done].
    destruct (getattr _ _ fn_name) as [f|e]; [|done].
    destruct eager; [|by intros [= <- <-]].
    destruct (_load_component' _ _) as [st [[]|e]] eqn:Hload; [|done].
    intros [= <- <-].
    apply load_component_cases in Hload
      as [[_ [e [=]]]|(arguments & _ & _ & _ & Hcases)].
    destruct Hcases as [(v & c & _ & _ & -> & _)|(e & [=] & _)].
    simpl. split; [done|]. split; [|by eauto].
    rewrite (instantiations_trace w _ [CallConstructor node_name
                                         constructor_name arguments]);
      [simpl; lia | done].
  - intros st inputs st' r Hcall Heager.
    pose proof Hcall as Hcases. apply call_cases in Hcases
      as [[-> _]|[[Hhooks _]|[(kw & st1 & e & Hlazy & _)|Hreach]]].
    + done.
    + split; [apply Hhooks | by apply hooks_only_instantiations].
    + congruence.
    + destruct Hreach as (kwargs & outs & st2 & Hreach).
      destruct (call_logs_fn _ _ _ _ _ Hreach)
        as (calls & Htrace & Hcalls & Hnode & _).
      rewrite Hcall in Htrace, Hnode. simpl in Htrace, Hnode.
      destruct Hreach as (st1 & _ & Hbefore & Hload).
      rewrite Heager in Hload. subst st2.
      apply run_before_hooks_frame in Hbefore.
      split; [rewrite Hnode; apply Hbefore|].
      rewrite (instantiations_trace (world st1) _ _ Htrace).
      rewrite filter_cons, decide_False by done.
      rewrite (hook_calls_no_instantiation calls) by done.
      simpl. rewrite (hooks_only_instantiations _ _ Hbefore). lia.
  - intros st inputs st' out Hcall Hlazy.
    pose proof Hcall as Hcases. apply call_cases in Hcases
      as [[_ [e [=]]]|[[_ [e [=]]]|[(kw & st1 & e & _ & _ & _ & [=])|Hreach]]].
    destruct Hreach as (kwargs & outs & st2 & Hreach).
    destruct (call_logs_fn _ _ _ _ _ Hreach)
      as (calls & Htrace & Hcalls & Hnode & _).
    rewrite Hcall in Htrace, Hnode. simpl in Htrace, Hnode.
    destruct Hreach as (st1 & _ & Hbefore & Hload).
    rewrite Hlazy in Hload.
    apply run_before_hooks_frame in Hbefore.
    apply load_component_cases in Hload
      as [[_ [e [=]]]|(arguments & _ & _ & _ & Hload)].
    destruct Hload as [(v & c & _ & _ & -> & _)|(e & [=] & _)].
    split.
    + rewrite (instantiations_trace _ _ _ Htrace).
      rewrite filter_cons, decide_False by done.
      rewrite (hook_calls_no_instantiation calls) by done.
      simpl.
      rewrite (instantiations_trace (world st1) _
                 [CallConstructor (_node_name (node st1))
                    (_constructor_name (node st1)) arguments]) by done.
      simpl. rewrite (hooks_only_instantiations _ _ Hbefore). lia.
    + rewrite Hnode. simpl. destruct Hbefore as (_ & -> & _). eauto.
  - intros st inputs kwargs outs st1 constructor Hlazy Hctor Hkwargs Hbefore
      constructor_kwargs st'.
    pose proof (run_before_hooks_frame _ _ _ _ Hbefore) as Hframe.
    pose proof (hooks_only_instantiations _ _ Hframe) as Hcount.
    destruct Hframe as (Hnode & _).
    pose proof (call_load_error class_attrs st inputs kwargs outs st1)
      as Hcall.
    fold constructor_kwargs in Hcall.
    destruct (existsb (Dict.contains constructor_kwargs) reserved_keywords)
      eqn:Hreserved.
    + apply existsb_exists in Hreserved as (k & Hk%list_elem_of_In & Hin).
      destruct (load_component_reserved class_attrs constructor_kwargs st1
                  constructor k) as (msg & Hload).
      * by rewrite Hnode.
      * done.
      * unfold Dict.contains in Hin.
        by destruct (Dict.get constructor_kwargs k).
      * subst st'. rewrite (Hcall _ _ Hlazy Hkwargs Hbefore Hload), Hnode.
        simpl. split_and!; [done | done | by exists msg].
    + assert (forall k, k ∈ reserved_keywords ->
                       Dict.get constructor_kwargs k = None) as Hnone.
      { intros k Hk%list_elem_of_In.
        destruct (Dict.get constructor_kwargs k) as [v|] eqn:Hget; [|done].
        assert (existsb (Dict.contains constructor_kwargs) reserved_keywords
                = true) as Hyes; [|congruence].
        apply existsb_exists. exists k. split; [done|].
        unfold Dict.contains. by rewrite Hget. }
      pose proof (load_component_forward class_attrs constructor_kwargs st1
                    constructor) as Hload.
      rewrite Hnode in Hload. specialize (Hload Hctor Hnone).
      destruct (call constructor [] _) as [v|e] eqn:Hv.
      * assert (reaches_fn class_attrs st inputs kwargs outs
                  (instantiated st1
                     (constructor_arguments (node st) constructor_kwargs) v))
          as Hreach.
        { exists st1. split_and!; [done | done |]. by rewrite Hlazy. }
        destruct (call_logs_fn _ _ _ _ _ Hreach)
          as (calls & Htrace & Hcalls & _).
        simpl in Htrace. rewrite <- app_assoc, Hnode in Htrace.
        simpl in Htrace. subst st'.
        assert (filter (fun e => is_constructor_call e = true)
                  (CallFn (_node_name (node st)) (_fn_name (node st))
                     (component_value
                        (set_component (node st)
                           (Some {| obj_id := next_id (world st1);
                                    obj_val := v |})))
                     (run_kwargs_of (node st) kwargs) :: calls) = [])
          as Hnone'.
        { rewrite filter_cons, decide_False by done.
          by apply hook_calls_no_instantiation. }
        split.
        -- rewrite (instantiations_trace (world st1) _ _ Htrace).
           rewrite filter_cons, decide_True by done. rewrite Hnone'.
           simpl. lia.
        -- eexists. split; [exact Htrace | exact Hnone'].
      * subst st'. rewrite (Hcall _ _ Hlazy Hkwargs Hbefore Hload).
        simpl. split.
        -- rewrite (instantiations_trace (world st1) _
                      [CallConstructor (_node_name (node st))
                         (_constructor_name (node st))
                         (constructor_arguments (node st) constructor_kwargs)])
             by done.
           simpl. lia.
        -- by exists [].
Qed.
End node_theorems.

(** * The theorems on the example graph *)

Lemma needs_exist_checked s : needs_exist_check s = true -> needs_exist s.
Proof.
  unfold needs_exist_check. rewrite forallb_forall.
  intros Hall n node d Hin Hd. apply list_elem_of_In in Hin.
  specialize (Hall _ Hin). simpl in Hall. rewrite forallb_forall in Hall.
  apply str_in_spec, Hall. by apply list_elem_of_In.
Qed.

Lemma ranked_acyclic rank s : ranked rank s = true -> acyclic_from_targets s.
Proof.
  unfold ranked. rewrite forallb_forall. intros Hall.
  assert (forall n d, depends_on s n d -> rank d < rank n) as Hstep.
  { intros n d (node & Hn & Hd). apply get_Some_elem, list_elem_of_In in Hn.
    specialize (Hall _ Hn). simpl in Hall. rewrite forallb_forall in Hall.
    apply Nat.ltb_lt, Hall. by apply list_elem_of_In. }
  assert (forall n m, tc (depends_on s) n m -> rank m < rank n) as Htc.
  { induction 1 as [n m Hnm|n m k Hnm _ IH].
    - by apply Hstep.
    - apply Hstep in Hnm. lia. }
  intros n _ Hcycle. apply Htc in Hcycle. lia.
Qed.

Module SchemaInstance.
Import Example.

Lemma diamond_names : NoDup (Dict.keys (nodes diamond)).
Proof.
  apply (bool_decide_unpack (NoDup (Dict.keys (nodes diamond)))).
  vm_compute. exact I.
Defined.

Lemma from_dict_as_dict_witness :
  exists serialized_graph_schema,
    as_dict diamond = Ok serialized_graph_schema
    /\ (from_dict class_from_module_path py_str serialized_graph_schema).2
       = Ok diamond.
Proof.
  apply from_dict_as_dict; [exact diamond_names|].
  intros n node Hin. apply list_elem_of_In in Hin. simpl in Hin.
  repeat (destruct Hin as [[= <- <-]|Hin]; [split; reflexivity|]).
  destruct Hin.
Defined.

Lemma minimal_graph_schema_reachable_witness :
  exists s',
    minimal_graph_schema 6 diamond = Ok s'
    /\ (forall n, n ∈ Dict.keys (nodes s') <-> reachable diamond n)
    /\ NoDup (Dict.keys (nodes s'))
    /\ (forall n, reachable diamond n ->
          Dict.get (nodes s') n = Dict.get (nodes diamond) n)
    /\ minimal_graph_schema 6 s' = Ok s'.
Proof.
  apply minimal_graph_schema_reachable.
  - exact diamond_names.
  - apply needs_exist_checked. reflexivity.
  - apply (ranked_acyclic rank). reflexivity.
  - simpl. lia.
Defined.

Lemma from_dict_unimportable_witness :
  exists pre',
    from_dict class_from_module_path py_str unimportable
    = (pre' ++ [("F", VDict [("needs", VDict []);
                             ("uses", VStr "not.a.real.module.Foo");
                             ("constructor_name", VStr "create");
                             ("fn", VStr "run"); ("config", VDict []);
                             ("resource", VNone)])],
       Raise (GraphSchemaException
                "Error deserializing graph schema. Can't find class for graph component type 'not.a.real.module.Foo'."
                (ImportError "not.a.real.module.Foo"))).
Proof.
  apply (from_dict_unimportable class_from_module_path py_str
           (take 1 unimportable) "F" _ "not.a.real.module.Foo" []).
  - repeat constructor. eexists _, _, _. split; [reflexivity|].
    vm_compute. reflexivity.
  - reflexivity.
  - reflexivity.
Defined.

Lemma from_dict_missing_resource_witness :
  (from_dict class_from_module_path py_str without_resource).2
  = Raise (KeyError "resource").
Proof.
  apply (from_dict_missing_resource class_from_module_path py_str
           (take 1 without_resource) "A" _
           "tests.engine.components.Trainer" Trainer []).
  - repeat constructor. eexists _, _, _. split; [reflexivity|].
    vm_compute. reflexivity.
  - reflexivity.
  - reflexivity.
  - reflexivity.
Defined.

Lemma from_dict_mutates_argument_witness :
  Forall2 (item_mutated class_from_module_path)
    (serialized_schema diamond)
    (from_dict class_from_module_path py_str (serialized_schema diamond)).1
  /\ (serialized_schema diamond <> [] ->
      json_safe
        (VDict (from_dict class_from_module_path py_str
                  (serialized_schema diamond)).1)
      = false).
Proof.
  apply (from_dict_mutates_argument class_from_module_path py_str
           (serialized_schema diamond) _ diamond).
  vm_compute. reflexivity.
Defined.
(** C1, as the specification words it, fails: [as_dict] turns the
    [Resource] in the config of [resource_in_config] into a dictionary,
    and [from_dict] leaves a config as it finds it, so the schema that
    comes back has a dictionary where the original has a [Resource]. *)
Lemma resource_in_config_not_restored :
  ~ round_trip_lossless class_from_module_path py_str.
Proof.
  intros Hlossless.
  destruct (Hlossless resource_in_config) as (d & Hd & Hback).
  - apply (bool_decide_unpack (NoDup (Dict.keys (nodes resource_in_config)))).
    vm_compute. exact I.
  - apply needs_exist_checked. reflexivity.
  - intros n Hcycle.
    assert (forall a b, ~ depends_on resource_in_config a b) as Hnone.
    { intros a b (node & Hnode & Hin). unfold resource_in_config in Hnode.
      cbn [nodes Dict.get] in Hnode.
      destruct (String.eqb "T" a); [|done].
      injection Hnode as <-. inversion Hin. }
    inversion Hcycle as [? ? Hstep|? ? ? Hstep _]; by apply Hnone in Hstep.
  - intros n node Hin. apply list_elem_of_In in Hin. simpl in Hin.
    destruct Hin as [[= <- <-]|[]]. reflexivity.
  - vm_compute in Hd. injection Hd as <-.
    vm_compute in Hback. discriminate Hback.
Qed.

(** The diamond of the specification, and a schema with a cycle. *)

Example diamond_serialized : as_dict diamond = Ok (serialized_schema diamond).
Proof. reflexivity. Qed.

Example resource_in_config_flattened :
  as_dict resource_in_config
  = Ok [("T", VDict [ ("needs", VDict []);
                      ("uses", VStr "tests.engine.components.Trainer");
                      ("constructor_name", VStr "create");
                      ("fn", VStr "run");
                      ("config",
                       VDict [("store", VDict [("name", VStr "shared")])]);
                      ("eager", VBool false); ("is_target", VBool true);
                      ("is_input", VBool false); ("resource", VNone) ])].
Proof. reflexivity. Qed.

Example diamond_pruned : minimal_graph_schema 6 diamond = Ok pruned.
Proof. reflexivity. Qed.

Example cyclic_never_returns : minimal_graph_schema 1000 cyclic = Raise RecursionError.
Proof. vm_compute. reflexivity. Qed.

End SchemaInstance.

Module NodeInstance.
Import Example.

Lemma pair_eta {A B} (p : A * B) : p = (p.1, p.2).
Proof. by destruct p. Defined.

Lemma no_reserved_keyword (kwargs : dict pyval) :
  forallb (fun k => negb (Dict.contains kwargs k)) reserved_keywords = true ->
  forall k, k ∈ reserved_keywords -> Dict.get kwargs k = None.
Proof.
  rewrite forallb_forall. intros Hall k Hk%list_elem_of_In.
  specialize (Hall k Hk). unfold Dict.contains in Hall.
  by destruct (Dict.get kwargs k).
Defined.

(** The three ways of the resource: handed down at run time (the lazy
    node has a resource of its own, which loses), the node's own, and a
    new one named after the node. *)
Lemma constructor_resource_precedence_witness :
  (exists arguments,
     trace (world (_load_component class_attrs
                     [("resource", runtime); ("vocabulary", VList [])]
                     lazy_node).1)
     = trace (world lazy_node) ++ [CallConstructor "n" "load" arguments]
     /\ Dict.get arguments "resource" = Some runtime)
  /\ (exists arguments,
        trace (world (_load_component class_attrs [("vocabulary", VList [])]
                        lazy_node).1)
        = trace (world lazy_node) ++ [CallConstructor "n" "load" arguments]
        /\ Dict.get arguments "resource"
           = Some (VResource {| name := "static" |}))
  /\ (exists arguments,
        trace (world (_load_component class_attrs [] failing_node).1)
        = trace (world failing_node) ++ [CallConstructor "n" "create" arguments]
        /\ Dict.get arguments "resource" = Some (VResource {| name := "n" |})).
Proof.
  split_and!.
  - destruct (constructor_resource_precedence class_attrs
                [("resource", runtime); ("vocabulary", VList [])]
                lazy_node load eq_refl
                (no_reserved_keyword
                   [("resource", runtime); ("vocabulary", VList [])] eq_refl))
      as (arguments & _ & Htrace & Hsupplied & _).
    exists arguments. split; [exact Htrace|]. by apply Hsupplied.
  - destruct (constructor_resource_precedence class_attrs
                [("vocabulary", VList [])]
                lazy_node load eq_refl
                (no_reserved_keyword [("vocabulary", VList [])] eq_refl))
      as (arguments & _ & Htrace & _ & Hexisting & _).
    exists arguments. split; [exact Htrace|]. by apply Hexisting.
  - destruct (constructor_resource_precedence class_attrs []
                failing_node create eq_refl (no_reserved_keyword [] eq_refl))
      as (arguments & _ & Htrace & _ & _ & Hfresh).
    exists arguments. split; [exact Htrace|]. by apply Hfresh.
Defined.

Lemma lazy_reaches_fn :
  reaches_fn class_attrs lazy_node lazy_inputs lazy_kwargs
    [VDict lazy_kwargs] lazy_loaded.
Proof.
  exists lazy_before. split_and!; vm_compute; reflexivity.
Defined.

Lemma call_splits_inputs_witness :
  exists calls arguments,
    trace (world lazy_loaded)
    = trace (world lazy_node) ++ calls ++ [CallConstructor "n" "load" arguments]
    /\ Dict.get arguments "vocabulary" = Some (VList [VStr "hi"])
    /\ Dict.get arguments "resource" = Some runtime
    /\ Dict.get arguments "x" = None
    /\ Dict.get (run_kwargs_of (node lazy_node) lazy_kwargs) "x"
       = Some (VInt 5)
    /\ Dict.get (run_kwargs_of (node lazy_node) lazy_kwargs) "vocabulary"
       = None.
Proof.
  destruct (call_splits_inputs class_attrs lazy_node lazy_inputs lazy_kwargs
              [VDict lazy_kwargs] lazy_loaded lazy_reaches_fn)
    as (_ & calls & arguments & Htrace & _ & Hin & Hout & Hrun).
  exists calls, arguments. split_and!.
  - exact Htrace.
  - apply Hin; reflexivity.
  - apply Hin; reflexivity.
  - destruct (Dict.get arguments "x") eqn:Hx; [|reflexivity].
    destruct (Hout "x") as [Hp _]; [|by rewrite Hx|discriminate Hp].
    vm_compute. intros Hx'. apply list_elem_of_In in Hx'. simpl in Hx'.
    intuition discriminate.
  - rewrite Hrun. reflexivity.
  - rewrite Hrun. reflexivity.
Defined.

Lemma eager_reaches_fn :
  reaches_fn class_attrs eager_node [("parent", VInt 5)] [("x", VInt 5)]
    [VDict [("x", VInt 5)]] eager_before.
Proof.
  exists eager_before. split_and!; vm_compute; reflexivity.
Defined.

Lemma call_projects_inputs_by_name_witness :
  NoDup (Dict.keys (_inputs (node eager_node)))
  /\ CallFn "n" "run" (component_value (node eager_node)) [("x", VInt 5)]
     ∈ trace (world (__call__ class_attrs [("parent", VInt 5)] eager_node).1)
  /\ exists missing,
       __call__ class_attrs [] eager_node
       = (eager_node, Raise (KeyError missing)).
Proof.
  assert (NoDup (Dict.keys (_inputs (node eager_node)))) as Hnd.
  { vm_compute. repeat constructor; intros Hin; inversion Hin. }
  destruct (call_projects_inputs_by_name class_attrs eager_node
              [("parent", VInt 5)] Hnd) as [Hproj _].
  destruct (call_projects_inputs_by_name class_attrs eager_node [] Hnd)
    as [_ Hmissing].
  split_and!.
  - exact Hnd.
  - apply (Hproj _ _ _ eager_reaches_fn). reflexivity.
  - destruct (Hmissing "parent") as (missing & _ & _ & Hcall).
    + vm_compute. left.
    + reflexivity.
    + exists missing. exact Hcall.
Defined.

Lemma call_wraps_run_error_witness :
  (__call__ class_attrs [] failing_node).2
  = Raise (GraphComponentException
             "Error running graph component for node n."
             (PyException "ValueError" "boom")).
Proof.
  apply (call_wraps_run_error class_attrs failing_node [] [] [VDict []]
           failing_loaded (PyException "ValueError" "boom")).
  - exists failing_before. split_and!; vm_compute; reflexivity.
  - reflexivity.
  - reflexivity.
Defined.

Lemma component_instantiation_witness :
  instantiations (world (__call__ class_attrs lazy_inputs lazy_node).1) = 1
  /\ instantiations (world (__call__ class_attrs [("parent", VInt 5)]
                              eager_node).1) = 1
  /\ instantiations
       (world (__call__ class_attrs [("parent", VDict [])]
                 config_taking_node).1)
     = instantiations (world config_taking_node).
Proof.
  destruct (component_instantiation class_attrs get_default_config)
    as (_ & Heager & Hlazy & Hbranch).
  split_and!.
  - apply (Hlazy lazy_node lazy_inputs _ ("n", VInt 5)).
    + vm_compute. reflexivity.
    + reflexivity.
  - destruct (Heager eager_node [("parent", VInt 5)] _ _ (pair_eta _))
      as [_ ->]; reflexivity.
  - specialize (Hbranch config_taking_node [("parent", VDict [])]
                  [("config", VDict [])] [VDict [("config", VDict [])]]
                  (_run_before_hooks [("config", VDict [])]
                     config_taking_node).1
                  create eq_refl eq_refl eq_refl eq_refl).
    apply Hbranch.
Defined.

(** C3, as the specification words it, fails: the lazy node of the example, called
    twice, holds a component after the first call, and the second call
    instantiates again and leaves it another instance. *)
Lemma lazy_node_reinstantiated : ~ persists_once_created class_attrs.
Proof.
  intros Hpersists.
  destruct (Hpersists (__call__ class_attrs lazy_inputs lazy_node).1
              lazy_inputs _ _ (pair_eta _)) as [_ Hcount].
  - vm_compute. eauto.
  - vm_compute in Hcount. discriminate Hcount.
Qed.

(** The examples of the specification. *)

Example input_x_5 :
  (__call__ class_attrs [("parent", VInt 5)] eager_node).2 = Ok ("n", VInt 5)
  /\ CallFn "n" "run" (component_value (node eager_node)) [("x", VInt 5)]
     ∈ trace (world (__call__ class_attrs [("parent", VInt 5)] eager_node).1).
Proof. split; [reflexivity|]. vm_compute. do 2 right. left. Qed.

Example renamed_input :
  project_inputs [("y", "parent")] [("parent", VInt 5)] = Ok [("y", VInt 5)].
Proof. reflexivity. Qed.

Example lazy_node_two_calls :
  let once := (__call__ class_attrs lazy_inputs lazy_node).1 in
  let twice := (__call__ class_attrs lazy_inputs once).1 in
  instantiations (world once) = 1
  /\ instantiations (world twice) = 2
  /\ obj_id <$> _component (node once) = Some 0
  /\ obj_id <$> _component (node twice) = Some 1.
Proof. vm_compute. done. Qed.

End NodeInstance.

(** * More of [GraphSchema] *)

Section more_loop_facts.
Context {A B : Type}.
Implicit Types (xs : list A) (body : A -> B -> result B).

Lemma for_each_preserves (P : B -> Prop) xs acc body r :
  P acc ->
  (forall x a a', x ∈ xs -> P a -> body x a = Ok a' -> P a') ->
  for_each xs acc body = Ok r -> P r.
Proof.
  revert acc. induction xs as [|x xs IH]; intros acc Hacc Hstep; simpl.
  - by intros [= <-].
  - destruct (body x acc) as [a'|] eqn:Hx; simpl; [|done].
    apply IH; [eapply Hstep; [left|done..]|].
    intros y a a'' Hy. apply Hstep. by right.
Qed.

Lemma for_each_Ok_each xs acc body r :
  for_each xs acc body = Ok r ->
  forall x, x ∈ xs -> exists a a', body x a = Ok a'.
Proof.
  revert acc. induction xs as [|x xs IH]; intros acc; simpl.
  - intros _ y Hy. inversion Hy.
  - destruct (body x acc) as [a'|] eqn:Hx; simpl; [|done].
    intros Hr y [->|Hy]%elem_of_cons; [eauto|]. by eapply IH.
Qed.

Lemma for_each_Raise xs acc body e :
  for_each xs acc body = Raise e ->
  exists x a, x ∈ xs /\ body x a = Raise e.
Proof.
  revert acc. induction xs as [|x xs IH]; intros acc; simpl; [done|].
  destruct (body x acc) as [a'|e'] eqn:Hx; simpl.
  - intros (y & a & Hy & Hb)%IH. exists y, a. split; [by right | done].
  - intros [= ->]. exists x, acc. split; [left | done].
Qed.

Lemma for_each_mono xs acc body1 body2 r :
  (forall x a a', x ∈ xs -> body1 x a = Ok a' -> body2 x a = Ok a') ->
  for_each xs acc body1 = Ok r -> for_each xs acc body2 = Ok r.
Proof.
  revert acc. induction xs as [|x xs IH]; intros acc Hstep; simpl; [done|].
  destruct (body1 x acc) as [a'|] eqn:Hx; simpl; [|done].
  rewrite (Hstep x acc a') by (done || left). simpl.
  apply IH. intros y a a'' Hy. apply Hstep. by right.
Qed.
End more_loop_facts.

Section more_dependencies.
Variable s : GraphSchema.

(** Whatever the walk returns is a node: it has looked each one up. *)
Lemma all_dependencies_are_nodes limit : forall targets required,
  _all_dependencies_schema limit s targets = Ok required ->
  forall x, x ∈ required -> is_Some (Dict.get (nodes s) x).
Proof.
  induction limit as [|limit IH]; intros targets required; simpl; [done|].
  apply (for_each_preserves
           (fun acc => forall x, x ∈ acc -> is_Some (Dict.get (nodes s) x))).
  - intros x Hx. inversion Hx.
  - intros t acc acc' _ Hacc. unfold Dict.getitem.
    destruct (Dict.get (nodes s) t) as [node|] eqn:Hnode; simpl; [|done].
    apply (for_each_preserves
             (fun acc => forall x, x ∈ acc -> is_Some (Dict.get (nodes s) x))).
    + intros x [Hx| ->%list_elem_of_singleton]%elem_of_app; [auto|].
      by rewrite Hnode.
    + intros d a a' _ Ha.
      destruct (_all_dependencies_schema limit s [d]) as [deps|] eqn:Hdeps;
        simpl; [|done].
      intros [= <-] x [Hx|Hx]%elem_of_app; [auto|]. by eapply IH.
Qed.

(** The walk fails in two ways only. *)
Lemma all_dependencies_errors limit : forall targets e,
  _all_dependencies_schema limit s targets = Raise e ->
  e = RecursionError
  \/ exists k, e = KeyError k /\ Dict.get (nodes s) k = None
               /\ exists t, t ∈ targets /\ rtc (depends_on s) t k.
Proof.
  induction limit as [|limit IH]; intros targets e; simpl.
  - intros [= <-]. by left.
  - intros (t & acc & Ht & Hbody)%for_each_Raise. revert Hbody.
    unfold Dict.getitem.
    destruct (Dict.get (nodes s) t) as [node|] eqn:Hnode; simpl.
    + intros (d & acc' & Hd & Hbody)%for_each_Raise. revert Hbody.
      destruct (_all_dependencies_schema limit s [d]) as [deps|e'] eqn:Hdeps;
        simpl; [done|].
      intros [= ->]. apply IH in Hdeps as [->|(k & -> & Hk & d' & Hd' & Hreach)];
        [by left|].
      right. exists k. split_and!; [done..|].
      apply list_elem_of_singleton in Hd' as ->.
      exists t. split; [done|]. eapply rtc_l; [|done]. by exists node.
    + intros [= <-]. right. exists t. split_and!; [done..|].
      exists t. split; [done | apply rtc_refl].
Qed.

(** A larger limit changes nothing once the walk returns. *)
Lemma all_dependencies_limit limit : forall limit' targets required,
  limit <= limit' ->
  _all_dependencies_schema limit s targets = Ok required ->
  _all_dependencies_schema limit' s targets = Ok required.
Proof.
  induction limit as [|limit IH]; intros limit' targets required Hle; [done|].
  destruct limit' as [|limit']; [lia|]. simpl.
  apply for_each_mono. intros t acc acc' _.
  destruct (Dict.getitem (nodes s) t) as [node|]; simpl; [|done].
  apply for_each_mono. intros d a a' _.
  destruct (_all_dependencies_schema limit s [d]) as [deps|] eqn:Hdeps;
    simpl; [|done].
  rewrite (IH limit' [d] deps) by (lia || done). done.
Qed.

(** One step down costs one level of recursion. *)
Lemma all_dependencies_below limit targets required t y :
  _all_dependencies_schema limit s targets = Ok required ->
  t ∈ targets ->
  tc (depends_on s) t y ->
  exists limit' required',
    limit' < limit /\ _all_dependencies_schema limit' s [y] = Ok required'.
Proof.
  intros Hwalk Ht Hty. revert limit targets required Hwalk Ht.
  induction Hty as [t y Hty|t z y Htz _ IH]; intros limit targets required.
  - destruct limit as [|limit]; simpl; [done|].
    intros Hwalk Ht.
    destruct (for_each_Ok_each _ _ _ _ Hwalk t Ht) as (acc & acc' & Hbody).
    revert Hbody. destruct Hty as (node & Hnode & Hy).
    unfold Dict.getitem. rewrite Hnode. simpl. intros Hbody.
    destruct (for_each_Ok_each _ _ _ _ Hbody y Hy) as (a & a' & Hinner).
    destruct (_all_dependencies_schema limit s [y]) as [deps|] eqn:Hdeps;
      [|done].
    exists limit, deps. split; [lia | done].
  - destruct limit as [|limit]; simpl; [done|].
    intros Hwalk Ht.
    destruct (for_each_Ok_each _ _ _ _ Hwalk t Ht) as (acc & acc' & Hbody).
    revert Hbody. destruct Htz as (node & Hnode & Hz).
    unfold Dict.getitem. rewrite Hnode. simpl. intros Hbody.
    destruct (for_each_Ok_each _ _ _ _ Hbody z Hz) as (a & a' & Hinner).
    destruct (_all_dependencies_schema limit s [z]) as [deps|] eqn:Hdeps;
      [|done].
    destruct (IH limit [z] deps Hdeps) as (limit' & required' & Hlt & Hy);
      [left|].
    exists limit', required'. split; [lia | done].
Qed.

(** On a cycle the walk never returns. *)
Lemma all_dependencies_cycle n :
  tc (depends_on s) n n ->
  forall limit required, _all_dependencies_schema limit s [n] <> Ok required.
Proof.
  intros Hcycle limit. induction (lt_wf limit) as [limit _ IH].
  intros required Hwalk.
  destruct (all_dependencies_below _ _ _ n n Hwalk) as (l' & r' & Hlt & Hn);
    [left | done |].
  by eapply IH.
Qed.
End more_dependencies.

Lemma minimal_graph_schema_inv limit s s' :
  minimal_graph_schema limit s = Ok s' ->
  exists required,
    _all_dependencies_schema limit s (target_names s) = Ok required
    /\ s' = {| nodes := Dict.filter_keys (fun n => str_in n required) (nodes s) |}.
Proof.
  unfold minimal_graph_schema.
  destruct (_all_dependencies_schema limit s (target_names s)) as [required|];
    simpl; [|done].
  intros [= <-]. eauto.
Qed.

(** X1. Whatever [minimal_graph_schema] returns is cut out of the schema:
    its nodes are nodes of the schema, in the schema's order and unchanged;
    and every node of the schema that is marked [is_target] is among them,
    so the result has the targets of the schema and no other. *)
Theorem minimal_graph_schema_keeps_targets limit s s' :
  minimal_graph_schema limit s = Ok s' ->
  nodes s' `sublist_of` nodes s
  /\ (forall n, n ∈ Dict.keys (nodes s') ->
        Dict.get (nodes s') n = Dict.get (nodes s) n)
  /\ (forall t node, (t, node) ∈ nodes s -> is_target node = true ->
        (t, node) ∈ nodes s')
  /\ (forall t, is_target_node s' t <-> is_target_node s t).
Proof.
  intros (required & Hwalk & ->)%minimal_graph_schema_inv. simpl.
  assert (forall t node, (t, node) ∈ nodes s -> is_target node = true ->
            (t, node) ∈ Dict.filter_keys (fun n => str_in n required) (nodes s))
    as Htargets.
  { intros t node Hin Ht. apply list_elem_of_filter. split; [|done]. simpl.
    apply str_in_spec.
    apply (all_dependencies_elem s limit _ _ t Hwalk). exists t.
    split; [|done]. apply target_names_elem. eauto. }
  split_and!.
  - apply sublist_filter.
  - intros n [_ Hn]%keys_filter_keys. by rewrite get_filter_keys, Hn.
  - done.
  - intros t. unfold is_target_node. simpl. split.
    + intros (node & [_ Hin]%list_elem_of_filter & Ht). eauto.
    + intros (node & Hin & Ht). eauto.
Qed.

(** X2. Whatever [minimal_graph_schema] returns is closed under [needs]:
    every [needs] value of a node it keeps names a node it keeps, also when
    the schema it started from had dangling [needs] in dead nodes. *)
Theorem minimal_graph_schema_self_contained limit s s' :
  NoDup (Dict.keys (nodes s)) ->
  minimal_graph_schema limit s = Ok s' ->
  needs_exist s'.
Proof.
  intros Hnd (required & Hwalk & ->)%minimal_graph_schema_inv n node d. simpl.
  intros Hmem Hd. unfold Dict.filter_keys in Hmem.
  apply list_elem_of_filter in Hmem as [Hn Hin]. simpl in Hn.
  apply keys_filter_keys.
  assert (d ∈ required) as Hreq.
  { apply str_in_spec in Hn.
    apply (all_dependencies_elem s limit _ _ n Hwalk) in Hn as (t & Ht & Htn).
    apply (all_dependencies_elem s limit _ _ d Hwalk). exists t.
    split; [done|]. eapply rtc_r; [done|]. exists node. split; [|done].
    clear -Hnd Hin. unfold Dict.keys in Hnd.
    induction (nodes s) as [|[k v] l IH]; [inversion Hin|]. simpl.
    apply NoDup_cons in Hnd as [Hk Hnd].
    destruct (String.eqb_spec k n) as [->|Hne].
    - apply elem_of_cons in Hin as [[= ->]|Hin]; [done|].
      exfalso. apply Hk. apply list_elem_of_fmap. by exists (n, node).
    - apply elem_of_cons in Hin as [[= -> ->]|Hin]; [done|]. auto. }
  split; [|by apply str_in_spec].
  apply get_is_Some. by eapply all_dependencies_are_nodes.
Qed.

(** X3. When a node reachable from a target needs a name that is no node,
    [minimal_graph_schema] returns no schema, whatever the recursion limit:
    it raises [KeyError] for a missing node, or [RecursionError]. *)
Theorem minimal_graph_schema_dangling limit s n d :
  reachable s n ->
  depends_on s n d ->
  Dict.get (nodes s) d = None ->
  exists e,
    minimal_graph_schema limit s = Raise e
    /\ (e = RecursionError
        \/ exists k, e = KeyError k /\ Dict.get (nodes s) k = None).
Proof.
  intros (t & Ht & Htn)%reachable_target_names Hnd Hd.
  unfold minimal_graph_schema.
  destruct (_all_dependencies_schema limit s (target_names s))
    as [required|e] eqn:Hwalk; simpl.
  - exfalso.
    assert (d ∈ required) as Hin.
    { apply (all_dependencies_elem s limit _ _ d Hwalk). exists t.
      split; [done|]. by eapply rtc_r. }
    apply (all_dependencies_are_nodes s limit _ _ Hwalk) in Hin as [? Hin].
    congruence.
  - exists e. split; [done|].
    apply all_dependencies_errors in Hwalk as [->|(k & -> & Hk & _)];
      [by left | right; eauto].
Qed.

(** X4. On a schema whose [needs] values all name nodes and in which a node
    reachable from a target needs itself, directly or through others,
    [minimal_graph_schema] raises [RecursionError] whatever the recursion
    limit: it never returns. *)
Theorem minimal_graph_schema_cycle limit s n :
  needs_exist s ->
  reachable s n ->
  tc (depends_on s) n n ->
  minimal_graph_schema limit s = Raise RecursionError.
Proof.
  intros Hneeds (t & Ht & Htn)%reachable_target_names Hcycle.
  unfold minimal_graph_schema.
  destruct (_all_dependencies_schema limit s (target_names s))
    as [required|e] eqn:Hwalk; simpl.
  - exfalso.
    assert (tc (depends_on s) t n) as Htc.
    { apply rtc_tc in Htn as [->|Htn]; [done|]. by etrans. }
    destruct (all_dependencies_below s _ _ _ t n Hwalk Ht Htc)
      as (limit' & required' & _ & Hn).
    by eapply all_dependencies_cycle.
  - apply all_dependencies_errors in Hwalk
      as [->|(k & -> & Hk & t' & Ht' & Hreach)]; [done|].
    exfalso. apply eq_None_not_Some in Hk. apply Hk.
    apply rtc_inv_r in Hreach as [->|(m & _ & Hmk)].
    + by apply target_names_key.
    + by eapply depends_on_exists.
Qed.

(** X5. The recursion limit decides whether [minimal_graph_schema] returns,
    not what: a schema returned under one limit is returned under every
    larger one. *)
Theorem minimal_graph_schema_limit limit limit' s s' :
  limit <= limit' ->
  minimal_graph_schema limit s = Ok s' ->
  minimal_graph_schema limit' s = Ok s'.
Proof.
  intros Hle (required & Hwalk & ->)%minimal_graph_schema_inv.
  unfold minimal_graph_schema.
  by rewrite (all_dependencies_limit s limit limit' _ _ Hle Hwalk).
Qed.

(** A schema without a target has only dead nodes: the result is the
    empty schema. *)
Lemma minimal_graph_schema_no_target limit s :
  target_names s = [] ->
  0 < limit ->
  minimal_graph_schema limit s = Ok {| nodes := [] |}.
Proof.
  intros Hnone Hlimit. unfold minimal_graph_schema. rewrite Hnone.
  destruct limit as [|limit]; [lia|]. simpl. do 2 f_equal.
  unfold Dict.filter_keys. induction (nodes s) as [|[k v] l IH]; [done|].
  by rewrite filter_cons.
Qed.

(** * More of [as_dict] and [from_dict] *)

Lemma bind_plain {A B} (r : result A) (k : A -> result B) e :
  (forall e', r = Raise e' -> is_plain_error e' = true) ->
  (forall a e', k a = Raise e' -> is_plain_error e' = true) ->
  (r ≫= k) = Raise e -> is_plain_error e = true.
Proof. destruct r as [a|e']; simpl; [eauto | intros H _ [= <-]; eauto]. Qed.

Lemma getitem_plain {V} (d : dict V) k e :
  Dict.getitem d k = Raise e -> is_plain_error e = true.
Proof. unfold Dict.getitem. destruct (Dict.get d k); [done|]. by intros [= <-]. Qed.

Lemma as_str_plain v e : as_str v = Raise e -> is_plain_error e = true.
Proof. destruct v; simpl; try done; by intros [= <-]. Qed.

Lemma as_bool_plain v e : as_bool v = Raise e -> is_plain_error e = true.
Proof. destruct v; simpl; try done; by intros [= <-]. Qed.

Lemma as_class_plain v e : as_class v = Raise e -> is_plain_error e = true.
Proof. destruct v; simpl; try done; by intros [= <-]. Qed.

Lemma as_dict_of_any_plain v e :
  as_dict_of_any v = Raise e -> is_plain_error e = true.
Proof. destruct v; simpl; try done; by intros [= <-]. Qed.

Lemma as_optional_resource_plain v e :
  as_optional_resource v = Raise e -> is_plain_error e = true.
Proof. destruct v; simpl; try done; by intros [= <-]. Qed.

Lemma as_dict_of_str_plain v e :
  as_dict_of_str v = Raise e -> is_plain_error e = true.
Proof.
  destruct v; simpl; try done; try by intros [= <-].
  intros ([k x] & acc & _ & Hbody)%for_each_Raise. revert Hbody. simpl.
  apply bind_plain; [apply as_str_plain | done].
Qed.

Lemma check_kwargs_plain {V} cls fields required (kw : dict V) e :
  check_kwargs cls fields required kw = Raise e -> is_plain_error e = true.
Proof.
  unfold check_kwargs. repeat case_match; try done; by intros [= <-].
Qed.

Lemma field_plain {A} kw k (decode : pyval -> result A) default e :
  (forall v e', decode v = Raise e' -> is_plain_error e' = true) ->
  field kw k decode default = Raise e -> is_plain_error e = true.
Proof. unfold field. intros Hdecode. destruct (Dict.get kw k); [eauto | done]. Qed.

Lemma Resource_init_plain v e :
  Resource_init v = Raise e -> is_plain_error e = true.
Proof.
  destruct v; simpl; try by intros [= <-].
  apply bind_plain; [apply check_kwargs_plain|]. intros _ e'.
  apply bind_plain; [|done]. intros e''.
  apply bind_plain; [apply getitem_plain | intros ?; apply as_str_plain].
Qed.

Lemma SchemaNode_init_plain kw e :
  SchemaNode_init kw = Raise e -> is_plain_error e = true.
Proof.
  unfold SchemaNode_init.
  apply bind_plain; [apply check_kwargs_plain|]. intros _ e1.
  repeat (apply bind_plain;
          [intros ?; first
             [ apply bind_plain;
               [apply getitem_plain
               |intros ?; first [apply as_dict_of_str_plain | apply as_class_plain
                                | apply as_str_plain | apply as_dict_of_any_plain]]
             | apply field_plain; first [apply as_bool_plain
                                        | apply as_optional_resource_plain] ]
          |intros ? ?]).
  done.
Qed.

Section more_from_dict.
Variable class_from_module_path : string -> option ClassObj.
Variable py_str : pyval -> string.

Local Abbreviation from_dict_node' :=
  (from_dict_node class_from_module_path py_str).
Local Abbreviation from_dict_items' :=
  (from_dict_items class_from_module_path py_str).
Local Abbreviation from_dict' :=
  (from_dict class_from_module_path py_str).

(** Every way the loop body can raise. *)
Lemma from_dict_node_Raise sn sn' e :
  from_dict_node' sn = (sn', Raise e) ->
  is_plain_error e = true
  \/ exists path,
       Dict.get sn "uses" = Some (VStr path)
       /\ class_from_module_path path = None
       /\ e = GraphSchemaException (deserializing_error path)
                (ImportError path).
Proof.
  unfold from_dict_node, try_except, mbind, M_bind, getitemM, setitemM,
    raise, get_state, mret, M_ret, Dict.getitem; unfold lift.
  destruct (Dict.get sn "uses") as [u|] eqn:Huses; simpl;
    [|intros [= _ <-]; by left].
  destruct u as [ | | |path| | | | | ]; simpl;
    try (intros [= _ <-]; by left).
  destruct (class_from_module_path path) as [c|] eqn:Hclass; simpl.
  - rewrite get_set_ne by done.
    destruct (Dict.get sn "resource") as [rv|] eqn:Hres; simpl;
      [|intros [= _ <-]; by left].
    destruct (truthy rv); simpl.
    + destruct (Resource_init rv) as [r|e'] eqn:Hr; simpl.
      * destruct (SchemaNode_init _) eqn:Hinit; simpl; [done|].
        intros [= _ <-]. left. by eapply SchemaNode_init_plain.
      * apply Resource_init_plain in Hr. destruct e'; simpl in *; try done;
          intros [= _ <-]; by left.
    + destruct (SchemaNode_init _) eqn:Hinit; simpl; [done|].
      intros [= _ <-]. left. by eapply SchemaNode_init_plain.
  - rewrite Huses. simpl. intros [= _ <-]. right. eauto.
Qed.

Lemma from_dict_items_Raise items : forall acc items' e,
  from_dict_items' items acc = (items', Raise e) ->
  is_plain_error e = true
  \/ exists name sn path,
       (name, VDict sn) ∈ items
       /\ Dict.get sn "uses" = Some (VStr path)
       /\ class_from_module_path path = None
       /\ e = GraphSchemaException (deserializing_error path)
                (ImportError path).
Proof.
  induction items as [|[k v] items IH]; intros acc items' e; simpl; [done|].
  destruct v as [ | | | | |sn| | | ]; try (intros [= _ <-]; by left).
  destruct (from_dict_node' sn) as [sn' [node|e']] eqn:Hnode.
  - destruct (from_dict_items' items (Dict.set acc k node))
      as [rest' r] eqn:Hrest.
    intros [= _ ->].
    apply IH in Hrest as [?|(name & sn0 & path & Hin & ?)]; [by left|].
    right. exists name, sn0, path. split; [by right | done].
  - intros [= _ <-].
    apply from_dict_node_Raise in Hnode as [?|(path & ? & ? & ?)];
      [by left|].
    right. exists k, sn, path. split; [left | done].
Qed.

(** X6. [from_dict] raises [GraphSchemaException] for one reason only: a
    node of its argument whose [uses] is a path that cannot be imported.
    The message quotes that path and the cause is the [ImportError]. *)
Theorem from_dict_schema_exception serialized_graph_schema after msg cause :
  from_dict' serialized_graph_schema
  = (after, Raise (GraphSchemaException msg cause)) ->
  exists name sn path,
    (name, VDict sn) ∈ serialized_graph_schema
    /\ Dict.get sn "uses" = Some (VStr path)
    /\ class_from_module_path path = None
    /\ cause = ImportError path
    /\ msg = "Error deserializing graph schema. Can't find class for graph component type '"
               +:+ path +:+ "'.".
Proof.
  unfold from_dict.
  destruct (from_dict_items' serialized_graph_schema [])
    as [after' [nodes|e]] eqn:Hitems; [done|].
  intros [= _ ->].
  apply from_dict_items_Raise in Hitems
    as [?|(name & sn & path & ? & ? & ? & [= -> ->])]; [done|].
  exists name, sn, path. done.
Qed.

Lemma from_dict_items_keys items : forall acc items' nodes,
  NoDup (Dict.keys acc ++ Dict.keys items) ->
  from_dict_items' items acc = (items', Ok nodes) ->
  Dict.keys nodes = Dict.keys acc ++ Dict.keys items
  /\ Dict.keys items' = Dict.keys items.
Proof.
  unfold Dict.keys.
  induction items as [|[k v] items IH]; intros acc items' nodes Hnd; simpl.
  - intros [= <- <-]. by rewrite app_nil_r.
  - destruct v as [ | | | | |sn| | | ]; try done.
    destruct (from_dict_node' sn) as [sn' [node|e']] eqn:Hnode; [|done].
    destruct (from_dict_items' items (Dict.set acc k node))
      as [rest' r] eqn:Hrest.
    intros [= <- ->].
    assert (k ∉ acc.*1) as Hk.
    { apply NoDup_app in Hnd as (_ & Hdisj & _). intros Hin.
      apply (Hdisj _ Hin). left. }
    rewrite set_fresh in Hrest by done.
    apply IH in Hrest as [Hnodes Hrest].
    + rewrite fmap_app, <- app_assoc in Hnodes.
      split; [done|]. simpl. by f_equal.
    + rewrite fmap_app, <- app_assoc. done.
Qed.

(** X7. The schema [from_dict] returns has the node names of its argument,
    in the same order, and the argument keeps its names. *)
Theorem from_dict_node_names serialized_graph_schema after schema :
  NoDup (Dict.keys serialized_graph_schema) ->
  from_dict' serialized_graph_schema = (after, Ok schema) ->
  Dict.keys (nodes schema) = Dict.keys serialized_graph_schema
  /\ Dict.keys after = Dict.keys serialized_graph_schema.
Proof.
  intros Hnd. unfold from_dict.
  destruct (from_dict_items' serialized_graph_schema [])
    as [after' [nodes|e]] eqn:Hitems; [|done].
  intros [= <- <-]. by apply from_dict_items_keys in Hitems.
Qed.
End more_from_dict.

Lemma json_safe_plain_data : forall v,
  json_safe v = true -> plain_data v = true.
Proof.
  fix IH 1. intros [ | | | |l|d| | | ]; simpl; try done.
  - induction l as [|x l IHl]; simpl; [done|].
    intros [Hx Hl]%andb_prop. by rewrite (IH x), IHl.
  - induction d as [|[k x] d IHd]; simpl; [done|].
    intros [Hx Hd]%andb_prop. by rewrite (IH x), IHd.
Qed.

Lemma json_safe_set (d : dict pyval) k v :
  json_safe (VDict d) = true -> json_safe v = true ->
  json_safe (VDict (Dict.set d k v)) = true.
Proof.
  simpl. intros Hd Hv. induction d as [|[k' v'] d IH]; simpl in *.
  - by rewrite Hv.
  - apply andb_prop in Hd as [Hv' Hd].
    destruct (String.eqb_spec k' k); simpl.
    + by rewrite Hv, Hd.
    + by rewrite Hv', IH.
Qed.

Lemma json_safe_serialized node :
  json_safe (VDict (config node)) = true ->
  json_safe (VDict (serialized node)) = true.
Proof.
  intros Hconfig. unfold serialized.
  assert (json_safe (VDict (prod_map id VStr <$> needs node)) = true) as Hneeds.
  { simpl. by induction (needs node) as [|[k v] l IH]. }
  assert (json_safe (match resource node with
                     | Some r => VDict [("name", VStr (name r))]
                     | None => VNone
                     end) = true) as Hresource
    by (by destruct (resource node)).
  revert Hneeds Hresource Hconfig.
  generalize (VDict (prod_map id VStr <$> needs node)) (VDict (config node))
    (match resource node with
     | Some r => VDict [("name", VStr (name r))]
     | None => VNone
     end).
  intros vn vc vr Hn Hr Hc. cbn -[json_safe dotted_path].
  cbn [json_safe forallb]. by rewrite Hn, Hc, Hr.
Qed.

(** X8. [as_dict] returns, and what it returns is JSON data, whenever the
    configs of the nodes are JSON data: the class of every node has become
    a string. *)
Theorem as_dict_json_safe (s : GraphSchema) :
  (forall n node, (n, node) ∈ nodes s ->
     json_safe (VDict (config node)) = true) ->
  exists serialized_graph_schema,
    as_dict s = Ok serialized_graph_schema
    /\ json_safe (VDict serialized_graph_schema) = true.
Proof.
  intros Hconfig. unfold as_dict.
  assert (json_safe (VDict []) = true) as Hacc by done. revert Hacc.
  generalize (@nil (string * pyval)).
  induction (nodes s) as [|[k node] l IH]; intros acc Hacc; [by exists acc|].
  simpl.
  pose proof (asdict_serialized node
                (json_safe_plain_data _ (Hconfig k node (list_elem_of_here _ _))))
    as Hnode.
  destruct (asdict node) as [d|e]; simpl in Hnode; [|done].
  injection Hnode as Hnode. simpl. rewrite Hnode.
  apply IH.
  - intros n node' Hin. apply (Hconfig n). by right.
  - apply json_safe_set; [done|].
    apply json_safe_serialized. apply (Hconfig k). left.
Qed.

(** * More of [GraphNode] *)

Lemma add_events_nil st : add_events st [] = st.
Proof. destruct st as [n [t i]]. unfold add_events. simpl. by rewrite app_nil_r. Qed.

Lemma add_events_app st a b :
  add_events (add_events st a) b = add_events st (a ++ b).
Proof. unfold add_events. simpl. by rewrite app_assoc. Qed.

Lemma for_eachM_cons {S A B} (x : A) xs (acc : B) (body : A -> B -> M S B) s :
  for_eachM (x :: xs) acc body s
  = match body x acc s with
    | (s', Ok a) => for_eachM xs a body s'
    | (s', Raise e) => (s', Raise e)
    end.
Proof. reflexivity. Qed.

Section hook_facts.

Lemma run_before_hooks_unfold kwargs st :
  _run_before_hooks kwargs st
  = for_eachM (_hooks (node st)) [] (before_hook_body (node st) kwargs) st.
Proof. reflexivity. Qed.

Lemma run_after_hooks_unfold outs output st :
  _run_after_hooks outs output st
  = for_eachM (zip (_hooks (node st)) outs) tt
      (after_hook_body (node st) output) st.
Proof. reflexivity. Qed.

Lemma before_hook_body_Ok self kwargs hook acc st out :
  before_hook_returns self kwargs hook (Ok out) ->
  before_hook_body self kwargs hook acc st
  = (add_events st [before_hook_call self kwargs], Ok (acc ++ [out])).
Proof.
  unfold before_hook_returns, before_hook_body. unfold_M. simpl.
  by intros ->.
Qed.

Lemma before_hook_body_Raise self kwargs hook acc st e :
  before_hook_returns self kwargs hook (Raise e) ->
  before_hook_body self kwargs hook acc st
  = (add_events st [before_hook_call self kwargs],
     Raise (if is_Exception e
            then GraphComponentException
                   (before_hook_error (_node_name self)) e
            else e)).
Proof.
  unfold before_hook_returns, before_hook_body. unfold_M. simpl.
  intros ->. simpl. by destruct (is_Exception e).
Qed.

Lemma after_hook_body_Ok self output hook data st :
  after_hook_returns self output hook data (Ok tt) ->
  after_hook_body self output (hook, data) tt st
  = (add_events st [after_hook_call self output data], Ok tt).
Proof.
  unfold after_hook_returns, after_hook_body. unfold_M. simpl.
  by intros ->.
Qed.

Lemma after_hook_body_Raise self output hook data st e :
  after_hook_returns self output hook data (Raise e) ->
  after_hook_body self output (hook, data) tt st
  = (add_events st [after_hook_call self output data],
     Raise (if is_Exception e
            then GraphComponentException
                   (after_hook_error (_node_name self)) e
            else e)).
Proof.
  unfold after_hook_returns, after_hook_body. unfold_M. simpl.
  intros ->. simpl. by destruct (is_Exception e).
Qed.

(** The before hooks when all of them return. *)
Lemma before_hooks_all self kwargs hooks : forall st acc outs,
  Forall2 (fun hook out => before_hook_returns self kwargs hook (Ok out))
    hooks outs ->
  for_eachM hooks acc (before_hook_body self kwargs) st
  = (add_events st (replicate (length hooks) (before_hook_call self kwargs)),
     Ok (acc ++ outs)).
Proof.
  induction hooks as [|h hooks IH]; intros st acc outs Houts.
  - inversion Houts; subst. simpl. by rewrite add_events_nil, app_nil_r.
  - inversion Houts as [|? out ? outs' Hh Hrest]; subst.
    rewrite for_eachM_cons, (before_hook_body_Ok _ _ _ _ _ _ Hh).
    rewrite (IH _ _ _ Hrest), add_events_app, <- app_assoc. done.
Qed.

(** The before hooks up to the first that raises. *)
Lemma before_hooks_first_error self kwargs pre hook post : forall st acc outs e,
  Forall2 (fun hook out => before_hook_returns self kwargs hook (Ok out))
    pre outs ->
  before_hook_returns self kwargs hook (Raise e) ->
  for_eachM (pre ++ hook :: post) acc (before_hook_body self kwargs) st
  = (add_events st (replicate (S (length pre)) (before_hook_call self kwargs)),
     Raise (if is_Exception e
            then GraphComponentException
                   (before_hook_error (_node_name self)) e
            else e)).
Proof.
  induction pre as [|h pre IH]; intros st acc outs e Hpre Hhook.
  - cbn [app length].
    by rewrite for_eachM_cons, (before_hook_body_Raise _ _ _ _ _ _ Hhook).
  - inversion Hpre as [|? out ? outs' Hh Hrest]; subst.
    rewrite <- app_comm_cons, for_eachM_cons,
      (before_hook_body_Ok _ _ _ _ _ _ Hh).
    rewrite (IH _ _ _ _ Hrest Hhook), add_events_app. done.
Qed.

(** What the before hooks have answered when they have all returned. *)
Lemma before_hooks_Ok_inv self kwargs hooks : forall st acc st' outs,
  for_eachM hooks acc (before_hook_body self kwargs) st = (st', Ok outs) ->
  exists outs',
    outs = acc ++ outs'
    /\ Forall2 (fun hook out => before_hook_returns self kwargs hook (Ok out))
         hooks outs'.
Proof.
  induction hooks as [|h hooks IH]; intros st acc st' outs.
  - simpl. unfold_M. intros [= <- <-]. exists []. by rewrite app_nil_r.
  - rewrite for_eachM_cons.
    destruct (on_before_node h (_node_name self) (_execution_context self)
                (_component_config self) kwargs) as [out|e] eqn:Hh.
    + rewrite (before_hook_body_Ok _ _ _ _ _ _ Hh).
      intros (outs' & -> & Hrest)%IH. exists (out :: outs').
      rewrite <- app_assoc. split; [done|]. by constructor.
    + by rewrite (before_hook_body_Raise _ _ _ _ _ _ Hh).
Qed.

(** The after hooks when all of them return. *)
Lemma after_hooks_all self output items : forall st,
  Forall (fun item => after_hook_returns self output item.1 item.2 (Ok tt))
    items ->
  for_eachM items tt (after_hook_body self output) st
  = (add_events st ((fun item => after_hook_call self output item.2) <$> items),
     Ok tt).
Proof.
  induction items as [|[h o] items IH]; intros st Hitems.
  - simpl. by rewrite add_events_nil.
  - apply Forall_cons in Hitems as [Hh Hrest].
    rewrite for_eachM_cons, (after_hook_body_Ok _ _ _ _ _ Hh).
    rewrite (IH _ Hrest), add_events_app. done.
Qed.

Lemma after_hooks_first_error self output pre h o post : forall st e,
  Forall (fun item => after_hook_returns self output item.1 item.2 (Ok tt))
    pre ->
  after_hook_returns self output h o (Raise e) ->
  for_eachM (pre ++ (h, o) :: post) tt (after_hook_body self output) st
  = (add_events st ((fun item => after_hook_call self output item.2)
                      <$> pre ++ [(h, o)]),
     Raise (if is_Exception e
            then GraphComponentException
                   (after_hook_error (_node_name self)) e
            else e)).
Proof.
  induction pre as [|[h' o'] pre IH]; intros st e Hpre Hhook.
  - cbn [app].
    by rewrite for_eachM_cons, (after_hook_body_Raise _ _ _ _ _ _ Hhook).
  - apply Forall_cons in Hpre as [Hh Hrest].
    rewrite <- !app_comm_cons, for_eachM_cons,
      (after_hook_body_Ok _ _ _ _ _ Hh).
    rewrite (IH _ _ Hrest Hhook), add_events_app. done.
Qed.

Lemma after_hooks_Ok_inv self output items : forall st st',
  for_eachM items tt (after_hook_body self output) st = (st', Ok tt) ->
  Forall (fun item => after_hook_returns self output item.1 item.2 (Ok tt))
    items.
Proof.
  induction items as [|[h o] items IH]; intros st st'; [by constructor|].
  rewrite for_eachM_cons.
  destruct (on_after_node h (_node_name self) (_execution_context self)
              (_component_config self) output o) as [[]|e] eqn:Hh.
  - rewrite (after_hook_body_Ok _ _ _ _ _ Hh). intros Hrest%IH.
    by constructor.
  - by rewrite (after_hook_body_Raise _ _ _ _ _ _ Hh).
Qed.
End hook_facts.

Section more_dict_facts.
Context {V : Type}.
Implicit Types (d : dict V) (k : string).

Lemma get_update d pairs k :
  Dict.get (Dict.update d pairs) k
  = match Dict.get (reverse pairs) k with
    | Some v => Some v
    | None => Dict.get d k
    end.
Proof.
  unfold Dict.update. revert d.
  induction pairs as [|[k0 v0] pairs IH]; intros d; simpl; [done|].
  rewrite IH, reverse_cons, get_app. destruct (Dict.get (reverse pairs) k);
    [done|]. simpl.
  destruct (String.eqb_spec k0 k) as [->|Hne].
  - by rewrite get_set_eq.
  - by rewrite get_set_ne.
Qed.

Lemma get_reverse_NoDup d k :
  NoDup (Dict.keys d) -> Dict.get (reverse d) k = Dict.get d k.
Proof.
  unfold Dict.keys. induction d as [|[k0 v0] d IH]; [done|].
  intros [Hk Hd]%NoDup_cons. rewrite reverse_cons, get_app, IH by done.
  simpl. destruct (String.eqb_spec k0 k) as [->|Hne].
  - by rewrite (proj2 (get_None d k)).
  - by destruct (Dict.get d k).
Qed.

Lemma get_of_pairs_last (l1 l2 : list (string * V)) k v :
  k ∉ l2.*1 -> Dict.get (Dict.of_pairs (l1 ++ (k, v) :: l2)) k = Some v.
Proof.
  intros Hk. unfold Dict.of_pairs. rewrite get_update.
  rewrite reverse_app, reverse_cons, <- app_assoc, get_app.
  rewrite (proj2 (get_None (reverse l2) k)).
  - simpl. by rewrite String.eqb_refl.
  - unfold Dict.keys. by rewrite fmap_reverse, elem_of_reverse.
Qed.
End more_dict_facts.

Section more_node.
Variable class_attrs : ClassObj -> dict Callable.
Variable get_default_config : ClassObj -> dict pyval.

Local Abbreviation _load_component' := (_load_component class_attrs).
Local Abbreviation __call__' := (__call__ class_attrs).
Local Abbreviation __init__' := (__init__ class_attrs get_default_config).

Lemma zip_after_hooks self output (hooks : list GraphNodeHook) outs :
  length hooks = length outs ->
  Forall (fun item => after_hook_returns self output item.1 item.2 (Ok tt))
    (zip hooks outs) ->
  Forall2 (fun hook o => after_hook_returns self output hook o (Ok tt))
    hooks outs.
Proof.
  revert outs. induction hooks as [|h hooks IH]; intros [|o outs]; simpl;
    try done.
  intros [= Hlen] [Hh Hrest]%Forall_cons. constructor; [done | auto].
Qed.

Lemma after_hooks_zip self output (hooks : list GraphNodeHook) outs :
  Forall2 (fun hook o => after_hook_returns self output hook o (Ok tt))
    hooks outs ->
  Forall (fun item => after_hook_returns self output item.1 item.2 (Ok tt))
    (zip hooks outs).
Proof. induction 1; simpl; by constructor. Qed.

(** X9. A call that returns has gone through the whole protocol, in this
    order: every before hook, in registration order, on the projected
    inputs; for a lazy node the constructor; the run function; every after
    hook, each with what its own before hook returned and with the output;
    and it returns the node's name with the output of the run function. *)
Theorem call_protocol st inputs st' out :
  __call__' inputs st = (st', Ok out) ->
  exists kwargs outs output constructed,
    project_inputs (_inputs (node st)) (Dict.of_pairs inputs) = Ok kwargs
    /\ Forall2 (fun hook o => before_hook_returns (node st) kwargs hook (Ok o))
         (_hooks (node st)) outs
    /\ (if _eager (node st) then constructed = []
        else exists arguments,
               constructed = [CallConstructor (_node_name (node st))
                                (_constructor_name (node st)) arguments])
    /\ call (_fn (node st)) [component_value (node st')]
         (run_kwargs_of (node st) kwargs) = Ok output
    /\ Forall2 (fun hook o => after_hook_returns (node st) output hook o (Ok tt))
         (_hooks (node st)) outs
    /\ out = (_node_name (node st), output)
    /\ trace (world st')
       = trace (world st)
           ++ replicate (length (_hooks (node st)))
                (before_hook_call (node st) kwargs)
           ++ constructed
           ++ [CallFn (_node_name (node st)) (_fn_name (node st))
                 (component_value (node st'))
                 (run_kwargs_of (node st) kwargs)]
           ++ (after_hook_call (node st) output <$> outs).
Proof.
  intros Hcall. pose proof Hcall as Hcases.
  apply call_cases in Hcases
    as [[_ [e [=]]]|[[_ [e [=]]]|[(kw & st1 & e & _ & _ & _ & [=])|Hreach]]].
  destruct Hreach as (kwargs & outs & st2 & Hreach).
  rewrite (call_from_fn _ _ _ _ _ _ Hreach) in Hcall.
  destruct (reaches_fn_node _ _ _ _ _ _ Hreach) as [c Hnode2].
  destruct Hreach as (st1 & Hkwargs & Hbefore & Hload).
  rewrite run_before_hooks_unfold in Hbefore.
  destruct (before_hooks_Ok_inv _ _ _ _ _ _ _ Hbefore) as (outs' & -> & Houts).
  simpl in Houts |- *. rewrite (before_hooks_all _ _ _ _ _ _ Houts) in Hbefore.
  injection Hbefore as <-.
  assert (length (_hooks (node st)) = length outs') as Hlen
    by (by eapply Forall2_length).
  destruct (call (_fn (node st2)) _ _) as [output|e] eqn:Hfn; [|done].
  rewrite run_after_hooks_unfold in Hcall. simpl in Hcall.
  destruct (for_eachM _ _ _ _) as [st4 [[]|e]] eqn:Hafter; [|done].
  injection Hcall as <- <-.
  pose proof (after_hooks_Ok_inv _ _ _ _ _ Hafter) as Hafters.
  rewrite (after_hooks_all _ _ _ _ Hafters) in Hafter.
  injection Hafter as <-.
  rewrite Hnode2 in *. simpl in Hafters, Hfn |- *.
  assert ((fun item : GraphNodeHook * pyval =>
             after_hook_call (set_component (node st) c) output item.2)
            <$> zip (_hooks (node st)) outs'
          = after_hook_call (node st) output <$> outs') as Hmap.
  { rewrite <- (snd_zip (_hooks (node st)) outs') at 2 by lia.
    by rewrite <- list_fmap_compose. }
  rewrite Hmap.
  exists kwargs, outs', output.
  destruct (_eager (node st)) eqn:Heager.
  - subst st2. exists []. split_and!; try done.
    + by apply zip_after_hooks.
    + simpl. by rewrite <- !app_assoc.
  - apply load_component_cases in Hload
      as [[_ [e [=]]]|(arguments & _ & _ & _ & Hload)].
    destruct Hload as [(v & ctor & _ & _ & -> & _)|(e & [=] & _)].
    exists [CallConstructor (_node_name (node st))
              (_constructor_name (node st)) arguments].
    split_and!; try done; [by eauto | by apply zip_after_hooks |].
    simpl. by rewrite <- !app_assoc.
Qed.

(** X10. A before hook that raises stops the call where it is: the call
    raises [GraphComponentException] with the before-hook message that
    names the node and the hook's exception as its cause; the hooks after
    it, the constructor and the run function are not called. *)
Theorem call_before_hook_error st inputs kwargs pre hook post outs e :
  project_inputs (_inputs (node st)) (Dict.of_pairs inputs) = Ok kwargs ->
  _hooks (node st) = pre ++ hook :: post ->
  Forall2 (fun hook o => before_hook_returns (node st) kwargs hook (Ok o))
    pre outs ->
  before_hook_returns (node st) kwargs hook (Raise e) ->
  is_Exception e = true ->
  __call__' inputs st
  = (add_events st (replicate (S (length pre))
                      (before_hook_call (node st) kwargs)),
     Raise (GraphComponentException
              ("Error running before hook for node "
                 +:+ _node_name (node st) +:+ ".") e)).
Proof.
  intros Hkwargs Hhooks Hpre Hhook He.
  unfold __call__. unfold mbind at 1, M_bind at 1, get_state.
  unfold mbind at 1, M_bind at 1. unfold lift at 1. rewrite Hkwargs.
  unfold mbind at 1, M_bind at 1.
  rewrite run_before_hooks_unfold, Hhooks,
    (before_hooks_first_error _ _ _ _ _ _ _ _ _ Hpre Hhook), He.
  done.
Qed.

(** X11. An after hook that raises makes the call raise
    [GraphComponentException] with the after-hook message and the hook's
    exception as its cause, although the run function has returned: the
    output is lost, the after hooks behind it are not called, and a lazy
    node keeps the component it has just made. *)
Theorem call_after_hook_error st inputs kwargs st2 output
    pre hook post pouts o rest e :
  reaches_fn class_attrs st inputs kwargs (pouts ++ o :: rest) st2 ->
  call (_fn (node st2)) [component_value (node st2)]
    (run_kwargs_of (node st) kwargs) = Ok output ->
  _hooks (node st) = pre ++ hook :: post ->
  Forall2 (fun hook o => after_hook_returns (node st) output hook o (Ok tt))
    pre pouts ->
  after_hook_returns (node st) output hook o (Raise e) ->
  is_Exception e = true ->
  __call__' inputs st
  = (add_events st2
       ([CallFn (_node_name (node st)) (_fn_name (node st))
           (component_value (node st2)) (run_kwargs_of (node st) kwargs)]
          ++ (after_hook_call (node st) output <$> pouts ++ [o])),
     Raise (GraphComponentException
              ("Error running after hook for node "
                 +:+ _node_name (node st) +:+ ".") e)).
Proof.
  intros Hreach Hfn Hhooks Hpre Hhook He.
  rewrite (call_from_fn _ _ _ _ _ _ Hreach), Hfn.
  destruct (reaches_fn_node _ _ _ _ _ _ Hreach) as [c Hnode2].
  rewrite run_after_hooks_unfold. simpl. rewrite Hnode2. simpl.
  rewrite Hhooks.
  assert (length pre = length pouts) as Hlen by (by eapply Forall2_length).
  rewrite zip_with_app by done. simpl.
  rewrite (after_hooks_first_error (set_component (node st) c) output
             (zip pre pouts) hook o (zip post rest) _ e).
  - rewrite He. unfold add_events. simpl. rewrite Hnode2. simpl.
    do 3 f_equal. rewrite <- app_assoc. simpl. do 2 f_equal.
    rewrite !fmap_app. f_equal.
    rewrite <- (snd_zip pre pouts) at 2 by lia.
    by rewrite <- list_fmap_compose.
  - by apply after_hooks_zip.
  - done.
Qed.

(** X13. [__init__] lays the node's config over the defaults of the
    class: a key of the node's config has the node's value, any other key
    its default; an eager node's constructor is called with this merged
    config. *)
Theorem init_merges_config node_name component_class constructor_name
    component_config fn_name inputs eager model_storage resource
    execution_context hooks w w' self :
  NoDup (Dict.keys component_config) ->
  __init__' node_name component_class constructor_name component_config
    fn_name inputs eager model_storage resource execution_context hooks w
  = (w', Ok self) ->
  (forall k,
     Dict.get (_component_config self) k
     = match Dict.get component_config k with
       | Some v => Some v
       | None => Dict.get (get_default_config component_class) k
       end)
  /\ (eager = true ->
      exists arguments,
        trace w' = trace w ++ [CallConstructor node_name constructor_name
                                 arguments]
        /\ Dict.get arguments "config"
           = Some (VDict (_component_config self))).
Proof.
  intros Hnd. unfold __init__.
  destruct (getattr _ _ constructor_name) as [ctor|e] eqn:Hctor; [|done].
  destruct (getattr _ _ fn_name) as [f|e]; [|done].
  set (self0 := {| _node_name := node_name; _component := None |}).
  assert (forall k,
            Dict.get (_component_config self0) k
            = match Dict.get component_config k with
              | Some v => Some v
              | None => Dict.get (get_default_config component_class) k
              end) as Hmerge.
  { intros k. simpl. by rewrite get_update, get_reverse_NoDup. }
  destruct eager.
  - rewrite (load_component_forward class_attrs [] {| node := self0; world := w |} ctor)
      by done.
    destruct (call ctor [] _) as [v|e]; [|done].
    intros [= <- <-]. split; [done|]. intros _. eexists. split; [done|].
    done.
  - intros [= <- <-]. split; [done | done].
Qed.

(** [__init__] looks up the constructor and the run function before
    anything else: when the class lacks one of them it raises
    [AttributeError] for that name and nothing is instantiated, eager node
    or not. *)
Lemma init_missing_attribute node_name component_class constructor_name
    component_config fn_name inputs eager model_storage resource
    execution_context hooks w :
  (Dict.get (class_attrs component_class) constructor_name = None ->
   __init__' node_name component_class constructor_name component_config
     fn_name inputs eager model_storage resource execution_context hooks w
   = (w, Raise (AttributeError constructor_name)))
  /\ (is_Some (Dict.get (class_attrs component_class) constructor_name) ->
      Dict.get (class_attrs component_class) fn_name = None ->
      __init__' node_name component_class constructor_name component_config
        fn_name inputs eager model_storage resource execution_context hooks w
      = (w, Raise (AttributeError fn_name))).
Proof.
  unfold __init__, getattr. split.
  - by intros ->.
  - intros [ctor ->] ->. done.
Qed.

(** X14. When the constructor of an eager node raises, [__init__] raises
    [GraphComponentException] with the message that names the node and the
    constructor's exception as its cause; no node comes out. *)
Theorem init_constructor_error node_name component_class constructor_name
    component_config fn_name inputs model_storage resource
    execution_context hooks w constructor e :
  Dict.get (class_attrs component_class) constructor_name = Some constructor ->
  is_Some (Dict.get (class_attrs component_class) fn_name) ->
  call constructor []
    [ ("config", VDict (Dict.update (get_default_config component_class)
                          component_config));
      ("model_storage", model_storage);
      ("resource", match resource with
                   | Some r => VResource r
                   | None => VResource {| name := node_name |}
                   end);
      ("execution_context", execution_context) ] = Raise e ->
  is_Exception e = true ->
  exists w',
    __init__' node_name component_class constructor_name component_config
      fn_name inputs true model_storage resource execution_context hooks w
    = (w', Raise (GraphComponentException
                    ("Error initializing graph component for node "
                       +:+ node_name +:+ ".") e))
    /\ instantiations w' = S (instantiations w).
Proof.
  intros Hctor [f Hf] Hcall He. unfold __init__, getattr.
  rewrite Hctor, Hf.
  set (self0 := {| _node_name := node_name; _component := None |}).
  rewrite (load_component_forward class_attrs [] {| node := self0; world := w |}
             constructor);
    [|by unfold getattr; simpl; rewrite Hctor|done].
  cbn [node].
  match type of Hcall with
  | call _ _ ?args = _ =>
      assert (constructor_arguments self0 [] = args) as ->
  end.
  { unfold constructor_arguments, resolved_resource. simpl.
    by destruct resource. }
  rewrite Hcall, He. simpl. eexists. split; [done|].
  unfold instantiations. simpl. rewrite filter_app, length_app. simpl. lia.
Qed.

(** X15. When the constructor of a lazy node raises during a call, the
    call raises [GraphComponentException] with the initializing message
    and the constructor's exception as its cause, after the before hooks
    and without calling the run function. *)
Theorem call_constructor_error st inputs kwargs outs constructor e :
  _eager (node st) = false ->
  project_inputs (_inputs (node st)) (Dict.of_pairs inputs) = Ok kwargs ->
  Forall2 (fun hook o => before_hook_returns (node st) kwargs hook (Ok o))
    (_hooks (node st)) outs ->
  Dict.get (class_attrs (_component_class (node st)))
    (_constructor_name (node st)) = Some constructor ->
  let constructor_kwargs :=
    minimal_kwargs kwargs (_constructor_fn (node st)) in
  (forall k, k ∈ reserved_keywords -> Dict.get constructor_kwargs k = None) ->
  call constructor [] (constructor_arguments (node st) constructor_kwargs)
  = Raise e ->
  is_Exception e = true ->
  __call__' inputs st
  = (add_events st
       (replicate (length (_hooks (node st)))
          (before_hook_call (node st) kwargs)
        ++ [CallConstructor (_node_name (node st))
              (_constructor_name (node st))
              (constructor_arguments (node st) constructor_kwargs)]),
     Raise (GraphComponentException
              ("Error initializing graph component for node "
                 +:+ _node_name (node st) +:+ ".") e)).
Proof.
  intros Hlazy Hkwargs Hbefore Hctor constructor_kwargs Hreserved Hcall He.
  unfold __call__. unfold mbind at 1, M_bind at 1, get_state.
  unfold mbind at 1, M_bind at 1. unfold lift at 1. rewrite Hkwargs.
  unfold mbind at 1, M_bind at 1.
  rewrite run_before_hooks_unfold, (before_hooks_all _ _ _ _ _ _ Hbefore).
  rewrite Hlazy. simpl negb. cbv iota.
  unfold mbind at 1, M_bind at 1. unfold mbind at 1, M_bind at 1.
  fold constructor_kwargs.
  rewrite (load_component_forward class_attrs constructor_kwargs _ constructor);
    [|by unfold getattr; simpl; rewrite Hctor|done].
  simpl node. rewrite Hcall, He, add_events_app. done.
Qed.

(** X16. An input never takes the place of [config], [model_storage] or
    [execution_context]: when [_load_component] is given one of these
    names among its keyword arguments it raises [GraphComponentException]
    caused by a [TypeError], and the constructor is not called. *)
Theorem load_component_reserved_keyword kwargs st constructor k :
  Dict.get (class_attrs (_component_class (node st)))
    (_constructor_name (node st)) = Some constructor ->
  k ∈ reserved_keywords ->
  is_Some (Dict.get kwargs k) ->
  exists msg,
    _load_component' kwargs st
    = (st, Raise (GraphComponentException
                    ("Error initializing graph component for node "
                       +:+ _node_name (node st) +:+ ".")
                    (TypeError msg))).
Proof.
  intros Hctor Hk Hget. unfold _load_component, getattr. unfold_M.
  rewrite Hctor. simpl. rewrite get_resource_spec. simpl.
  unfold keyword_arguments.
  set (kwargs' := if Dict.contains kwargs "resource"
                  then Dict.remove kwargs "resource" else kwargs).
  assert (k <> "resource") as Hne.
  { intros ->. unfold reserved_keywords in Hk.
    repeat (apply elem_of_cons in Hk as [[=]|Hk]). inversion Hk. }
  match goal with
  | |- context [existsb ?f ?l] => assert (existsb f l = true) as ->
  end.
  { apply existsb_exists. exists k. split.
    - apply list_elem_of_In, get_is_Some. unfold kwargs'.
      destruct (Dict.contains kwargs "resource");
        [by rewrite get_remove_ne|done].
    - apply str_in_spec. simpl. unfold reserved_keywords in Hk.
      repeat (apply elem_of_cons in Hk as [->|Hk]; [set_solver|]).
      inversion Hk. }
  simpl. eauto.
Qed.

(** X17. When the same parent occurs more than once among the received
    pairs, the node uses the output given last. *)
Theorem call_uses_last_output (needs : dict string)
    (before after : list (string * pyval)) parent output local kwargs :
  NoDup (Dict.keys needs) ->
  (local, parent) ∈ needs ->
  parent ∉ after.*1 ->
  project_inputs needs (Dict.of_pairs (before ++ (parent, output) :: after))
  = Ok kwargs ->
  Dict.get kwargs local = Some output.
Proof.
  intros Hnd Hin Hlast Hkwargs.
  apply project_inputs_loop in Hkwargs as (_ & _ & Hall); [|done].
  destruct (Hall local parent Hin) as [_ ->].
  by apply get_of_pairs_last.
Qed.
End more_node.

(** * [rasa/nlu/components.py]: the pipeline checks *)

Section unit_loops.
Context {A : Type}.
Implicit Types (xs : list A) (body : A -> unit -> result unit).

Lemma for_each_unit_Ok xs body :
  for_each xs tt body = Ok tt <-> forall x, x ∈ xs -> body x tt = Ok tt.
Proof.
  induction xs as [|x xs IH]; simpl.
  - split; [|done]. intros _ y Hy. inversion Hy.
  - destruct (body x tt) as [[]|e] eqn:Hx; simpl.
    + rewrite IH. split.
      * intros Hxs y [->|Hy]%elem_of_cons; auto.
      * intros Hall y Hy. apply Hall. by right.
    + split; [done|]. intros Hall.
      specialize (Hall x (list_elem_of_here _ _)). congruence.
Qed.

Lemma for_each_unit_first_error xs x ys body e :
  (forall y, y ∈ xs -> body y tt = Ok tt) ->
  body x tt = Raise e ->
  for_each (xs ++ x :: ys) tt body = Raise e.
Proof.
  induction xs as [|y xs IH]; intros Hxs Hx; simpl.
  - by rewrite Hx.
  - rewrite (Hxs y) by left. simpl. apply IH; [|done].
    intros z Hz. apply Hxs. by right.
Qed.
End unit_loops.

Lemma foldl_collect {A B} (p : A -> bool) (f : A -> B) (l : list A) acc :
  foldl (fun acc x => if p x then acc ++ [f x] else acc) acc l
  = acc ++ (f <$> filter (fun x => p x = true) l).
Proof.
  revert acc. induction l as [|x l IH]; intros acc; simpl.
  - by rewrite app_nil_r.
  - rewrite IH. rewrite filter_cons. destruct (p x) eqn:Hp.
    + rewrite decide_True by done. by rewrite <- app_assoc.
    + rewrite decide_False by (by intros [=]). done.
Qed.

Lemma fmap_filter_nil {A B} (f : A -> B) (P : A -> Prop)
    `{forall x, Decision (P x)} (l : list A) :
  f <$> filter P l = [] <-> forall x, x ∈ l -> ~ P x.
Proof.
  split.
  - intros Hnil%fmap_nil_inv x Hx HP.
    by eapply filter_nil_not_elem_of.
  - intros Hall. induction l as [|x l IH]; [done|].
    rewrite filter_cons, decide_False by (apply Hall; left).
    apply IH. intros y Hy. apply Hall. by right.
Qed.

Section more_pipeline.
Context `{Components Component}.
Implicit Types (pipeline : list Component) (component : Component).

Lemma required_component_in_pipeline_spec required_component pipeline :
  _required_component_in_pipeline required_component pipeline = true
  <-> exists previous, previous ∈ pipeline
                       /\ isinstance previous required_component = true.
Proof.
  induction pipeline as [|c pipeline IH]; simpl.
  - split; [done|]. intros (p & Hp & _). inversion Hp.
  - destruct (isinstance c required_component) eqn:Hc.
    + split; [|done]. intros _. exists c. split; [left | done].
    + rewrite IH. split.
      * intros (p & Hp & Hi). exists p. split; [by right | done].
      * intros (p & [->|Hp]%elem_of_cons & Hi); [congruence|eauto].
  Qed.

(** What [validate_required_components] collects for a component: the
    names of the classes it requires of which no instance stands before
    it, in the order [required_components()] lists them. *)
Lemma missing_components_spec pipeline i component :
  missing_components pipeline i component
  = class_name <$>
      filter (fun required =>
                negb (_required_component_in_pipeline required (take i pipeline))
                = true)
        (required_components component).
Proof.
  unfold missing_components.
  exact (foldl_collect
           (fun required =>
              negb (_required_component_in_pipeline required (take i pipeline)))
           class_name _ []).
Qed.

Lemma missing_components_nil pipeline i component :
  missing_components pipeline i component = []
  <-> forall required, required ∈ required_components component ->
        exists j previous, j < i /\ pipeline !! j = Some previous
                           /\ isinstance previous required = true.
Proof.
  rewrite missing_components_spec, fmap_filter_nil. split.
  - intros Hall required Hr. specialize (Hall required Hr).
    destruct (_required_component_in_pipeline required (take i pipeline))
      eqn:Hin; [|by destruct Hall].
    apply required_component_in_pipeline_spec in Hin as (p & Hp & Hi).
    apply list_elem_of_lookup in Hp as (j & Hj).
    apply lookup_take_Some in Hj as (Hj & Hlt). eauto.
  - intros Hall required Hr. destruct (Hall required Hr) as (j & p & Hlt & Hj & Hi).
    assert (_required_component_in_pipeline required (take i pipeline) = true)
      as ->; [|by intros [=]].
    apply required_component_in_pipeline_spec. exists p. split; [|done].
    apply list_elem_of_lookup. exists j. by apply lookup_take_Some.
Qed.

Lemma missing_components_prefix pipeline rest i component :
  i <= length pipeline ->
  missing_components (pipeline ++ rest) i component
  = missing_components pipeline i component.
Proof.
  intros Hi. unfold missing_components. by rewrite take_app_le.
Qed.

Lemma tokenizer_names_spec pipeline :
  foldl (fun tokenizer_names component =>
           if isinstance component Tokenizer
           then tokenizer_names ++ [component_name component]
           else tokenizer_names) [] pipeline
  = component_name <$>
      filter (fun component => isinstance component Tokenizer = true) pipeline.
Proof.
  exact (foldl_collect (fun component => isinstance component Tokenizer)
           component_name _ []).
Qed.

Lemma validate_required_components_iff pipeline :
  validate_required_components pipeline = Ok tt
  <-> forall i component required,
        pipeline !! i = Some component ->
        required ∈ required_components component ->
        exists j previous, j < i /\ pipeline !! j = Some previous
                           /\ isinstance previous required = true.
Proof.
  unfold validate_required_components. rewrite for_each_unit_Ok. split.
  - intros Hall i component required Hi.
    apply missing_components_nil.
    assert ((i, component) ∈ enumerate pipeline) as Hin
        by (apply elem_of_lookup_imap; eauto).
    specialize (Hall _ Hin). simpl in Hall.
    by destruct (missing_components pipeline i component).
  - intros Hall [i component] Hin.
    apply elem_of_lookup_imap in Hin as (j & c & [= -> ->] & Hj).
    assert (missing_components pipeline j c = []) as ->; [|done].
    apply missing_components_nil. eauto.
Qed.

(** X18. [validate_required_components] accepts a pipeline exactly when
    every class a component requires has an instance (of the class or of
    a subclass) at an earlier position: a required component that comes
    later, or the component itself, does not count. *)
Theorem validate_required_components_Ok pipeline :
  validate_required_components pipeline = Ok tt
  <-> forall i component required,
        pipeline !! i = Some component ->
        required ∈ required_components component ->
        exists j previous, j < i /\ pipeline !! j = Some previous
                           /\ isinstance previous required = true.
Proof. apply validate_required_components_iff. Qed.

(** X19. The error of [validate_required_components] is about the first
    component that misses something, and its message lists, quoted and
    separated by commas, every class that component requires and that
    has no instance before it, in the order of [required_components()]. *)
Theorem validate_required_components_error before component rest missing :
  validate_required_components before = Ok tt ->
  missing = filter (fun required =>
                      negb (_required_component_in_pipeline required before)
                      = true)
              (required_components component) ->
  missing <> [] ->
  validate_required_components (before ++ component :: rest)
  = Raise (InvalidConfigException
             ("The pipeline configuration contains errors. The component '"
                +:+ component_name component +:+ "' requires "
                +:+ join ", " ((fun required => "'" +:+ class_name required +:+ "'")
                                 <$> missing)
                +:+ " to be placed before it in the pipeline. Please "
                +:+ "add the required components to the pipeline.")).
Proof.
  intros Hbefore -> Hmissing. unfold validate_required_components, enumerate.
  rewrite imap_app. simpl.
  apply for_each_unit_first_error.
  - intros [i c] (j & c' & [= -> ->] & Hj)%elem_of_lookup_imap.
    rewrite missing_components_prefix
      by (apply lookup_lt_Some in Hj; lia).
    unfold validate_required_components in Hbefore.
    rewrite for_each_unit_Ok in Hbefore.
    apply (Hbefore (j, c')). apply elem_of_lookup_imap. eauto.
  - rewrite Nat.add_0_r. rewrite missing_components_spec.
    rewrite take_app_length.
    destruct (filter _ (required_components component)) as [|r l] eqn:Hf;
      [done|].
    rewrite <- list_fmap_compose. done.
Qed.

Lemma validate_only_one_tokenizer_Ok pipeline :
  validate_only_one_tokenizer_is_used pipeline = Ok tt
  <-> length (filter (fun component => isinstance component Tokenizer = true)
                pipeline) <= 1.
Proof.
  unfold validate_only_one_tokenizer_is_used.
  rewrite tokenizer_names_spec, length_fmap.
  destruct (Nat.ltb_spec 1
              (length (filter (fun component => isinstance component Tokenizer = true)
                         pipeline))); split; (done || lia).
Qed.

Lemma validate_pipeline_iff pipeline :
  validate_pipeline pipeline = Ok tt
  <-> pipeline <> []
      /\ length (filter (fun component => isinstance component Tokenizer = true)
                   pipeline) <= 1
      /\ forall i component required,
           pipeline !! i = Some component ->
           required ∈ required_components component ->
           exists j previous, j < i /\ pipeline !! j = Some previous
                              /\ isinstance previous required = true.
Proof.
  rewrite <- validate_required_components_iff,
    <- validate_only_one_tokenizer_Ok.
  unfold validate_pipeline, validate_empty_pipeline.
  destruct pipeline as [|c pipeline]; simpl.
  - split; [done|]. by intros [? _].
  - destruct (validate_only_one_tokenizer_is_used (c :: pipeline))
      as [[]|e]; simpl.
    + split; [|by intros (_ & _ & ?)]. intros Hv. repeat split; done.
    + split; [done|]. by intros (_ & ? & _).
Qed.

(** X20. [validate_pipeline] accepts exactly the pipelines that are not
    empty, hold at most one tokenizer and have every required class
    provided by an earlier component. *)
Theorem validate_pipeline_Ok pipeline :
  validate_pipeline pipeline = Ok tt
  <-> pipeline <> []
      /\ length (filter (fun component => isinstance component Tokenizer = true)
                   pipeline) <= 1
      /\ forall i component required,
           pipeline !! i = Some component ->
           required ∈ required_components component ->
           exists j previous, j < i /\ pipeline !! j = Some previous
                              /\ isinstance previous required = true.
Proof. apply validate_pipeline_iff. Qed.

(** A pipeline that [validate_pipeline] accepts stays accepted when
    components are dropped from its end, as long as one is left. *)
Lemma validate_pipeline_prefix pipeline rest :
  pipeline <> [] ->
  validate_pipeline (pipeline ++ rest) = Ok tt ->
  validate_pipeline pipeline = Ok tt.
Proof.
  intros Hne. rewrite !validate_pipeline_iff.
  intros (_ & Htok & Hreq). split; [done|]. split.
  - rewrite filter_app, length_app in Htok. lia.
  - intros i c r Hi Hr.
    destruct (Hreq i c r) as (j & p & Hlt & Hj & Hp); [|done|].
    + by apply lookup_app_l_Some.
    + exists j, p. split; [done|]. split; [|done].
      rewrite lookup_app_l in Hj; [done|].
      apply lookup_lt_Some in Hi. lia.
Qed.

(** X21. [any_components_in_pipeline] holds exactly when a component of
    the pipeline has one of the given names. *)
Theorem any_components_in_pipeline_spec components pipeline :
  any_components_in_pipeline components pipeline = true
  <-> exists component, component ∈ pipeline
                        /\ component_name component ∈ components.
Proof.
  unfold any_components_in_pipeline, find_components_in_pipeline.
  rewrite Nat.ltb_lt. split.
  - intros Hsize.
    destruct (set_choose_L
                (list_to_set (component_name <$> pipeline) ∩ list_to_set components
                 : gset string)) as [n Hn].
    { intros Hempty. rewrite Hempty, size_empty in Hsize. lia. }
    apply elem_of_intersection in Hn as [Hp Hc].
    apply elem_of_list_to_set in Hp, Hc.
    apply list_elem_of_fmap in Hp as (c & -> & Hp). eauto.
  - intros (c & Hc & Hn).
    assert (component_name c
              ∈ (list_to_set (component_name <$> pipeline) ∩ list_to_set components
                 : gset string)) as Hin.
    { apply elem_of_intersection. split; apply elem_of_list_to_set; [|done].
      apply list_elem_of_fmap. eauto. }
    destruct (decide (size (list_to_set (component_name <$> pipeline)
                              ∩ list_to_set components : gset string) = 0))
      as [Hz|Hz]; [|lia].
    apply size_empty_inv in Hz. apply Hz in Hin. by apply elem_of_empty in Hin.
Qed.

End more_pipeline.

(** * [ComponentBuilder]: the component cache *)

Section more_builder.
Context `{Registry}.
Implicit Types (st : Building) (self : ComponentBuilder).

Lemma component_cache_key_Ok component_config cfg key :
  component_cache_key component_config cfg = Ok key ->
  exists model_metadata name component_class,
    Metadata cfg = Ok model_metadata
    /\ Dict.get component_config "name" = Some name
    /\ get_component_class (default name (Dict.get component_config "class"))
       = Ok component_class
    /\ cache_key component_class component_config model_metadata = Ok key.
Proof.
  unfold component_cache_key, Dict.getitem.
  destruct (Metadata cfg) as [md|]; simpl; [|done].
  destruct (Dict.get component_config "name") as [name|]; simpl; [|done].
  destruct (get_component_class _) as [cls|] eqn:Hcls; simpl; [|done].
  intros Hkey. by exists md, name, cls.
Qed.

Lemma get_cached_component_hit self component_meta model_metadata
    name component_class key component :
  use_cache self = true ->
  Dict.get component_meta "name" = Some name ->
  get_component_class (default name (Dict.get component_meta "class"))
  = Ok component_class ->
  cache_key component_class component_meta model_metadata = Ok (Some key) ->
  Dict.get (component_cache self) key = Some component ->
  __get_cached_component self component_meta model_metadata
  = Ok (component, Some key).
Proof.
  intros Huse Hname Hcls Hkey Hget.
  unfold __get_cached_component, Dict.getitem, Dict.contains.
  rewrite Hname. simpl. rewrite Hcls. simpl. rewrite Hkey. simpl.
  by rewrite Huse, Hget.
Qed.

Lemma get_cached_component_miss self component_meta model_metadata
    name component_class key :
  Dict.get component_meta "name" = Some name ->
  get_component_class (default name (Dict.get component_meta "class"))
  = Ok component_class ->
  cache_key component_class component_meta model_metadata = Ok key ->
  use_cache self = false
  \/ key = None
  \/ (exists k, key = Some k /\ Dict.get (component_cache self) k = None) ->
  __get_cached_component self component_meta model_metadata = Ok (VNone, key).
Proof.
  intros Hname Hcls Hkey Hmiss.
  unfold __get_cached_component, Dict.getitem, Dict.contains.
  rewrite Hname. simpl. rewrite Hcls. simpl. rewrite Hkey. simpl.
  destruct key as [k|]; [|done].
  destruct Hmiss as [->|[?|(k' & [= <-] & ->)]]; [done..|].
  by rewrite andb_false_r.
Qed.

Lemma create_component_cached st component_config cfg key component :
  use_cache (builder st) = true ->
  component_cache_key component_config cfg = Ok (Some key) ->
  Dict.get (component_cache (builder st)) key = Some component ->
  component <> VNone ->
  create_component component_config cfg st = (st, Ok component).
Proof.
  intros Huse (md & name & cls & Hmd & Hname & Hcls & Hkey)%component_cache_key_Ok
    Hget Hnone.
  unfold create_component, try_except, mbind, M_bind, lift, get_state.
  rewrite Hmd.
  rewrite (get_cached_component_hit _ _ _ name cls key component) by done.
  by destruct component.
Qed.

(** X22. With the cache on, components whose configurations have the same
    cache key are one component: once [create_component] has returned a
    component for a key, it returns that component for every
    configuration with this key, without asking the registry to create
    anything and without changing the builder. *)
Theorem create_component_shares st st1 component_config cfg component key
    component_config' cfg' :
  use_cache (builder st) = true ->
  component_cache_key component_config cfg = Ok (Some key) ->
  create_component component_config cfg st = (st1, Ok component) ->
  component <> VNone ->
  component_cache_key component_config' cfg' = Ok (Some key) ->
  create_component component_config' cfg' st1 = (st1, Ok component).
Proof.
  intros Huse Hkey Hcreate Hnone Hkey'.
  assert (use_cache (builder st1) = true
          /\ Dict.get (component_cache (builder st1)) key = Some component)
    as [Huse1 Hget1].
  { apply component_cache_key_Ok in Hkey
      as (md & name & cls & Hmd & Hname & Hcls & Hkey).
    revert Hcreate.
    unfold create_component, try_except, mbind, M_bind, lift, get_state.
    rewrite Hmd.
    unfold __get_cached_component, Dict.getitem, Dict.contains.
    rewrite Hname. simpl. rewrite Hcls. simpl. rewrite Hkey, Huse. simpl.
    destruct (Dict.get (component_cache (builder st)) key) as [c|] eqn:Hget;
      simpl.
    - destruct c; simpl;
        try (intros [= <- <-]; by rewrite Huse, Hget).
      unfold registry_create, __add_to_cache, mret, M_ret. simpl.
      destruct (create_component_by_config _ _ _) as [c|e]; simpl.
      + rewrite Huse. intros [= <- <-]. simpl.
        split; [done|]. apply get_set_eq.
      + by destruct (is_MissingArgumentError e).
    - unfold registry_create, __add_to_cache, mret, M_ret. simpl.
      destruct (create_component_by_config _ _ _) as [c|e]; simpl.
      + rewrite Huse. intros [= <- <-]. simpl.
        split; [done|]. apply get_set_eq.
      + by destruct (is_MissingArgumentError e). }
  by eapply create_component_cached.
Qed.

(** X23. With the cache off, [create_component] creates a component
    every time, also for a configuration that has a cache key, and the
    cache stays as it is.  The class is still looked up and asked for
    its key first. *)
Theorem create_component_no_cache st component_config cfg key component :
  use_cache (builder st) = false ->
  component_cache_key component_config cfg = Ok key ->
  create_component_by_config (created st) component_config cfg = Ok component ->
  create_component component_config cfg st = (one_more_created st, Ok component).
Proof.
  intros Huse (md & name & cls & Hmd & Hname & Hcls & Hkey)%component_cache_key_Ok
    Hcreate.
  unfold create_component, try_except, mbind, M_bind, lift, get_state.
  rewrite Hmd.
  rewrite (get_cached_component_miss _ _ _ name cls key) by auto.
  unfold registry_create, __add_to_cache, mret, M_ret. simpl.
  rewrite Hcreate. simpl. rewrite Huse. by destruct key.
Qed.

(** X24. A configuration without a ["name"] makes [create_component]
    raise [KeyError], also when it has a ["class"]: the name is the
    default of the lookup of the class and is evaluated first.  Nothing
    is created. *)
Theorem create_component_needs_name st component_config cfg model_metadata :
  Metadata cfg = Ok model_metadata ->
  Dict.get component_config "name" = None ->
  create_component component_config cfg st = (st, Raise (KeyError "name")).
Proof.
  intros Hmd Hname.
  unfold create_component, try_except, mbind, M_bind, lift, get_state.
  rewrite Hmd.
  unfold __get_cached_component, Dict.getitem. rewrite Hname. done.
Qed.

(** X25. When the cache has nothing for a configuration and the registry
    fails to create the component, a [MissingArgumentError] becomes a
    [RasaException] that names the component and carries the error's
    message; any other exception passes as it is.  The cache is not
    written. *)
Theorem create_component_error st component_config cfg key name e :
  component_cache_key component_config cfg = Ok key ->
  (forall k, key = Some k -> Dict.get (component_cache (builder st)) k = None) ->
  Dict.get component_config "name" = Some name ->
  create_component_by_config (created st) component_config cfg = Raise e ->
  create_component component_config cfg st
  = (one_more_created st,
     Raise (if is_MissingArgumentError e
            then RasaException
                   ("Failed to create component '" +:+ str_of_value name
                      +:+ "'. Error: " +:+ MissingArgumentError_str e)
            else e)).
Proof.
  intros (md & name' & cls & Hmd & Hname' & Hcls & Hkey)%component_cache_key_Ok
    Hmiss Hname Hcreate.
  unfold create_component, try_except, mbind, M_bind, lift, get_state.
  rewrite Hmd.
  rewrite (get_cached_component_miss _ _ _ name' cls key); [|done..|].
  - unfold registry_create. simpl. rewrite Hcreate.
    destruct (is_MissingArgumentError e); [|done].
    unfold raise, lift, Dict.getitem. by rewrite Hname.
  - destruct key as [k|]; [|auto]. right. right. eauto.
Qed.

End more_builder.

(** * [KeywordIntentClassifier] *)

Lemma for_eachM_inv {S A B} (I : list A -> S -> B -> Prop) (xs : list A)
    (body : A -> B -> M S B) acc s :
  I [] s acc ->
  (forall seen x rest s a, xs = seen ++ x :: rest -> I seen s a ->
     exists s' a', body x a s = (s', Ok a') /\ I (seen ++ [x]) s' a') ->
  exists s' r, for_eachM xs acc body s = (s', Ok r) /\ I xs s' r.
Proof.
  intros Hinit Hstep.
  assert (forall rest seen s a, xs = seen ++ rest -> I seen s a ->
            exists s' r, for_eachM rest a body s = (s', Ok r) /\ I xs s' r)
    as Hgen.
  { induction rest as [|x rest IH]; intros seen s0 a Hxs Hseen.
    - rewrite app_nil_r in Hxs. subst. simpl. by exists s0, a.
    - destruct (Hstep seen x rest s0 a Hxs Hseen) as (s1 & a1 & Hx & Hseen1).
      simpl. unfold mbind, M_bind. rewrite Hx.
      apply (IH (seen ++ [x])); [|done]. by rewrite <- app_assoc. }
  by apply (Hgen xs []).
Qed.

Lemma get_remove_eq {V} (d : dict V) k : Dict.get (Dict.remove d k) k = None.
Proof.
  unfold Dict.remove. induction d as [|[k0 v0] d IH]; [done|].
  rewrite filter_cons. simpl. destruct (String.eqb_spec k0 k); subst.
  - by rewrite decide_False by done.
  - rewrite decide_True by done. simpl.
    by destruct (String.eqb_spec k0 k).
Qed.

Lemma get_remove_Some {V} (d : dict V) k k' v :
  Dict.get (Dict.remove d k) k' = Some v -> Dict.get d k' = Some v.
Proof.
  destruct (decide (k = k')) as [->|Hne].
  - by rewrite get_remove_eq.
  - by rewrite get_remove_ne.
Qed.

Lemma get_elem_NoDup {V} (d : dict V) k v :
  NoDup (Dict.keys d) -> (k, v) ∈ d -> Dict.get d k = Some v.
Proof.
  unfold Dict.keys. induction d as [|[k0 v0] d IH]; simpl.
  - intros _ Hin. inversion Hin.
  - intros [Hk0 Hd]%NoDup_cons [[= -> ->]|Hin]%elem_of_cons.
    + by rewrite String.eqb_refl.
    + destruct (String.eqb_spec k0 k) as [->|_]; [|auto].
      destruct Hk0. apply list_elem_of_fmap. by exists (k, v).
Qed.

Lemma keys_set {V} (d : dict V) k v k' :
  k' ∈ Dict.keys (Dict.set d k v) <-> k' = k \/ k' ∈ Dict.keys d.
Proof.
  rewrite <- !get_is_Some. destruct (decide (k = k')) as [->|Hne].
  - rewrite get_set_eq. split; [auto|]. by intros _.
  - rewrite get_set_ne by done. split; [auto|]. by intros [?|?].
Qed.

Lemma NoDup_keys_set {V} (d : dict V) k v :
  NoDup (Dict.keys d) -> NoDup (Dict.keys (Dict.set d k v)).
Proof.
  induction d as [|[k0 v0] d IH]; simpl.
  - intros _. apply NoDup_singleton.
  - intros [Hk0 Hd]%NoDup_cons. destruct (String.eqb_spec k0 k) as [->|Hne].
    + by apply NoDup_cons.
    + apply NoDup_cons. split; [|by apply IH].
      intros [?|?]%keys_set; done.
Qed.

Lemma NoDup_keys_remove {V} (d : dict V) k :
  NoDup (Dict.keys d) -> NoDup (Dict.keys (Dict.remove d k)).
Proof.
  intros Hd. apply (sublist_NoDup _ (Dict.keys d)); [done|].
  apply fmap_sublist, sublist_filter.
Qed.

Lemma keys_remove {V} (d : dict V) k k' :
  k' ∈ Dict.keys (Dict.remove d k) <-> k' <> k /\ k' ∈ Dict.keys d.
Proof.
  rewrite <- !get_is_Some. destruct (decide (k = k')) as [->|Hne].
  - rewrite get_remove_eq. split; [by intros [? [=]]|]. by intros [? _].
  - rewrite get_remove_ne by done. split; [|by intros [_ ?]]. auto.
Qed.

Lemma NoDup_fmap_inj_on {A B} (f : A -> B) (l : list A) x y :
  NoDup (f <$> l) -> x ∈ l -> y ∈ l -> f x = f y -> x = y.
Proof.
  induction l as [|a l IH]; simpl.
  - intros _ Hx. inversion Hx.
  - intros [Ha Hl]%NoDup_cons [->|Hx]%elem_of_cons [->|Hy]%elem_of_cons Heq;
      [done| | |by apply IH].
    + destruct Ha. rewrite Heq. by apply list_elem_of_fmap_2.
    + destruct Ha. rewrite <- Heq. by apply list_elem_of_fmap_2.
Qed.

Lemma flat_map_collect {A B} (p : A -> bool) (g : A -> B) (l : list A) :
  flat_map (fun x => if p x then [g x] else []) l
  = g <$> filter (fun x => p x = true) l.
Proof.
  induction l as [|x l IH]; [done|]. simpl. rewrite filter_cons, IH.
  destruct (p x) eqn:Hp.
  - by rewrite decide_True.
  - by rewrite decide_False by (by intros [=]).
Qed.

Lemma NoDup_fmap_flat_map {A B C} (g : B -> C) (f : A -> list B) l x :
  x ∈ l -> NoDup (g <$> flat_map f l) -> NoDup (g <$> f x).
Proof.
  induction l as [|a l IH]; [by intros Hx; inversion Hx|].
  simpl. rewrite fmap_app.
  intros [->|Hx]%elem_of_cons (Ha & _ & Hl)%NoDup_app; auto.
Qed.

Lemma add_warnings_app st ws ws' :
  add_warnings (add_warnings st ws) ws' = add_warnings st (ws ++ ws').
Proof. unfold add_warnings. simpl. by rewrite <- app_assoc. Qed.

Lemma add_warnings_nil st : add_warnings st [] = st.
Proof. destruct st. unfold add_warnings. simpl. by rewrite app_nil_r. Qed.

#[global] Instance keywords_shrink_refl : Reflexive keywords_shrink.
Proof. by intros st k i. Qed.

#[global] Instance keywords_shrink_trans : Transitive keywords_shrink.
Proof. intros st1 st2 st3 H12 H23 k i Hk. by apply H12, H23. Qed.

Lemma pop_keyword_shrink keyword st st' r :
  pop_keyword keyword st = (st', r) -> keywords_shrink st st'.
Proof.
  unfold pop_keyword.
  destruct (Dict.contains _ _); intros [= <- _]; [|done].
  intros k i. unfold keywords. simpl. apply get_remove_Some.
Qed.

(** The ambiguous pairs of a map, one by one. *)
Lemma elem_ambiguous_pairs found items keyword intent :
  (intent, keyword) ∈ ambiguous_pairs found items
  <-> (keyword, intent) ∈ items /\ ambiguous found items keyword intent.
Proof.
  unfold ambiguous_pairs, ambiguous.
  rewrite list_elem_of_In, in_flat_map. split.
  - intros ([k1 i1] & Hin1 & Hin). apply in_flat_map in Hin as ([k2 i2] & Hin2 & Hin).
    destruct (found k1 k2) eqn:Hfound; [|done].
    destruct (String.eqb_spec i1 i2) as [|Hne]; [done|].
    destruct Hin as [[= -> ->]|[]].
    apply list_elem_of_In in Hin1, Hin2. split; [done|]. by exists k2, i2.
  - intros (Hin1 & k2 & i2 & Hin2 & Hfound & Hne).
    exists (keyword, intent). split; [by apply list_elem_of_In|].
    apply in_flat_map. exists (k2, i2). split; [by apply list_elem_of_In|].
    rewrite Hfound. destruct (String.eqb_spec intent i2); [done|]. by left.
Qed.

Section keyword_facts.
Variable re_search : string -> string -> bool -> result bool.
Implicit Types (st : Training) (self : KeywordIntentClassifier).

Local Abbreviation ambiguous_mappings' := (ambiguous_mappings re_search).
Local Abbreviation _validate_keyword_map' := (_validate_keyword_map re_search).
Local Abbreviation train' := (train re_search).
Local Abbreviation first_keyword' := (first_keyword re_search).
Local Abbreviation _map_keyword_to_intent' := (_map_keyword_to_intent re_search).

(** *** Popping keywords *)

Lemma pops_Ok {A} (key : A -> string) (body : A -> unit -> M Training unit) :
  (forall x u, body x u = pop_keyword (key x)) ->
  forall l st,
    NoDup (key <$> l) ->
    (forall x, x ∈ l -> key x ∈ Dict.keys (keywords st)) ->
    exists st', for_eachM l tt body st = (st', Ok tt)
                /\ warnings st' = warnings st
                /\ case_sensitive (classifier st') = case_sensitive (classifier st)
                /\ (NoDup (Dict.keys (keywords st))
                    -> NoDup (Dict.keys (keywords st')))
                /\ forall k, Dict.get (keywords st') k
                             = if decide (k ∈ key <$> l) then None
                               else Dict.get (keywords st) k.
Proof.
  intros Hbody. induction l as [|x l IH]; intros st Hnodup Hkeys.
  - exists st. simpl. repeat split; try done.
  - apply NoDup_cons in Hnodup as [Hx Hl].
    simpl for_eachM. unfold mbind, M_bind. rewrite Hbody.
    unfold pop_keyword at 1, Dict.contains.
    destruct (Dict.get (intent_keyword_map (classifier st)) (key x)) as [i|]
      eqn:Hget.
    2:{ exfalso. apply get_None in Hget. apply Hget, Hkeys. left. }
    match goal with |- context [for_eachM l tt body ?s] => set (st1 := s) end.
    destruct (IH st1) as (st' & Hrun & Hw & Hc & Hnd & Hmap); [done| |].
    { intros y Hy. unfold st1, keywords. simpl. apply keys_remove. split.
      - intros Heq. apply Hx. rewrite <- Heq. by apply list_elem_of_fmap_2.
      - apply Hkeys. by right. }
    exists st'. split; [done|]. split; [done|]. split; [done|]. split.
    { intros Hst. apply Hnd. unfold st1, keywords. simpl.
      by apply NoDup_keys_remove. }
    intros k. rewrite Hmap. unfold st1, keywords. simpl.
    destruct (decide (k = key x)) as [->|Hne].
    + rewrite get_remove_eq. rewrite (decide_True (P := key x ∈ key x :: _));
        [by destruct (decide _) | left].
    + rewrite get_remove_ne by done.
      destruct (decide (k ∈ key <$> l)) as [Hin|Hin].
      * rewrite decide_True; [done | by right].
      * rewrite decide_False; [done|]. by intros [?|?]%elem_of_cons.
Qed.

Lemma pops_KeyError {A} (key : A -> string) (body : A -> unit -> M Training unit) :
  (forall x u, body x u = pop_keyword (key x)) ->
  forall l st,
    ~ NoDup (key <$> l)
    \/ (exists x, x ∈ l /\ key x ∉ Dict.keys (keywords st)) ->
    exists st' k, for_eachM l tt body st = (st', Raise (KeyError k)).
Proof.
  intros Hbody. induction l as [|x l IH]; intros st Hbad.
  - destruct Hbad as [Hbad|(x & Hx & _)]; [|inversion Hx].
    destruct Hbad. apply NoDup_nil_2.
  - simpl for_eachM. unfold mbind, M_bind. rewrite Hbody.
    unfold pop_keyword at 1, Dict.contains.
    destruct (Dict.get (intent_keyword_map (classifier st)) (key x)) as [i|]
      eqn:Hget; [|by eauto].
    apply IH. unfold keywords. simpl.
    destruct (decide (key x ∈ key <$> l)) as [Hin|Hin].
    { right. apply list_elem_of_fmap in Hin as (y & Heq & Hy).
      exists y. split; [done|]. rewrite <- Heq. intros [? _]%keys_remove. done. }
    destruct Hbad as [Hbad|(y & [->|Hy]%elem_of_cons & Hkey)].
    + left. intros Hl. apply Hbad. simpl. by apply NoDup_cons.
    + destruct Hkey. apply get_is_Some. unfold keywords. by rewrite Hget.
    + right. exists y. split; [done|]. intros [_ ?]%keys_remove. done.
Qed.

(** *** The search for ambiguous keywords *)

Lemma raise_warning_run message st :
  raise_warning message st = (add_warnings st [message], Ok tt).
Proof. done. Qed.

Lemma for_eachM_collect {A B} (body : A -> list B -> M Training (list B))
    (out : A -> list B) (xs : list A) :
  (forall x acc st, x ∈ xs ->
     exists messages,
       body x acc st = (add_warnings st messages, Ok (acc ++ out x))) ->
  forall acc st,
    exists messages,
      for_eachM xs acc body st
      = (add_warnings st messages, Ok (acc ++ flat_map out xs)).
Proof.
  induction xs as [|x xs IH]; intros Hbody acc st.
  - exists []. simpl. by rewrite add_warnings_nil, app_nil_r.
  - rewrite for_eachM_cons.
    destruct (Hbody x acc st (list_elem_of_here _ _)) as (ms & ->).
    destruct (IH (fun y a s Hy => Hbody y a s (list_elem_of_further _ _ _ Hy))
                (acc ++ out x) (add_warnings st ms)) as (ms' & ->).
    exists (ms ++ ms'). simpl. by rewrite add_warnings_app, <- app_assoc.
Qed.

(** When every search among the keywords returns, the two loops collect
    [ambiguous_pairs] and change nothing but the warnings. *)
Lemma ambiguous_mappings_spec found self st :
  (forall k1 k2, k1 ∈ Dict.keys (intent_keyword_map self) ->
                 k2 ∈ Dict.keys (intent_keyword_map self) ->
                 re_search (word_pattern k1) k2 (re_flag self) = Ok (found k1 k2)) ->
  exists messages,
    ambiguous_mappings' self st
    = (add_warnings st messages,
       Ok (ambiguous_pairs found (intent_keyword_map self))).
Proof.
  intros Hre. unfold ambiguous_mappings, ambiguous_pairs.
  set (items := intent_keyword_map self) in *.
  assert (forall x, x ∈ items -> x.1 ∈ Dict.keys items) as Hkeys
      by (intros x Hx; by apply list_elem_of_fmap_2).
  apply (for_eachM_collect _
           (fun '(keyword1, intent1) =>
              flat_map (fun '(keyword2, intent2) =>
                          if found keyword1 keyword2
                             && negb (String.eqb intent1 intent2)
                          then [(intent1, keyword1)] else []) items)).
  intros [k1 i1] acc st1 Hk1%Hkeys.
  apply (for_eachM_collect _
           (fun '(keyword2, intent2) =>
              if found k1 keyword2 && negb (String.eqb i1 intent2)
              then [(i1, k1)] else [])).
  intros [k2 i2] acc2 st2 Hk2%Hkeys.
  unfold mbind, M_bind, lift. rewrite (Hre k1 k2) by done.
  destruct (found k1 k2 && negb (String.eqb i1 i2)).
  - by eexists.
  - exists []. by rewrite add_warnings_nil, app_nil_r.
Qed.

(** *** [_validate_keyword_map] *)

Lemma pops_by_pair (x : string * string) (u : unit) :
  (fun '(intent, keyword) (_ : unit) => pop_keyword keyword) x u
  = pop_keyword x.2.
Proof. by destruct x. Qed.

Lemma validate_keyword_map_run found st :
  (forall k1 k2, k1 ∈ Dict.keys (keywords st) -> k2 ∈ Dict.keys (keywords st) ->
                 re_search (word_pattern k1) k2 (re_flag (classifier st))
                 = Ok (found k1 k2)) ->
  exists messages,
    _validate_keyword_map' st
    = for_eachM (ambiguous_pairs found (keywords st)) tt
        (fun '(intent, keyword) _ => pop_keyword keyword)
        (add_warnings st messages).
Proof.
  intros Hre.
  destruct (ambiguous_mappings_spec found (classifier st) st Hre) as (ms & Hscan).
  exists ms. unfold _validate_keyword_map, mbind, M_bind, get_state.
  by rewrite Hscan.
Qed.

Lemma validate_keyword_map_shrink st st' r :
  _validate_keyword_map' st = (st', r) -> keywords_shrink st st'.
Proof.
  unfold _validate_keyword_map, ambiguous_mappings, mbind at 1, M_bind at 1,
    get_state.
  unfold mbind at 1, M_bind at 1.
  match goal with
  | |- context [for_eachM ?xs ?acc ?body st] =>
      destruct (for_eachM xs acc body st) as [st1 [amb|e]] eqn:Hscan;
      apply (for_eachM_frame keywords_shrink) in Hscan
  end.
  - intros Hpops. etrans; [done|].
    revert Hpops. apply (for_eachM_frame keywords_shrink).
    intros [i k] [] s s' r'. apply pop_keyword_shrink.
  - intros [k1 i1] acc s s' r'. apply (for_eachM_frame keywords_shrink).
    intros [k2 i2] acc' s0 s0' r0. unfold mbind, M_bind, lift.
    destruct (re_search _ _ _) as [b|]; [|by intros [= <- _]].
    destruct (b && _); [|by intros [= <- _]].
    rewrite raise_warning_run. intros [= <- _]. by intros k i.
  - by intros [= <- _].
  - intros [k1 i1] acc s s' r'. apply (for_eachM_frame keywords_shrink).
    intros [k2 i2] acc' s0 s0' r0. unfold mbind, M_bind, lift.
    destruct (re_search _ _ _) as [b|]; [|by intros [= <- _]].
    destruct (b && _); [|by intros [= <- _]].
    rewrite raise_warning_run. intros [= <- _]. by intros k i.
Qed.

Lemma validate_keyword_map_kept found st st' :
  NoDup (Dict.keys (keywords st)) ->
  (forall k1 k2, k1 ∈ Dict.keys (keywords st) -> k2 ∈ Dict.keys (keywords st) ->
                 re_search (word_pattern k1) k2 (re_flag (classifier st))
                 = Ok (found k1 k2)) ->
  _validate_keyword_map' st = (st', Ok tt) ->
  forall k i,
    Dict.get (keywords st') k = Some i
    <-> Dict.get (keywords st) k = Some i
        /\ ~ ambiguous found (keywords st) k i.
Proof.
  intros Hnodup Hre.
  destruct (validate_keyword_map_run found st Hre) as (ms & ->).
  set (amb := ambiguous_pairs found (keywords st)).
  destruct (decide (NoDup (amb.*2))) as [Hamb|Hamb].
  - destruct (pops_Ok snd _ pops_by_pair amb (add_warnings st ms))
      as (st2 & -> & _ & _ & _ & Hmap); [done| |].
    { intros [i k] [Hin _]%elem_ambiguous_pairs.
      by apply (list_elem_of_fmap_2 fst) in Hin. }
    intros [= <-] k i. rewrite Hmap. change (keywords (add_warnings st ms))
      with (keywords st). split.
    + destruct (decide (k ∈ amb.*2)) as [|Hk]; [done|]. intros Hget.
      split; [done|]. intros Hambiguous. apply Hk.
      apply (list_elem_of_fmap_2 snd _ (i, k)), elem_ambiguous_pairs.
      split; [by apply get_Some_elem | done].
    + intros [Hget Hnot]. rewrite decide_False; [done|].
      intros ([i' k'] & Heq & [Hin Hambiguous]%elem_ambiguous_pairs)%list_elem_of_fmap.
      simpl in Heq. subst k'.
      apply (get_elem_NoDup _ _ _ Hnodup) in Hin.
      rewrite Hin in Hget. by injection Hget as ->.
  - destruct (pops_KeyError snd _ pops_by_pair amb (add_warnings st ms))
      as (st2 & k & ->); [by left | done].
Qed.

(** X26. When every search among the keywords returns and
    [_validate_keyword_map] returns, the keywords it keeps are those of
    the map that are found in no keyword of another intent, each with
    its intent: no ambiguity is left, and nothing else is removed. *)
Theorem validate_keyword_map_Ok found st st' :
  NoDup (Dict.keys (keywords st)) ->
  (forall k1 k2, k1 ∈ Dict.keys (keywords st) -> k2 ∈ Dict.keys (keywords st) ->
                 re_search (word_pattern k1) k2 (re_flag (classifier st))
                 = Ok (found k1 k2)) ->
  _validate_keyword_map' st = (st', Ok tt) ->
  forall k i,
    Dict.get (keywords st') k = Some i
    <-> Dict.get (keywords st) k = Some i
        /\ ~ ambiguous found (keywords st) k i.
Proof. apply validate_keyword_map_kept. Qed.

(** X27. A keyword that is found in two keywords of other intents makes
    [_validate_keyword_map] raise [KeyError]: it is listed once for each
    of them, and the second [pop] finds it gone (or the [pop] of another
    keyword has failed before). *)
Theorem validate_keyword_map_KeyError found st k1 i1 k2 i2 k3 i3 :
  (forall k k', k ∈ Dict.keys (keywords st) -> k' ∈ Dict.keys (keywords st) ->
                re_search (word_pattern k) k' (re_flag (classifier st))
                = Ok (found k k')) ->
  (k1, i1) ∈ keywords st -> (k2, i2) ∈ keywords st -> (k3, i3) ∈ keywords st ->
  k2 <> k3 ->
  found k1 k2 = true -> found k1 k3 = true -> i1 <> i2 -> i1 <> i3 ->
  exists st' k, _validate_keyword_map' st = (st', Raise (KeyError k)).
Proof.
  intros Hre H1 H2 H3 Hne Hf2 Hf3 Hi2 Hi3.
  destruct (validate_keyword_map_run found st Hre) as (ms & ->).
  apply (pops_KeyError snd _ pops_by_pair). left. intros Hnodup.
  unfold ambiguous_pairs in Hnodup.
  apply (NoDup_fmap_flat_map _ _ _ _ H1) in Hnodup. cbn beta iota in Hnodup.
  rewrite (flat_map_ext _
             (fun x => if found k1 x.1 && negb (String.eqb i1 x.2)
                       then [(fun _ => (i1, k1)) x] else []))
    in Hnodup by (by intros [k i]).
  rewrite flat_map_collect, <- list_fmap_compose in Hnodup.
  apply Hne.
  assert ((k2, i2) = (k3, i3)) as [= -> _]; [|done].
  eapply (NoDup_fmap_inj_on _ _ _ _ Hnodup); [| |done].
  - apply list_elem_of_filter. split; [|done]. simpl. rewrite Hf2.
    by destruct (String.eqb_spec i1 i2).
  - apply list_elem_of_filter. split; [|done]. simpl. rewrite Hf3.
    by destruct (String.eqb_spec i1 i3).
Qed.

(** *** [train] *)

(** The first loop of [train]: a keyword keeps the intent it had at the
    start or got from its first example, and it is a duplicate exactly
    when some example gives it another intent. *)
Lemma train_examples_spec intent_examples st :
  exists st1 duplicate_examples,
    for_eachM intent_examples (∅ : gset string)
      (fun '(text, intent) duplicate_examples =>
         st ← get_state;
         match Dict.get (intent_keyword_map (classifier st)) text with
         | Some known =>
             if negb (String.eqb intent known) then
               raise_warning (duplicate_warning text known intent);;
               mret ({[text]} ∪ duplicate_examples)
             else set_keyword text intent;; mret duplicate_examples
         | None => set_keyword text intent;; mret duplicate_examples
         end) st
    = (st1, Ok duplicate_examples)
    /\ case_sensitive (classifier st1) = case_sensitive (classifier st)
    /\ (NoDup (Dict.keys (keywords st)) -> NoDup (Dict.keys (keywords st1)))
    /\ (forall t i, Dict.get (keywords st1) t = Some i ->
          Dict.get (keywords st) t = Some i
          \/ (Dict.get (keywords st) t = None /\ (t, i) ∈ intent_examples))
    /\ (forall t i, (t, i) ∈ intent_examples ->
          exists i0, Dict.get (keywords st1) t = Some i0
                     /\ (i = i0 \/ t ∈ duplicate_examples))
    /\ (forall t i, Dict.get (keywords st) t = Some i ->
          Dict.get (keywords st1) t = Some i)
    /\ (forall t, t ∈ duplicate_examples ->
          exists i i0, (t, i) ∈ intent_examples
                       /\ Dict.get (keywords st1) t = Some i0 /\ i <> i0).
Proof.
  apply (for_eachM_inv
           (fun seen st1 duplicate_examples =>
              case_sensitive (classifier st1) = case_sensitive (classifier st)
              /\ (NoDup (Dict.keys (keywords st))
                  -> NoDup (Dict.keys (keywords st1)))
              /\ (forall t i, Dict.get (keywords st1) t = Some i ->
                    Dict.get (keywords st) t = Some i
                    \/ (Dict.get (keywords st) t = None /\ (t, i) ∈ seen))
              /\ (forall t i, (t, i) ∈ seen ->
                    exists i0, Dict.get (keywords st1) t = Some i0
                               /\ (i = i0 \/ t ∈ duplicate_examples))
              /\ (forall t i, Dict.get (keywords st) t = Some i ->
                    Dict.get (keywords st1) t = Some i)
              /\ (forall t, t ∈ duplicate_examples ->
                    exists i i0, (t, i) ∈ seen
                                 /\ Dict.get (keywords st1) t = Some i0
                                 /\ i <> i0))).
  { repeat split; try done.
    - auto.
    - intros t i Hin. inversion Hin. }
  intros seen [text intent] rest s dups _ (Hcase & Hnodup & Ha & Hb & Hc & Hd).
  unfold mbind at 1, M_bind at 1, get_state.
  assert (forall known,
            Dict.get (keywords s) text = Some known -> intent <> known ->
            exists s' dups',
              (raise_warning (duplicate_warning text known intent);;
               mret ({[text]} ∪ dups) : M Training (gset string)) s
              = (s', Ok dups')
              /\ keywords s' = keywords s
              /\ case_sensitive (classifier s') = case_sensitive (classifier s)
              /\ dups' = {[text]} ∪ dups) as Hwarn.
  { intros known _ _. by eexists _, _. }
  assert (exists s' dups',
            (set_keyword text intent;; mret dups : M Training (gset string)) s
            = (s', Ok dups')
            /\ keywords s' = Dict.set (keywords s) text intent
            /\ case_sensitive (classifier s') = case_sensitive (classifier s)
            /\ dups' = dups) as Hset.
  { by eexists _, _. }
  fold (keywords s).
  destruct (Dict.get (keywords s) text) as [known|] eqn:Hget.
  - destruct (String.eqb_spec intent known) as [->|Hne]; cbn [negb].
    + (* the same intent again *)
      destruct Hset as (s' & dups' & -> & Hkeys & Hcase' & ->).
      exists s', dups. split; [done|].
      assert (forall t, Dict.get (keywords s') t = Dict.get (keywords s) t)
        as Hsame.
      { intros t. rewrite Hkeys. destruct (decide (text = t)) as [<-|?].
        - by rewrite get_set_eq.
        - by rewrite get_set_ne. }
      split; [congruence|]. split.
      { intros Hst. rewrite Hkeys. by apply NoDup_keys_set, Hnodup. }
      split.
      { intros t i. rewrite Hsame. intros [?|[? ?]]%Ha; [by left|].
        right. split; [done|]. apply elem_of_app. by left. }
      split.
      { intros t i [Hin|[= -> ->]%list_elem_of_singleton]%elem_of_app.
        - setoid_rewrite Hsame. by apply Hb.
        - exists known. rewrite Hsame. auto. }
      split.
      { intros t i. rewrite Hsame. apply Hc. }
      intros t (i & i0 & Hin & Hi0 & Hne)%Hd. exists i, i0.
      rewrite Hsame. split; [|done]. apply elem_of_app. by left.
    + (* another intent: a duplicate *)
      destruct (Hwarn known eq_refl Hne) as (s' & dups' & -> & Hkeys & Hcase' & ->).
      exists s', ({[text]} ∪ dups). split; [done|]. rewrite Hkeys.
      split; [congruence|]. split; [done|]. split.
      { intros t i [?|[? ?]]%Ha; [by left|].
        right. split; [done|]. apply elem_of_app. by left. }
      split.
      { intros t i [Hin|[= -> ->]%list_elem_of_singleton]%elem_of_app.
        - destruct (Hb t i Hin) as (i0 & Hi0 & Hor). exists i0.
          split; [done|]. destruct Hor; [by left|]. right.
          apply elem_of_union. by right.
        - exists known. split; [done|]. right.
          apply elem_of_union. left. by apply elem_of_singleton. }
      split; [done|].
      intros t [->%elem_of_singleton|Hin]%elem_of_union.
      * exists intent, known. split; [|done]. apply elem_of_app. right.
        by apply list_elem_of_singleton.
      * destruct (Hd t Hin) as (i & i0 & Hseen & Hi0 & Hne').
        exists i, i0. split; [|done]. apply elem_of_app. by left.
  - (* a new keyword *)
    destruct Hset as (s' & dups' & -> & Hkeys & Hcase' & ->).
    exists s', dups. split; [done|]. rewrite Hkeys.
    split; [congruence|]. split.
    { intros Hst. by apply NoDup_keys_set, Hnodup. }
    split.
    { intros t i. destruct (decide (text = t)) as [<-|Hne].
      - rewrite get_set_eq. intros [= <-]. right. split.
        + destruct (Dict.get (keywords st) text) as [i|] eqn:Hst; [|done].
          apply Hc in Hst. congruence.
        + apply elem_of_app. right. by apply list_elem_of_singleton.
      - rewrite get_set_ne by done. intros [?|[? ?]]%Ha; [by left|].
        right. split; [done|]. apply elem_of_app. by left. }
    split.
    { intros t i [Hin|[= -> ->]%list_elem_of_singleton]%elem_of_app.
      - destruct (Hb t i Hin) as (i0 & Hi0 & Hor). exists i0.
        split; [|done]. rewrite get_set_ne; [done|]. congruence.
      - exists intent. rewrite get_set_eq. auto. }
    split.
    { intros t i Hst. apply Hc in Hst as Hs.
      rewrite get_set_ne; [done|]. congruence. }
    intros t (i & i0 & Hin & Hi0 & Hne)%Hd. exists i, i0.
    split; [apply elem_of_app; by left|]. split; [|done].
    rewrite get_set_ne; [done|]. congruence.
Qed.

(** [train] up to the call of [_validate_keyword_map]: the keywords
    left are those on whose intent the map and the examples agree. *)
Lemma train_run intent_examples st :
  exists st2,
    train' intent_examples st = _validate_keyword_map' st2
    /\ case_sensitive (classifier st2) = case_sensitive (classifier st)
    /\ (NoDup (Dict.keys (keywords st)) -> NoDup (Dict.keys (keywords st2)))
    /\ (forall k i, Dict.get (keywords st2) k = Some i ->
          (forall i', (k, i') ∈ intent_examples -> i' = i)
          /\ (Dict.get (keywords st) k = Some i
              \/ (Dict.get (keywords st) k = None /\ (k, i) ∈ intent_examples)))
    /\ (forall k i, (k, i) ∈ intent_examples ->
          (forall i', (k, i') ∈ intent_examples -> i' = i) ->
          (forall i0, Dict.get (keywords st) k = Some i0 -> i0 = i) ->
          Dict.get (keywords st2) k = Some i).
Proof.
  destruct (train_examples_spec intent_examples st)
    as (st1 & dups & Hloop & Hcase & Hnodup & Ha & Hb & Hc & Hd).
  destruct (pops_Ok id (fun keyword _ => pop_keyword keyword)
              (fun x u => eq_refl) (elements dups) st1)
    as (st2 & Hpops & _ & Hcase2 & Hnodup2 & Hmap).
  { rewrite list_fmap_id. apply NoDup_elements. }
  { intros k (i & i0 & _ & Hi0 & _)%elem_of_elements%Hd.
    apply get_is_Some. unfold id. by rewrite Hi0. }
  assert (forall k, Dict.get (keywords st2) k
                    = if decide (k ∈ dups) then None
                      else Dict.get (keywords st1) k) as Hmap'.
  { intros k. rewrite Hmap, list_fmap_id.
    destruct (decide (k ∈ elements dups)) as [Hin|Hin];
      destruct (decide (k ∈ dups)) as [Hin'|Hin']; try done.
    - destruct Hin'. by apply elem_of_elements.
    - destruct Hin. by apply elem_of_elements. }
  exists st2. split.
  { unfold train. unfold mbind at 1, M_bind at 1. rewrite Hloop.
    unfold mbind at 1, M_bind at 1. by rewrite Hpops. }
  split; [congruence|]. split; [auto|]. split.
  - intros k i. rewrite Hmap'.
    destruct (decide (k ∈ dups)) as [|Hk]; [done|]. intros Hget.
    split; [|by apply Ha].
    intros i' (i0 & Hi0 & [->|?])%Hb; [congruence | done].
  - intros k i Hin Hall Hst. rewrite Hmap'.
    destruct (Hb k i Hin) as (i0 & Hi0 & _).
    assert (i0 = i) as ->.
    { destruct (Ha k i0 Hi0) as [?|[_ ?]]; [by apply Hst | by apply Hall]. }
    rewrite decide_False; [done|].
    intros (i' & i0 & Hin' & Hi0' & Hne)%Hd.
    apply Hne. rewrite (Hall i' Hin'). congruence.
Qed.

(** X28. Whatever [train] leaves as a keyword stands for one intent in
    the training data: every example with that text has the keyword's
    intent, and the keyword was in the map before with this intent or
    comes from an example.  This holds however the searches go, and also
    when [train] ends in an exception. *)
Theorem train_sound intent_examples st st' r k i :
  train' intent_examples st = (st', r) ->
  Dict.get (keywords st') k = Some i ->
  (forall i', (k, i') ∈ intent_examples -> i' = i)
  /\ (Dict.get (keywords st) k = Some i
      \/ (Dict.get (keywords st) k = None /\ (k, i) ∈ intent_examples)).
Proof.
  destruct (train_run intent_examples st) as (st2 & -> & _ & _ & Hsound & _).
  intros Hshrink%validate_keyword_map_shrink Hget. by apply Hsound, Hshrink.
Qed.

(** X29. [train] learns a keyword when all the examples with this text
    have one intent, the map did not give it another one, and the text
    is found in no other keyword (when the searches all return, and
    [train] returns). *)
Theorem train_complete found intent_examples st st' k i :
  NoDup (Dict.keys (keywords st)) ->
  (forall k1 k2,
     k1 ∈ Dict.keys (keywords st) ++ intent_examples.*1 ->
     k2 ∈ Dict.keys (keywords st) ++ intent_examples.*1 ->
     re_search (word_pattern k1) k2 (re_flag (classifier st)) = Ok (found k1 k2)) ->
  train' intent_examples st = (st', Ok tt) ->
  (k, i) ∈ intent_examples ->
  (forall i', (k, i') ∈ intent_examples -> i' = i) ->
  (forall i0, Dict.get (keywords st) k = Some i0 -> i0 = i) ->
  (forall k2, k2 ∈ Dict.keys (keywords st) ++ intent_examples.*1 ->
              found k k2 = true -> k2 = k) ->
  Dict.get (keywords st') k = Some i.
Proof.
  intros Hnodup Hre Htrain Hin Hall Hst Halone.
  destruct (train_run intent_examples st)
    as (st2 & Hrun & Hcase & Hnodup2 & Hsound & Hcomplete).
  rewrite Hrun in Htrain.
  assert (forall k2, k2 ∈ Dict.keys (keywords st2) ->
                     k2 ∈ Dict.keys (keywords st) ++ intent_examples.*1)
    as Hkeys.
  { intros k2 [i2 Hi2]%get_is_Some. apply elem_of_app.
    destruct (Hsound k2 i2 Hi2) as [_ [Hk2|[_ Hk2]]].
    - left. apply get_is_Some. by rewrite Hk2.
    - right. by apply (list_elem_of_fmap_2 fst) in Hk2. }
  eapply (validate_keyword_map_kept found st2 st' (Hnodup2 Hnodup)) in Htrain.
  - apply Htrain. split; [by apply Hcomplete|].
    intros (k2 & i2 & Hin2 & Hfound & Hne). apply Hne.
    assert (k2 = k) as ->.
    { apply Halone; [|done]. apply Hkeys.
      by apply (list_elem_of_fmap_2 fst) in Hin2. }
    apply (get_elem_NoDup _ _ _ (Hnodup2 Hnodup)) in Hin2.
    rewrite (Hcomplete k i Hin Hall Hst) in Hin2. congruence.
  - intros k1 k2 Hk1%Hkeys Hk2%Hkeys. unfold re_flag. rewrite Hcase.
    by apply Hre.
Qed.

(** *** [_map_keyword_to_intent] *)

(** X30. [_map_keyword_to_intent] answers with the intent of the first
    keyword of the map, in the order of insertion, that is found in the
    text; the keywords after it are not looked at. *)
Theorem map_keyword_to_intent_first self text before keyword intent rest :
  intent_keyword_map self = before ++ (keyword, intent) :: rest ->
  (forall k i, (k, i) ∈ before ->
               re_search (word_pattern k) text (re_flag self) = Ok false) ->
  re_search (word_pattern keyword) text (re_flag self) = Ok true ->
  _map_keyword_to_intent' self text = Ok (Some intent).
Proof.
  unfold _map_keyword_to_intent. intros -> Hbefore Hfound.
  induction before as [|[k i] before IH]; simpl.
  - by rewrite Hfound.
  - rewrite (Hbefore k i) by left. simpl. apply IH.
    intros k' i' Hin. apply (Hbefore k' i'). by right.
Qed.

(** [_map_keyword_to_intent] answers [None] exactly when every keyword
    of the map is searched for and none is found. *)
Lemma map_keyword_to_intent_None self text :
  _map_keyword_to_intent' self text = Ok None
  <-> forall k i, (k, i) ∈ intent_keyword_map self ->
                  re_search (word_pattern k) text (re_flag self) = Ok false.
Proof.
  unfold _map_keyword_to_intent.
  induction (intent_keyword_map self) as [|[k i] items IH]; simpl.
  - split; [|done]. intros _ k i Hin. inversion Hin.
  - destruct (re_search (word_pattern k) text (re_flag self)) as [[]|e] eqn:Hk;
      simpl.
    + split; [done|]. intros Hall.
      specialize (Hall k i (list_elem_of_here _ _)). congruence.
    + rewrite IH. split.
      * intros Hall k' i' [[= -> ->]|Hin]%elem_of_cons; eauto.
      * intros Hall k' i' Hin. apply (Hall k' i'). by right.
    + split; [done|]. intros Hall.
      specialize (Hall k i (list_elem_of_here _ _)). congruence.
Qed.

End keyword_facts.

(** * The further theorems on the examples *)

Module MoreInstances.
Import Example MoreExamples.

Lemma to_pair {A B} (p : A * B) a b : p.1 = a -> p.2 = b -> p = (a, b).
Proof. destruct p. simpl. by intros -> ->. Defined.

(** ** Schemas *)

Lemma minimal_graph_schema_keeps_targets_witness :
  nodes pruned `sublist_of` nodes dead_dangling
  /\ (forall n, n ∈ Dict.keys (nodes pruned) ->
        Dict.get (nodes pruned) n = Dict.get (nodes dead_dangling) n)
  /\ (forall t node, (t, node) ∈ nodes dead_dangling ->
        is_target node = true -> (t, node) ∈ nodes pruned)
  /\ (forall t, is_target_node pruned t <-> is_target_node dead_dangling t).
Proof.
  apply (minimal_graph_schema_keeps_targets 6). reflexivity.
Defined.

Lemma minimal_graph_schema_self_contained_witness : needs_exist pruned.
Proof.
  apply (minimal_graph_schema_self_contained 6 dead_dangling).
  - apply (bool_decide_unpack (NoDup (Dict.keys (nodes dead_dangling)))).
    vm_compute. exact I.
  - reflexivity.
Defined.

Lemma minimal_graph_schema_dangling_witness :
  exists e,
    minimal_graph_schema 6 dangling = Raise e
    /\ (e = RecursionError
        \/ exists k, e = KeyError k /\ Dict.get (nodes dangling) k = None).
Proof.
  apply (minimal_graph_schema_dangling 6 dangling "T" "A").
  - exists "T". split; [|reflexivity].
    eexists. split; [left | reflexivity].
  - eexists. split; [reflexivity | vm_compute; left].
  - reflexivity.
Defined.

Lemma minimal_graph_schema_cycle_witness :
  minimal_graph_schema 50 cyclic = Raise RecursionError.
Proof.
  apply (minimal_graph_schema_cycle 50 cyclic "T").
  - apply needs_exist_checked. reflexivity.
  - exists "T". split; [|reflexivity].
    eexists. split; [left | reflexivity].
  - apply tc_once. eexists. split; [reflexivity | vm_compute; left].
Defined.

Lemma minimal_graph_schema_limit_witness :
  minimal_graph_schema 40 diamond = Ok pruned.
Proof.
  apply (minimal_graph_schema_limit 6 40); [lia | reflexivity].
Defined.

Lemma from_dict_schema_exception_witness :
  exists name sn path,
    (name, VDict sn) ∈ unimportable
    /\ Dict.get sn "uses" = Some (VStr path)
    /\ class_from_module_path path = None
    /\ ImportError "not.a.real.module.Foo" = ImportError path
    /\ "Error deserializing graph schema. Can't find class for graph component type 'not.a.real.module.Foo'."
       = "Error deserializing graph schema. Can't find class for graph component type '"
           +:+ path +:+ "'.".
Proof.
  apply (from_dict_schema_exception class_from_module_path py_str unimportable
           (from_dict class_from_module_path py_str unimportable).1).
  apply to_pair; vm_compute; reflexivity.
Defined.

Lemma from_dict_node_names_witness :
  Dict.keys (nodes diamond) = Dict.keys (serialized_schema diamond)
  /\ Dict.keys (from_dict class_from_module_path py_str
                  (serialized_schema diamond)).1
     = Dict.keys (serialized_schema diamond).
Proof.
  apply (from_dict_node_names class_from_module_path py_str).
  - apply (bool_decide_unpack (NoDup (Dict.keys (serialized_schema diamond)))).
    vm_compute. exact I.
  - apply to_pair; vm_compute; reflexivity.
Defined.

Lemma as_dict_json_safe_witness :
  exists serialized_graph_schema,
    as_dict diamond = Ok serialized_graph_schema
    /\ json_safe (VDict serialized_graph_schema) = true.
Proof.
  apply as_dict_json_safe.
  intros n node Hin. apply list_elem_of_In in Hin. simpl in Hin.
  repeat (destruct Hin as [[= <- <-]|Hin]; [reflexivity|]).
  destruct Hin.
Defined.

(** ** Nodes *)

Lemma call_protocol_witness :
  let st := eager_node in
  let st' := (__call__ class_attrs [("parent", VInt 5)] eager_node).1 in
  exists kwargs outs output constructed,
    project_inputs (_inputs (node st)) (Dict.of_pairs [("parent", VInt 5)])
    = Ok kwargs
    /\ Forall2 (fun hook o => before_hook_returns (node st) kwargs hook (Ok o))
         (_hooks (node st)) outs
    /\ (if _eager (node st) then constructed = []
        else exists arguments,
               constructed = [CallConstructor (_node_name (node st))
                                (_constructor_name (node st)) arguments])
    /\ call (_fn (node st)) [component_value (node st')]
         (run_kwargs_of (node st) kwargs) = Ok output
    /\ Forall2 (fun hook o => after_hook_returns (node st) output hook o (Ok tt))
         (_hooks (node st)) outs
    /\ ("n", VInt 5) = (_node_name (node st), output)
    /\ trace (world st')
       = trace (world st)
           ++ replicate (length (_hooks (node st)))
                (before_hook_call (node st) kwargs)
           ++ constructed
           ++ [CallFn (_node_name (node st)) (_fn_name (node st))
                 (component_value (node st'))
                 (run_kwargs_of (node st) kwargs)]
           ++ (after_hook_call (node st) output <$> outs).
Proof.
  intros st st'.
  apply (call_protocol class_attrs st [("parent", VInt 5)] st' ("n", VInt 5)).
  apply to_pair; vm_compute; reflexivity.
Defined.

Lemma call_before_hook_error_witness :
  __call__ class_attrs [("parent", VInt 5)] grumpy_node
  = (add_events grumpy_node
       (replicate 2 (before_hook_call (node grumpy_node) [("x", VInt 5)])),
     Raise (GraphComponentException
              ("Error running before hook for node "
                 +:+ _node_name (node grumpy_node) +:+ ".")
              (PyException "RuntimeError" "before"))).
Proof.
  apply (call_before_hook_error class_attrs grumpy_node [("parent", VInt 5)]
           [("x", VInt 5)] [observer] grumpy [observer]
           [VDict [("x", VInt 5)]]).
  - reflexivity.
  - reflexivity.
  - repeat constructor.
  - reflexivity.
  - reflexivity.
Defined.

Lemma call_after_hook_error_witness :
  __call__ class_attrs [("parent", VInt 5)] sulky_node
  = (add_events sulky_before
       ([CallFn (_node_name (node sulky_node)) (_fn_name (node sulky_node))
           (component_value (node sulky_before))
           (run_kwargs_of (node sulky_node) [("x", VInt 5)])]
          ++ (after_hook_call (node sulky_node) (VInt 5)
                <$> [VDict [("x", VInt 5)]] ++ [VNone])),
     Raise (GraphComponentException
              ("Error running after hook for node "
                 +:+ _node_name (node sulky_node) +:+ ".")
              (PyException "RuntimeError" "after"))).
Proof.
  apply (call_after_hook_error class_attrs sulky_node [("parent", VInt 5)]
           [("x", VInt 5)] sulky_before (VInt 5)
           [observer] sulky [observer]
           [VDict [("x", VInt 5)]] VNone [VDict [("x", VInt 5)]]).
  - exists sulky_before. split_and!; vm_compute; reflexivity.
  - reflexivity.
  - reflexivity.
  - repeat constructor.
  - reflexivity.
  - reflexivity.
Defined.

Lemma init_merges_config_witness :
  (forall k,
     Dict.get (_component_config (node eager_node)) k
     = match Dict.get [("epochs", VInt 5)] k with
       | Some v => Some v
       | None => Dict.get (get_default_config Trainer) k
       end)
  /\ (true = true ->
      exists arguments,
        trace (world eager_node)
        = trace world0 ++ [CallConstructor "n" "create" arguments]
        /\ Dict.get arguments "config"
           = Some (VDict (_component_config (node eager_node)))).
Proof.
  apply (init_merges_config class_attrs get_default_config "n" Trainer
           "create" [("epochs", VInt 5)] "run" [("x", "parent")] true storage
           None context (Some [observer]) world0).
  - apply (bool_decide_unpack (NoDup (Dict.keys [("epochs", VInt 5)]))).
    vm_compute. exact I.
  - vm_compute. reflexivity.
Defined.

Lemma init_constructor_error_witness :
  exists w',
    __init__ class_attrs get_default_config "n" Trainer "boom"
      [("epochs", VInt 5)] "run" [("x", "parent")] true storage None context
      (Some [observer]) world0
    = (w', Raise (GraphComponentException
                    ("Error initializing graph component for node "
                       +:+ "n" +:+ ".")
                    (PyException "ValueError" "boom")))
    /\ instantiations w' = S (instantiations world0).
Proof.
  apply (init_constructor_error class_attrs get_default_config "n" Trainer
           "boom" [("epochs", VInt 5)] "run" [("x", "parent")] storage None
           context (Some [observer]) world0 boom).
  - reflexivity.
  - eexists. reflexivity.
  - reflexivity.
  - reflexivity.
Defined.

Lemma call_constructor_error_witness :
  __call__ class_attrs [("parent", VInt 5)] exploding_node
  = (add_events exploding_node
       (replicate (length (_hooks (node exploding_node)))
          (before_hook_call (node exploding_node) [("x", VInt 5)])
        ++ [CallConstructor (_node_name (node exploding_node))
              (_constructor_name (node exploding_node))
              (constructor_arguments (node exploding_node)
                 (minimal_kwargs [("x", VInt 5)]
                    (_constructor_fn (node exploding_node))))]),
     Raise (GraphComponentException
              ("Error initializing graph component for node "
                 +:+ _node_name (node exploding_node) +:+ ".")
              (PyException "ValueError" "boom"))).
Proof.
  apply (call_constructor_error class_attrs exploding_node
           [("parent", VInt 5)] [("x", VInt 5)] [VDict [("x", VInt 5)]] boom).
  - reflexivity.
  - reflexivity.
  - repeat constructor.
  - reflexivity.
  - intros k _. reflexivity.
  - reflexivity.
  - reflexivity.
Defined.

Lemma load_component_reserved_keyword_witness :
  exists msg,
    _load_component class_attrs [("config", VInt 1)] lazy_node
    = (lazy_node,
       Raise (GraphComponentException
                ("Error initializing graph component for node "
                   +:+ _node_name (node lazy_node) +:+ ".")
                (TypeError msg))).
Proof.
  apply (load_component_reserved_keyword class_attrs [("config", VInt 1)]
           lazy_node load "config").
  - reflexivity.
  - vm_compute. left.
  - eexists. reflexivity.
Defined.

Lemma call_uses_last_output_witness :
  exists kwargs,
    project_inputs [("x", "parent")]
      (Dict.of_pairs [("parent", VInt 1); ("parent", VInt 2)]) = Ok kwargs
    /\ Dict.get kwargs "x" = Some (VInt 2).
Proof.
  exists [("x", VInt 2)]. split; [reflexivity|].
  apply (call_uses_last_output [("x", "parent")] [("parent", VInt 1)] []
           "parent" (VInt 2) "x" [("x", VInt 2)]).
  - apply (bool_decide_unpack (NoDup (Dict.keys [("x", "parent")]))).
    vm_compute. exact I.
  - left.
  - intros Hin. inversion Hin.
  - reflexivity.
Defined.

(** ** A pipeline *)

Lemma validate_required_components_error_witness :
  validate_required_components [tokenizer; diet; featurizer]
  = Raise (InvalidConfigException
             ("The pipeline configuration contains errors. The component '"
                +:+ "DIETClassifier" +:+ "' requires "
                +:+ "'Featurizer'"
                +:+ " to be placed before it in the pipeline. Please "
                +:+ "add the required components to the pipeline.")).
Proof.
  assert ([Featurizer]
          = filter (fun required =>
                      negb (_required_component_in_pipeline required [tokenizer])
                      = true)
              (required_components diet)) as Hmissing
      by (vm_compute; reflexivity).
  exact (validate_required_components_error [tokenizer] diet [featurizer]
           [Featurizer] eq_refl Hmissing ltac:(discriminate)).
Defined.

Example pipeline_in_order :
  validate_pipeline [tokenizer; featurizer; diet] = Ok tt
  /\ any_components_in_pipeline ["DIETClassifier"; "CRFEntityExtractor"]
       [tokenizer; featurizer; diet] = true.
Proof. split; vm_compute; reflexivity. Qed.

(** ** A builder *)

Lemma create_component_shares_witness :
  let st1 := (create_component spacy_config VNone caching).1 in
  create_component spacy_config_en VNone st1
  = (st1, Ok (VObj "component" [VInt 0])).
Proof.
  intros st1.
  apply (create_component_shares caching st1 spacy_config VNone _
           "SpacyNLP-en").
  - reflexivity.
  - reflexivity.
  - apply to_pair; vm_compute; reflexivity.
  - discriminate.
  - reflexivity.
Defined.

Lemma create_component_no_cache_witness :
  create_component spacy_config VNone not_caching
  = (one_more_created not_caching, Ok (VObj "component" [VInt 0])).
Proof.
  apply (create_component_no_cache not_caching spacy_config VNone
           (Some "SpacyNLP-en")); reflexivity.
Defined.

Lemma create_component_needs_name_witness :
  create_component [("class", VStr "SpacyNLP")] VNone caching
  = (caching, Raise (KeyError "name")).
Proof.
  apply (create_component_needs_name caching [("class", VStr "SpacyNLP")]
           VNone (VObj "Metadata" [VNone])); reflexivity.
Defined.

Lemma create_component_error_witness :
  create_component [("name", VStr "Broken")] VNone caching
  = (one_more_created caching,
     Raise (RasaException
              ("Failed to create component '" +:+ "Broken"
                 +:+ "'. Error: " +:+ "Cannot find 'model'."))).
Proof.
  refine (create_component_error caching [("name", VStr "Broken")] VNone None
            (VStr "Broken")
            (MissingArgumentError "Cannot find 'model'.") _ _ _ _).
  - reflexivity.
  - intros k [=].
  - reflexivity.
  - reflexivity.
Defined.

(** ** A keyword classifier *)

Lemma searches_found (keywords : list string) :
  forallb (fun k1 =>
             forallb (fun k2 =>
                        match re_search (word_pattern k1) k2 false with
                        | Ok b => Bool.eqb b (found k1 k2)
                        | Raise _ => false
                        end) keywords) keywords = true ->
  forall k1 k2, k1 ∈ keywords -> k2 ∈ keywords ->
    re_search (word_pattern k1) k2 false = Ok (found k1 k2).
Proof.
  rewrite forallb_forall. intros Hall k1 k2 Hk1%list_elem_of_In Hk2%list_elem_of_In.
  specialize (Hall k1 Hk1). rewrite forallb_forall in Hall.
  specialize (Hall k2 Hk2).
  destruct (re_search (word_pattern k1) k2 false) as [b|]; [|done].
  apply Bool.eqb_prop in Hall. by subst.
Defined.

Lemma validate_keyword_map_Ok_witness :
  let st' := (_validate_keyword_map re_search (with_keywords greetings)).1 in
  (Dict.get (keywords st') "hello" = Some "greet"
   <-> Dict.get greetings "hello" = Some "greet"
       /\ ~ ambiguous found greetings "hello" "greet")
  /\ (Dict.get (keywords st') "bye" = Some "goodbye"
      <-> Dict.get greetings "bye" = Some "goodbye"
          /\ ~ ambiguous found greetings "bye" "goodbye").
Proof.
  intros st'.
  assert (forall k i,
            Dict.get (keywords st') k = Some i
            <-> Dict.get greetings k = Some i
                /\ ~ ambiguous found greetings k i) as Hkept.
  { apply (validate_keyword_map_Ok re_search found (with_keywords greetings) st').
    - apply (bool_decide_unpack (NoDup (Dict.keys greetings))).
      vm_compute. exact I.
    - apply searches_found. vm_compute. reflexivity.
    - apply to_pair; vm_compute; reflexivity. }
  split; apply Hkept.
Defined.

Lemma validate_keyword_map_KeyError_witness :
  exists st' k,
    _validate_keyword_map re_search (with_keywords twice_ambiguous)
    = (st', Raise (KeyError k)).
Proof.
  apply (validate_keyword_map_KeyError re_search found
           (with_keywords twice_ambiguous) "a" "x" "a b" "y" "a c" "z").
  - apply searches_found. vm_compute. reflexivity.
  - vm_compute. left.
  - vm_compute. right. left.
  - vm_compute. do 2 right. left.
  - discriminate.
  - reflexivity.
  - reflexivity.
  - discriminate.
  - discriminate.
Defined.

Lemma train_sound_witness :
  (forall i', ("bye", i') ∈ intent_examples -> i' = "goodbye")
  /\ (Dict.get (keywords untrained) "bye" = Some "goodbye"
      \/ (Dict.get (keywords untrained) "bye" = None
          /\ ("bye", "goodbye") ∈ intent_examples)).
Proof.
  apply (train_sound re_search intent_examples untrained
           (train re_search intent_examples untrained).1
           (train re_search intent_examples untrained).2).
  - apply to_pair; reflexivity.
  - vm_compute. reflexivity.
Defined.

Lemma train_complete_witness :
  Dict.get (keywords (train re_search intent_examples untrained).1) "bye"
  = Some "goodbye".
Proof.
  apply (train_complete re_search found intent_examples untrained).
  - apply NoDup_nil_2.
  - apply searches_found. vm_compute. reflexivity.
  - apply to_pair; vm_compute; reflexivity.
  - vm_compute. right. left.
  - intros i' Hin. apply list_elem_of_In in Hin. simpl in Hin.
    repeat (destruct Hin as [Heq|Hin]; [by simplify_eq|]). destruct Hin.
  - intros i0 [=].
  - intros k2 Hin Hfound. apply list_elem_of_In in Hin. simpl in Hin.
    repeat (destruct Hin as [<-|Hin]; [done|]). destruct Hin.
Defined.

Lemma map_keyword_to_intent_first_witness :
  _map_keyword_to_intent re_search (classifier (with_keywords greetings))
    "good bye"
  = Ok (Some "goodbye").
Proof.
  apply (map_keyword_to_intent_first re_search _ "good bye"
           (take 2 greetings) "bye" "goodbye" []).
  - reflexivity.
  - intros k i Hin. apply list_elem_of_In in Hin. simpl in Hin.
    repeat (destruct Hin as [[= <- <-]|Hin]; [reflexivity|]). destruct Hin.
  - reflexivity.
Defined.

End MoreInstances.
